(** * Edge embedding of SevenNet: [sevenn/nn/edge_embedding.py]

    A shallow embedding of the five modules of the file
    ([EdgePreprocess], [BesselBasis], [PolynomialCutoff], [XPLORCutoff],
    [EdgeEmbedding]) and the verification of their specification.

    Numbers.  A Python or torch float is a real number ([R]); rounding is not
    modelled.  The scalar operations that leave the reals in floating point
    (division by zero, a negative power of zero) return [None], which stands
    for a result that is not a finite number (Inf or NaN).

    Tensors.  A tensor is a dtype, a shape drawn from the shapes the data
    schema uses ((n,), (n,3), (n,1,3), (n,3,3) and (n,k)), and, for floats,
    the [requires_grad] flag.  The operations have the cases the data schema
    leads to, and those that positions of an integer dtype or of shape
    (n,3,3) lead to; on other operands an operation raises [RuntimeError]
    here, where torch raises too in most cases and in a few returns a tensor
    of a shape that is not among these.

    Objects.  Tensor objects live in a store and are named by their address;
    the data dictionary maps keys to addresses, as a Python
    [Dict[str, Tensor]] maps keys to references.  Each assignment of an
    out-of-place expression allocates its value as a new object; the one
    in-place operation of the file, [requires_grad_], overwrites the object
    it is called on.  An exception ends the call.

    Parameters.  The key constants of [sevenn._keys] and the three modules
    injected into [EdgeEmbedding] are not in this file; they are parameters
    here. *)

From Stdlib Require Import Reals Lra ZArith Lia.
From stdpp Require Import gmap strings list.

(** ** Exceptions and results *)

Inductive error :=
  | KeyError (k : string)     (* [data[k]] on a dictionary without [k] *)
  | IndexError                (* index out of range *)
  | RuntimeError              (* torch: shapes or dtypes do not fit *)
  | ZeroDivisionError         (* Python float division by zero *)
  | NotFinite.                (* no exception: a value with Inf or NaN in it,
                                 which a tensor of reals does not hold *)

Inductive result (A : Type) :=
  | Ok (a : A)
  | Err (e : error).
Arguments Ok {A} a.
Arguments Err {A} e.

Global Instance result_ret : MRet result := λ A a, Ok a.
Global Instance result_bind : MBind result := λ A B f r,
  match r with Ok a => f a | Err e => Err e end.
Global Instance result_fmap : FMap result := λ A B f r,
  match r with Ok a => Ok (f a) | Err e => Err e end.

(** A float that has to be finite to go on. *)
Definition finite {A} (o : option A) : result A :=
  match o with Some a => Ok a | None => Err NotFinite end.

(** ** Scalar float operations *)

Section scalar.
Local Open Scope R_scope.

(** [a / b] on floats: not finite when [b] is zero. *)
Definition fdiv (a b : R) : option R :=
  if Req_dec_T b 0 then None else Some (a / b).

(** [torch.pow(x, n)] for an integer-valued exponent: [0] to a negative power
    is Inf. *)
Definition tpow (x : R) (n : Z) : option R :=
  if Req_dec_T x 0 then (if (n <? 0)%Z then None else Some (powerRZ x n))
  else Some (powerRZ x n).

(** The value of a finite float. *)
Definition fin (o : option R) : R := default 0 o.

(** [range(lo, hi)] *)
Definition py_range (lo hi : Z) : list Z :=
  (λ i : nat, (lo + Z.of_nat i)%Z) <$> seq 0 (Z.to_nat (hi - lo)).

End scalar.

(** ** Tensors *)

Definition vec3 (A : Type) : Type := A * A * A.
Definition mat3 (A : Type) : Type := vec3 A * vec3 A * vec3 A.

(** The shapes of the data schema.  A two-dimensional tensor of width three
    is always an [S2]; [SM] holds the other widths. *)
Inductive shaped (A : Type) :=
  | S1 (xs : list A)                         (* shape (n,) *)
  | S2 (rows : list (vec3 A))                (* shape (n,3) *)
  | SRow (rows : list (vec3 A))              (* shape (n,1,3) *)
  | S3 (mats : list (mat3 A))                (* shape (n,3,3) *)
  | SM (cols : nat) (rows : list (list A)).  (* shape (n,cols) *)
Arguments S1 {A} xs.
Arguments S2 {A} rows.
Arguments SRow {A} rows.
Arguments S3 {A} mats.
Arguments SM {A} cols rows.

Inductive tensor :=
  | FloatT (requires_grad : bool) (v : shaped R)
  | LongT (v : shaped Z).

Section lists.
Context {A : Type}.

(** [l[i]] for a Python integer: negative indices count from the end. *)
Definition py_index (l : list A) (i : Z) : result A :=
  let n := Z.of_nat (length l) in
  let j := if (i <? 0)%Z then (n + i)%Z else i in
  if ((0 <=? j)%Z && (j <? n)%Z)%bool then
    match l !! Z.to_nat j with Some x => Ok x | None => Err IndexError end
  else Err IndexError.

Fixpoint index_select (l : list A) (idx : list Z) : result (list A) :=
  match idx with
  | [] => Ok []
  | i :: idx => x ← py_index l i; xs ← index_select l idx; Ok (x :: xs)
  end.

Fixpoint mats_of_flat (xs : list A) : list (mat3 A) :=
  match xs with
  | a :: b :: c :: d :: e :: f :: g :: h :: i :: rest =>
      ((a, b, c), (d, e, f), (g, h, i)) :: mats_of_flat rest
  | _ => []
  end.

(** Elementwise combination of two lists of one length. *)
Definition zip_same {B C} (f : A → B → C) (l : list A) (k : list B)
    : result (list C) :=
  if decide (length l = length k) then Ok (zip_with f l k)
  else Err RuntimeError.

End lists.

Section shapes.
Context {A : Type}.

Definition vec_list (v : vec3 A) : list A := let '(x, y, z) := v in [x; y; z].
Definition mat_rows (m : mat3 A) : list (vec3 A) :=
  let '(r0, r1, r2) := m in [r0; r1; r2].

(** The elements in row-major order. *)
Definition flat (s : shaped A) : list A :=
  match s with
  | S1 xs => xs
  | S2 rows | SRow rows => rows ≫= vec_list
  | S3 mats => mats ≫= λ m, mat_rows m ≫= vec_list
  | SM _ rows => concat rows
  end.

(** [.view(-1, 3, 3)] *)
Definition view_n33 (s : shaped A) : result (shaped A) :=
  if decide (length (flat s) `mod` 9 = 0) then Ok (S3 (mats_of_flat (flat s)))
  else Err RuntimeError.

(** [.view(3, 3)] *)
Definition view_33 (s : shaped A) : result (shaped A) :=
  match flat s with
  | [a; b; c; d; e; f; g; h; i] => Ok (S2 [(a, b, c); (d, e, f); (g, h, i)])
  | _ => Err RuntimeError
  end.

(** [s[idx]] for a one-dimensional integer tensor [idx]: rows of the first
    dimension. *)
Definition index_rows (s : shaped A) (idx : list Z) : result (shaped A) :=
  match s with
  | S1 xs => S1 <$> index_select xs idx
  | S2 rows => S2 <$> index_select rows idx
  | SRow rows => SRow <$> index_select rows idx
  | S3 mats => S3 <$> index_select mats idx
  | SM c rows => SM c <$> index_select rows idx
  end.

(** [s[i]] for a Python integer [i]. *)
Definition index_int (s : shaped A) (i : Z) : result (shaped A) :=
  match s with
  | S1 _ => Err RuntimeError                    (* a 0-d tensor *)
  | S2 rows => (λ r, S1 (vec_list r)) <$> py_index rows i
  | SRow rows => (λ r, S2 [r]) <$> py_index rows i
  | S3 mats => (λ m, S2 (mat_rows m)) <$> py_index mats i
  | SM _ rows => S1 <$> py_index rows i
  end.

(** [.transpose(-1, -2)] of a stack of 3x3 matrices or of one 3x3 matrix. *)
Definition mtranspose (m : mat3 A) : mat3 A :=
  let '((a, b, c), (d, e, f), (g, h, i)) := m in
  ((a, d, g), (b, e, h), (c, f, i)).

Definition as_mat3 (rows : list (vec3 A)) : result (mat3 A) :=
  match rows with
  | [r0; r1; r2] => Ok (r0, r1, r2)
  | _ => Err RuntimeError
  end.

Definition transpose (s : shaped A) : result (shaped A) :=
  match s with
  | S3 mats => Ok (S3 (mtranspose <$> mats))
  | S2 rows => m ← as_mat3 rows; Ok (S2 (mat_rows (mtranspose m)))
  | _ => Err RuntimeError
  end.

(** [.squeeze(0)]: drops the first dimension when its size is one. *)
Definition squeeze0 (s : shaped A) : result (shaped A) :=
  match s with
  | S1 [_] => Err RuntimeError                  (* a 0-d tensor *)
  | S2 [r] => Ok (S1 (vec_list r))
  | SRow [r] => Ok (S2 [r])
  | S3 [m] => Ok (S2 (mat_rows m))
  | SM _ [r] => Ok (S1 r)
  | _ => Ok s
  end.

(** [.unsqueeze(-2)] of shape (n,3) and [.squeeze(-2)] of shape (n,1,3). *)
Definition unsqueeze_m2 (s : shaped A) : result (shaped A) :=
  match s with
  | S2 rows => Ok (SRow rows)
  | _ => Err RuntimeError
  end.

Definition squeeze_m2 (s : shaped A) : result (shaped A) :=
  match s with
  | SRow rows => Ok (S2 rows)
  | _ => Err RuntimeError
  end.

End shapes.

Section two_dim.
Context {A : Type}.

Definition to_vec3 (l : list A) : option (vec3 A) :=
  match l with
  | [x; y; z] => Some (x, y, z)
  | _ => None
  end.

(** A two-dimensional tensor as its width and rows, and back. *)
Definition as_2d (s : shaped A) : option (nat * list (list A)) :=
  match s with
  | S2 rows => Some (3, vec_list <$> rows)
  | SM c rows => Some (c, rows)
  | _ => None
  end.

Definition mk_2d (cols : nat) (rows : list (list A)) : shaped A :=
  if decide (cols = 3) then
    match mapM to_vec3 rows with
    | Some vs => S2 vs
    | None => SM cols rows
    end
  else SM cols rows.

(** [.unsqueeze(-1)] of shape (n,). *)
Definition unsqueeze_last (s : shaped A) : result (shaped A) :=
  match s with
  | S1 xs => Ok (SM 1 ((λ x, [x]) <$> xs))
  | _ => Err RuntimeError
  end.

(** Broadcasting of one dimension: sizes agree, or one of them is one. *)
Definition bcast_dim (a b : nat) : result nat :=
  if decide (a = b) then Ok a
  else if decide (a = 1) then Ok b
  else if decide (b = 1) then Ok a
  else Err RuntimeError.

Definition expand (n : nat) (l : list A) : list A :=
  if decide (length l = n) then l
  else match l with [x] => replicate n x | _ => l end.

Definition bzip {B C} (f : A → B → C) (l : list A) (k : list B)
    : result (list C) :=
  if decide (length l = length k) then Ok (zip_with f l k)
  else match l, k with
       | [x], _ => Ok (f x <$> k)
       | _, [y] => Ok ((λ x, f x y) <$> l)
       | _, _ => Err RuntimeError
       end.

End two_dim.

Section elementwise.
Context {A : Type}.

Definition vzip (f : A → A → A) (u v : vec3 A) : vec3 A :=
  let '(a, b, c) := u in let '(x, y, z) := v in (f a x, f b y, f c z).
Definition mzip (f : A → A → A) (a b : mat3 A) : mat3 A :=
  let '(a0, a1, a2) := a in
  let '(b0, b1, b2) := b in (vzip f a0 b0, vzip f a1 b1, vzip f a2 b2).

(** An elementwise operation on two tensors that agree in all but the first
    dimension, which broadcasts. *)
Definition zip_shaped (f : A → A → A) (u v : shaped A) : result (shaped A) :=
  match u, v with
  | S1 a, S1 b => S1 <$> bzip f a b
  | S2 a, S2 b => S2 <$> bzip (vzip f) a b
  | SRow a, SRow b => SRow <$> bzip (vzip f) a b
  | S3 a, S3 b => S3 <$> bzip (mzip f) a b
  | SM c a, SM c' b =>
      if decide (c = c') then SM c <$> bzip (zip_with f) a b
      else Err RuntimeError
  | _, _ => Err RuntimeError
  end.

End elementwise.

(** An integer vector or matrix as floats: type promotion. *)
Definition vec_float (v : vec3 Z) : vec3 R :=
  let '(x, y, z) := v in (IZR x, IZR y, IZR z).
Definition mat_float (m : mat3 Z) : mat3 R :=
  let '(r0, r1, r2) := m in (vec_float r0, vec_float r1, vec_float r2).

(** ** Float arithmetic on tensors *)

Section float_ops.
Local Open Scope R_scope.

Definition vadd (u v : vec3 R) : vec3 R :=
  let '(a, b, c) := u in let '(x, y, z) := v in (a + x, b + y, c + z).
Definition vsub (u v : vec3 R) : vec3 R :=
  let '(a, b, c) := u in let '(x, y, z) := v in (a - x, b - y, c - z).
Definition vscale (k : R) (v : vec3 R) : vec3 R :=
  let '(x, y, z) := v in (k * x, k * y, k * z).

(** [sum_i v_i * m_ij] *)
Definition vecmat (v : vec3 R) (m : mat3 R) : vec3 R :=
  let '(x, y, z) := v in
  let '(r0, r1, r2) := m in
  vadd (vadd (vscale x r0) (vscale y r1)) (vscale z r2).

Definition matmul (a b : mat3 R) : mat3 R :=
  let '(a0, a1, a2) := a in (vecmat a0 b, vecmat a1 b, vecmat a2 b).
Definition madd (a b : mat3 R) : mat3 R :=
  let '(a0, a1, a2) := a in
  let '(b0, b1, b2) := b in (vadd a0 b0, vadd a1 b1, vadd a2 b2).
Definition mscale (k : R) (a : mat3 R) : mat3 R :=
  let '(a0, a1, a2) := a in (vscale k a0, vscale k a1, vscale k a2).

Definition norm3 (v : vec3 R) : R :=
  let '(x, y, z) := v in sqrt (x * x + y * y + z * z).
Definition norm_list (l : list R) : R :=
  sqrt (foldr (λ x acc, x * x + acc) 0 l).

Definition zero_vec : vec3 R := (0, 0, 0).
Definition zero_mat : mat3 R := (zero_vec, zero_vec, zero_vec).
Definition zero_vecZ : vec3 Z := (0, 0, 0)%Z.
Definition zero_matZ : mat3 Z := (zero_vecZ, zero_vecZ, zero_vecZ).

(** A shape operation works on every dtype and keeps [requires_grad]. *)
Definition lift_shape (f : ∀ A, shaped A → result (shaped A)) (t : tensor)
    : result tensor :=
  match t with
  | FloatT rg v => FloatT rg <$> f R v
  | LongT v => LongT <$> f Z v
  end.

Definition t_view_n33 : tensor → result tensor := lift_shape (@view_n33).
Definition t_view_33 : tensor → result tensor := lift_shape (@view_33).
Definition t_transpose : tensor → result tensor := lift_shape (@transpose).
Definition t_squeeze0 : tensor → result tensor := lift_shape (@squeeze0).
Definition t_unsqueeze_m2 : tensor → result tensor :=
  lift_shape (@unsqueeze_m2).
Definition t_squeeze_m2 : tensor → result tensor := lift_shape (@squeeze_m2).
Definition t_unsqueeze_last : tensor → result tensor :=
  lift_shape (@unsqueeze_last).

(** [t[i]] for a Python integer [i]. *)
Definition t_index_int (i : Z) : tensor → result tensor :=
  lift_shape (λ A s, index_int s i).

(** [t[idx]] for an integer tensor [idx] of shape (n,); a float tensor is
    no index. *)
Definition t_index (t idx : tensor) : result tensor :=
  match idx with
  | LongT (S1 ix) => lift_shape (λ A s, index_rows s ix) t
  | LongT _ => Err RuntimeError
  | FloatT _ _ => Err IndexError
  end.

(** [int(t.max().cpu().item())] of an integer tensor. *)
Definition max_item (t : tensor) : result Z :=
  match t with
  | LongT v =>
      match flat v with
      | [] => Err RuntimeError
      | x :: xs => Ok (foldr Z.max x xs)
      end
  | FloatT _ _ => Err RuntimeError
  end.

(** [torch.zeros((n, 3, 3), dtype=like.dtype)] and
    [torch.zeros((3, 3), dtype=like.dtype)] *)
Definition zeros_n33 (n : Z) (like : tensor) : result tensor :=
  if (n <? 0)%Z then Err RuntimeError
  else Ok match like with
          | FloatT _ _ => FloatT false (S3 (replicate (Z.to_nat n) zero_mat))
          | LongT _ => LongT (S3 (replicate (Z.to_nat n) zero_matZ))
          end.

Definition zeros_33 (like : tensor) : tensor :=
  match like with
  | FloatT _ _ => FloatT false (S2 (replicate 3 zero_vec))
  | LongT _ => LongT (S2 (replicate 3 zero_vecZ))
  end.

(** Shape (n,3,3) plus shape (m,3): the dimensions align from the right, so
    the rows of [v] meet the rows of every matrix, and [m] is 3 or 1. *)
Definition add_rows (u : list (mat3 R)) (v : list (vec3 R))
    : result (list (mat3 R)) :=
  match v with
  | [r] => Ok ((λ m, madd m (r, r, r)) <$> u)
  | [r0; r1; r2] => Ok ((λ m, madd m (r0, r1, r2)) <$> u)
  | _ => Err RuntimeError
  end.

(** [a + b]: two floats of shape (n,3) or (n,3,3), with broadcasting of the
    first dimension; and what the sum of line 77 or 81 meets when the
    positions are integers or of shape (n,3,3): an integer left operand, which
    is promoted, and shape (n,3,3) plus shape (m,3). *)
Definition t_add (a b : tensor) : result tensor :=
  match a, b with
  | FloatT ga (S2 u), FloatT gb (S2 v) =>
      (λ w, FloatT (ga || gb) (S2 w)) <$> bzip vadd u v
  | FloatT ga (S3 u), FloatT gb (S3 v) =>
      (λ w, FloatT (ga || gb) (S3 w)) <$> bzip madd u v
  | LongT (S2 u), FloatT gb (S2 v) =>
      (λ w, FloatT gb (S2 w)) <$> bzip vadd (vec_float <$> u) v
  | FloatT ga (S3 u), FloatT gb (S2 v) =>
      (λ w, FloatT (ga || gb) (S3 w)) <$> add_rows u v
  | LongT (S3 u), FloatT gb (S2 v) =>
      (λ w, FloatT gb (S3 w)) <$> add_rows (mat_float <$> u) v
  | _, _ => Err RuntimeError
  end.

(** [a - b] for two tensors of one dtype that agree in all but the first
    dimension, as [pos[idx_dst]] and [pos[idx_src]] do, whatever [pos] is;
    the first dimension broadcasts. *)
Definition t_sub (a b : tensor) : result tensor :=
  match a, b with
  | FloatT ga (S2 u), FloatT gb (S2 v) =>
      (λ w, FloatT (ga || gb) (S2 w)) <$> bzip vsub u v
  | FloatT ga u, FloatT gb v => FloatT (ga || gb) <$> zip_shaped Rminus u v
  | LongT u, LongT v => LongT <$> zip_shaped Z.sub u v
  | _, _ => Err RuntimeError
  end.

(** [k * t] for a Python float [k]. *)
Definition t_scale (k : R) (t : tensor) : result tensor :=
  match t with
  | FloatT g (S2 u) => Ok (FloatT g (S2 (vscale k <$> u)))
  | FloatT g (S3 u) => Ok (FloatT g (S3 (mscale k <$> u)))
  | _ => Err RuntimeError
  end.

(** [torch.bmm(a, b)]: shapes (n,1,3) x (n,3,3) and (n,3,3) x (n,3,3); the
    batch sizes have to agree. *)
Definition t_bmm (a b : tensor) : result tensor :=
  match a, b with
  | FloatT ga (SRow u), FloatT gb (S3 m) =>
      (λ w, FloatT (ga || gb) (SRow w)) <$> zip_same vecmat u m
  | FloatT ga (S3 u), FloatT gb (S3 m) =>
      (λ w, FloatT (ga || gb) (S3 w)) <$> zip_same matmul u m
  | _, _ => Err RuntimeError
  end.

(** [torch.mm(a, b)]: shapes (n,3) x (3,3). *)
Definition t_mm (a b : tensor) : result tensor :=
  match a, b with
  | FloatT ga (S2 u), FloatT gb (S2 rows) =>
      m ← as_mat3 rows;
      Ok (FloatT (ga || gb) (S2 ((λ r, vecmat r m) <$> u)))
  | _, _ => Err RuntimeError
  end.

(** [torch.einsum('ni,nij->nj', a, b)] *)
Definition einsum_ni_nij (a b : tensor) : result tensor :=
  match a, b with
  | FloatT ga (S2 u), FloatT gb (S3 m) =>
      (λ w, FloatT (ga || gb) (S2 w)) <$> bzip vecmat u m
  | _, _ => Err RuntimeError
  end.

(** [torch.einsum('ni,ij->nj', a, b)] *)
Definition einsum_ni_ij (a b : tensor) : result tensor :=
  match a, b with
  | FloatT ga (S2 u), FloatT gb (S2 rows) =>
      m ← as_mat3 rows;
      Ok (FloatT (ga || gb) (S2 ((λ r, vecmat r m) <$> u)))
  | _, _ => Err RuntimeError
  end.

(** [torch.linalg.norm(t, dim=-1)] of a float tensor of two or three
    dimensions: the norm of every row.  An integer tensor has no norm. *)
Definition linalg_norm (t : tensor) : result tensor :=
  match t with
  | FloatT g (S2 u) => Ok (FloatT g (S1 (norm3 <$> u)))
  | FloatT g (SM _ u) => Ok (FloatT g (S1 (norm_list <$> u)))
  | FloatT g (S3 u) =>
      Ok (FloatT g (S2 ((λ m, let '(r0, r1, r2) := m in
                              (norm3 r0, norm3 r1, norm3 r2)) <$> u)))
  | FloatT g (SRow u) => Ok (FloatT g (SM 1 ((λ r, [norm3 r]) <$> u)))
  | _ => Err RuntimeError
  end.

(** [a * b] of two-dimensional floats, with broadcasting. *)
Definition t_mul (a b : tensor) : result tensor :=
  match a, b with
  | FloatT ga u, FloatT gb v =>
      match as_2d u, as_2d v with
      | Some (c1, r1), Some (c2, r2) =>
          n ← bcast_dim (length r1) (length r2);
          c ← bcast_dim c1 c2;
          Ok (FloatT (ga || gb)
                (mk_2d c (zip_with (λ x y, zip_with Rmult (expand c x) (expand c y))
                            (expand n r1) (expand n r2))))
      | _, _ => Err RuntimeError
      end
  | _, _ => Err RuntimeError
  end.

End float_ops.

(** ** The store, the data dictionary and the monad of a [forward] call *)

Record state := {
  heap : list tensor;        (* the tensor objects, by address *)
  dict : gmap string nat     (* [data]: key to address *)
}.

Definition M (A : Type) : Type := state → result (A * state).

Global Instance M_ret : MRet M := λ A a s, Ok (a, s).
Global Instance M_bind : MBind M := λ A B f m s,
  match m s with
  | Ok (a, s') => f a s'
  | Err e => Err e
  end.

Definition run {A} (m : M A) (s : state) : result (A * state) := m s.

(** The outcome of a pure expression; an exception ends the call. *)
Definition lift {A} (r : result A) : M A := λ s,
  match r with Ok a => Ok (a, s) | Err e => Err e end.

(** The tensor object behind a reference. *)
Definition load (l : nat) : M tensor := λ s,
  match s.(heap) !! l with
  | Some t => Ok (t, s)
  | None => Err RuntimeError
  end.

(** A new tensor object. *)
Definition alloc (t : tensor) : M nat := λ s,
  Ok (length s.(heap), {| heap := s.(heap) ++ [t]; dict := s.(dict) |}).

(** The value of an out-of-place expression: a new object. *)
Definition eval (r : result tensor) : M nat := t ← lift r; alloc t.

(** [data[k]] and [data[k] = l] *)
Definition getitem (k : string) : M nat := λ s,
  match s.(dict) !! k with
  | Some l => Ok (l, s)
  | None => Err (KeyError k)
  end.

Definition setitem (k : string) (l : nat) : M unit := λ s,
  Ok ((), {| heap := s.(heap); dict := <[k := l]> s.(dict) |}).

(** [l.requires_grad_(True)]: in place, floats only. *)
Definition requires_grad_ (l : nat) : M unit := λ s,
  match s.(heap) !! l with
  | Some (FloatT _ v) =>
      Ok ((), {| heap := <[l := FloatT true v]> s.(heap); dict := s.(dict) |})
  | _ => Err RuntimeError
  end.

(** ** [sevenn._keys]: the key constants the file reads as [KEY.*] *)

Record keys := {
  CELL : string;
  CELL_SHIFT : string;
  POS : string;
  BATCH : string;
  EDGE_IDX : string;
  EDGE_VEC : string;
  EDGE_LENGTH : string;
  EDGE_EMBEDDING : string;
  EDGE_ATTR : string
}.

(** The constants, and the literal ['_strain'], name different entries. *)
Definition key_list (KEY : keys) : list string :=
  [KEY.(CELL); KEY.(CELL_SHIFT); KEY.(POS); KEY.(BATCH);
   KEY.(EDGE_IDX); KEY.(EDGE_VEC); KEY.(EDGE_LENGTH);
   KEY.(EDGE_EMBEDDING); KEY.(EDGE_ATTR); "_strain"].

Definition keys_distinct (KEY : keys) : Prop := NoDup (key_list KEY).

(** ** [class EdgePreprocess] *)

Module EdgePreprocess.
Local Open Scope R_scope.

Record t := {
  is_stress : bool;
  _is_batch_data : bool
}.

Definition __init__ (is_stress : bool) : t :=
  {| is_stress := is_stress; _is_batch_data := true |}.

(** [0.5 * (strain + strain.transpose(-1, -2))] *)
Definition sym_strain_expr (strain : tensor) : result tensor :=
  st ← t_transpose strain;
  s ← t_add strain st;
  t_scale 0.5 s.

(** [pos + torch.bmm(pos.unsqueeze(-2), sym_strain[batch]).squeeze(-2)] *)
Definition strained_pos_batch (pos sym_strain batch : tensor) : result tensor :=
  u ← t_unsqueeze_m2 pos;
  sb ← t_index sym_strain batch;
  b ← t_bmm u sb;
  q ← t_squeeze_m2 b;
  t_add pos q.

(** [cell + torch.bmm(cell, sym_strain)] *)
Definition strained_cell_batch (cell sym_strain : tensor) : result tensor :=
  b ← t_bmm cell sym_strain;
  t_add cell b.

(** [x + torch.mm(x, sym_strain)], for [pos] and for [cell] *)
Definition strained_single (x sym_strain : tensor) : result tensor :=
  m ← t_mm x sym_strain;
  t_add x m.

(** [pos[idx_dst] - pos[idx_src]] *)
Definition edge_vec_expr (pos idx_dst idx_src : tensor) : result tensor :=
  pd ← t_index pos idx_dst;
  ps ← t_index pos idx_src;
  t_sub pd ps.

(** [edge_vec + torch.einsum('ni,nij->nj', cell_shift, cell[batch[idx_src]])] *)
Definition shifted_batch (edge_vec cell_shift cell batch idx_src : tensor)
    : result tensor :=
  bs ← t_index batch idx_src;
  c ← t_index cell bs;
  e ← einsum_ni_nij cell_shift c;
  t_add edge_vec e.

(** [edge_vec + torch.einsum('ni,ij->nj', cell_shift, cell.squeeze(0))] *)
Definition shifted_single (edge_vec cell_shift cell : tensor) : result tensor :=
  c ← t_squeeze0 cell;
  e ← einsum_ni_ij cell_shift c;
  t_add edge_vec e.

Section forward.
Variable KEY : keys.
Variable self : t.

(** Lines 43-50: the strain variable of a batch. *)
Definition new_strain_batch (pos batch : nat) : M nat :=
  num_batch ← (b ← load batch; m ← lift (max_item b); mret (m + 1)%Z);
  strain ← (p ← load pos; eval (zeros_n33 num_batch p));
  requires_grad_ strain;;
  setitem "_strain" strain;;
  mret strain.

(** Lines 52-57: the strained positions and cells of a batch. *)
Definition strained_batch (strain pos cell batch : nat) : M (nat * nat) :=
  sym_strain ← (s ← load strain; eval (sym_strain_expr s));
  pos ← (p ← load pos; s ← load sym_strain; b ← load batch;
         eval (strained_pos_batch p s b));
  cell ← (c ← load cell; s ← load sym_strain;
          eval (strained_cell_batch c s));
  mret (pos, cell).

(** Lines 59-65: the strain variable of a single graph. *)
Definition new_strain_single (pos : nat) : M nat :=
  strain ← (p ← load pos; alloc (zeros_33 p));
  requires_grad_ strain;;
  setitem "_strain" strain;;
  mret strain.

(** Lines 67-69: the strained positions and cell of a single graph. *)
Definition strained_single_graph (strain pos cell : nat) : M (nat * nat) :=
  sym_strain ← (s ← load strain; eval (sym_strain_expr s));
  pos ← (p ← load pos; s ← load sym_strain; eval (strained_single p s));
  cell ← (c ← load cell; s ← load sym_strain; eval (strained_single c s));
  mret (pos, cell).

(** Lines 71-86: the edge vectors and lengths. *)
Definition edges (pos cell cell_shift batch : nat) : M unit :=
  idx_src ← (e ← getitem KEY.(EDGE_IDX); e ← load e;
             eval (t_index_int 0 e));
  idx_dst ← (e ← getitem KEY.(EDGE_IDX); e ← load e;
             eval (t_index_int 1 e));
  edge_vec ← (p ← load pos; d ← load idx_dst; s ← load idx_src;
              eval (edge_vec_expr p d s));
  edge_vec ←
    (if self.(_is_batch_data) then
       v ← load edge_vec; cs ← load cell_shift; c ← load cell;
       b ← load batch; s ← load idx_src;
       eval (shifted_batch v cs c b s)
     else
       v ← load edge_vec; cs ← load cell_shift; c ← load cell;
       eval (shifted_single v cs c));
  setitem KEY.(EDGE_VEC) edge_vec;;
  edge_length ← (v ← load edge_vec; eval (linalg_norm v));
  setitem KEY.(EDGE_LENGTH) edge_length.

Definition forward : M unit :=
  cell ← (c ← getitem KEY.(CELL); c ← load c;
          if self.(_is_batch_data) then eval (t_view_n33 c)
          else eval (t_view_33 c));
  cell_shift ← getitem KEY.(CELL_SHIFT);
  pos ← getitem KEY.(POS);
  batch ← getitem KEY.(BATCH);
  '(pos, cell) ←
    (if self.(is_stress) then
       if self.(_is_batch_data) then
         strain ← new_strain_batch pos batch;
         strained_batch strain pos cell batch
       else
         strain ← new_strain_single pos;
         strained_single_graph strain pos cell
     else mret (pos, cell));
  edges pos cell cell_shift batch.

End forward.
End EdgePreprocess.

(** ** [class BesselBasis] *)

Module BesselBasis.
Local Open Scope R_scope.

Record t := {
  num_basis : Z;
  prefactor : R;
  coeffs : list R;
  coeffs_requires_grad : bool   (* [coeffs] wrapped in [nn.Parameter] *)
}.

Definition __init__ (num_basis : Z) (cutoff_length : R)
    (trainable_coeff : bool) : result t :=
  if Req_dec_T cutoff_length 0 then Err ZeroDivisionError
  else Ok {|
    num_basis := num_basis;
    prefactor := 2 / cutoff_length;
    coeffs := (λ n : Z, IZR n * PI / cutoff_length)
                <$> py_range 1 (num_basis + 1);
    coeffs_requires_grad := trainable_coeff
  |}.

(** One element [r] of the input: the row of [num_basis] values
    [prefactor * sin(coeffs * ur) / ur]. *)
Definition forward_elem (self : t) (r : R) : list (option R) :=
  (λ c, fdiv (self.(prefactor) * sin (c * r)) r) <$> self.(coeffs).

(** [forward] on a tensor of lengths, shape (n,) to (n,num_basis). *)
Definition forward (self : t) (r : tensor) : result tensor :=
  match r with
  | FloatT g (S1 rs) =>
      rows ← finite (mapM (λ x, mapM (λ o : option R, o) (forward_elem self x)) rs);
      Ok (FloatT (g || self.(coeffs_requires_grad))
            (mk_2d (length self.(coeffs)) rows))
  | _ => Err RuntimeError
  end.

End BesselBasis.

(** ** [class PolynomialCutoff] *)

Module PolynomialCutoff.
Local Open Scope R_scope.

Record t := {
  cutoff_length : R;
  p : Z;
  coeff_p0 : R;
  coeff_p1 : R;
  coeff_p2 : R
}.

Definition __init__ (p : Z) (cutoff_length : R) : result t :=
  Ok {|
    cutoff_length := cutoff_length;
    p := p;
    coeff_p0 := (IZR p + 1) * (IZR p + 2) / 2;
    coeff_p1 := IZR p * (IZR p + 2);
    coeff_p2 := IZR p * (IZR p + 1) / 2
  |}.

Definition forward_elem (self : t) (r : R) : option R :=
  r ← fdiv r self.(cutoff_length);
  a ← tpow r self.(p);
  b ← tpow r (self.(p) + 1);
  c ← tpow r (self.(p) + 2);
  Some (1 - self.(coeff_p0) * a + self.(coeff_p1) * b - self.(coeff_p2) * c).

(** [forward] on a tensor of lengths, shape (n,) to (n,). *)
Definition forward (self : t) (r : tensor) : result tensor :=
  match r with
  | FloatT g (S1 rs) =>
      ys ← finite (mapM (forward_elem self) rs);
      Ok (FloatT g (S1 ys))
  | _ => Err RuntimeError
  end.

End PolynomialCutoff.

(** ** [class XPLORCutoff] *)

Module XPLORCutoff.
Local Open Scope R_scope.

Record t := {
  r_on : R;
  r_cut : R
}.

Definition __init__ (cutoff_on cutoff_length : R) : result t :=
  Ok {| r_on := cutoff_on; r_cut := cutoff_length |}.

(** [torch.where] selects per element, so the quotient is looked at only
    where [r < r_on] fails. *)
Definition forward_elem (self : t) (r : R) : option R :=
  let r_sq := r * r in
  let r_on_sq := self.(r_on) * self.(r_on) in
  let r_cut_sq := self.(r_cut) * self.(r_cut) in
  if Rlt_dec r self.(r_on) then Some 1
  else fdiv ((r_cut_sq - r_sq) ^ 2 * (r_cut_sq + 2 * r_sq - 3 * r_on_sq))
            ((r_cut_sq - r_on_sq) ^ 3).

(** [forward] on a tensor of lengths, shape (n,) to (n,). *)
Definition forward (self : t) (r : tensor) : result tensor :=
  match r with
  | FloatT g (S1 rs) =>
      ys ← finite (mapM (forward_elem self) rs);
      Ok (FloatT g (S1 ys))
  | _ => Err RuntimeError
  end.

End XPLORCutoff.

(** ** [class EdgeEmbedding] *)

Module EdgeEmbedding.

(** The three injected modules, as the functions their [forward] computes. *)
Record t := {
  basis_function : tensor → result tensor;
  cutoff_function : tensor → result tensor;
  spherical : tensor → result tensor
}.

(** [self.basis_function(r) * self.cutoff_function(r).unsqueeze(-1)] *)
Definition embedding_expr (self : t) (r : tensor) : result tensor :=
  b ← self.(basis_function) r;
  c ← self.(cutoff_function) r;
  c ← t_unsqueeze_last c;
  t_mul b c.

Definition forward (KEY : keys) (self : t) : M unit :=
  rvec ← getitem KEY.(EDGE_VEC);
  r ← (v ← getitem KEY.(EDGE_VEC); v ← load v; eval (linalg_norm v));
  setitem KEY.(EDGE_LENGTH) r;;
  embedding ← (r ← load r; eval (embedding_expr self r));
  setitem KEY.(EDGE_EMBEDDING) embedding;;
  attr ← (v ← load rvec; eval (self.(spherical) v));
  setitem KEY.(EDGE_ATTR) attr.

End EdgeEmbedding.

(** ** The functions the specification is stated with *)

Global Instance R_inhabited : Inhabited R := populate 0%R.

(** [l[idx]] for indices in range. *)
Definition gather {A} `{Inhabited A} (l : list A) (idx : list nat) : list A :=
  (λ i, l !!! i) <$> idx.

Section specification.
Local Open Scope R_scope.

(** What a module returns for one length [r]: the entry of its output on the
    tensor [[r]]. *)
Definition value_of (module : tensor → result tensor) (r : R) : R :=
  match module (FloatT false (S1 [r])) with
  | Ok (FloatT _ (S1 [y])) => y
  | _ => 0
  end.

(** The polynomial envelope for [p = S k] as a function on the reals, and its
    first and second derivative. *)
Definition poly_env (k : nat) (rc r : R) : R :=
  1 - (INR (S k) + 1) * (INR (S k) + 2) / 2 * (r / rc) ^ S k
    + INR (S k) * (INR (S k) + 2) * (r / rc) ^ S (S k)
    - INR (S k) * (INR (S k) + 1) / 2 * (r / rc) ^ S (S (S k)).

Definition poly_env' (k : nat) (rc r : R) : R :=
  (- ((INR (S k) + 1) * (INR (S k) + 2) / 2) * (INR (S k) * (r / rc) ^ k)
   + INR (S k) * (INR (S k) + 2) * (INR (S (S k)) * (r / rc) ^ S k)
   - INR (S k) * (INR (S k) + 1) / 2 * (INR (S (S (S k))) * (r / rc) ^ S (S k)))
  / rc.

Definition poly_env'' (k : nat) (rc r : R) : R :=
  (- ((INR (S k) + 1) * (INR (S k) + 2) / 2 * INR (S k)) * (INR k * (r / rc) ^ pred k)
   + INR (S k) * (INR (S k) + 2) * INR (S (S k)) * (INR (S k) * (r / rc) ^ k)
   - INR (S k) * (INR (S k) + 1) / 2 * INR (S (S (S k))) * (INR (S (S k)) * (r / rc) ^ S k))
  / (rc * rc).

(** The quotient branch of the switching window. *)
Definition xplor_quot (r_on r_cut r : R) : R :=
  (r_cut * r_cut - r * r) ^ 2 * (r_cut * r_cut + 2 * (r * r) - 3 * (r_on * r_on))
  / (r_cut * r_cut - r_on * r_on) ^ 3.

(** The edge vectors of the schema: for each edge,
    [pos[dst] - pos[src] + cell_shift . cell[owner]]. *)
Definition edge_vectors (pos : list (vec3 R)) (cells : list (mat3 R))
    (shifts : list (vec3 R)) (owner src dst : list nat) : list (vec3 R) :=
  zip_with vadd (zip_with vsub (gather pos dst) (gather pos src))
                (zip_with vecmat shifts (gather cells owner)).

(** The graph that owns each edge: the graph of its source atom in a batch,
    the only graph otherwise. *)
Definition owners (batch_mode : bool) (batch src : list nat) : list nat :=
  if batch_mode then gather batch src else (λ _, 0%nat) <$> src.

(** The atoms' graphs: [batch] in a batch, the only graph otherwise. *)
Definition atom_owners (batch_mode : bool) (batch : list nat)
    (pos : list (vec3 R)) : list nat :=
  if batch_mode then batch else (λ _, 0%nat) <$> pos.

(** The symmetric part [½(S + Sᵗ)] of a strain. *)
Definition msym (m : mat3 R) : mat3 R := mscale 0.5 (madd m (mtranspose m)).

(** [ε·I] *)
Definition scaled_identity (ε : R) : mat3 R :=
  ((ε, 0, 0), (0, ε, 0), (0, 0, ε)).

(** Positions and cells moved by the symmetric strain of their graph:
    [p + p·E] and [C + C·E]. *)
Definition strained_positions (syms : list (mat3 R)) (owner : list nat)
    (pos : list (vec3 R)) : list (vec3 R) :=
  zip_with (λ p g, vadd p (vecmat p (syms !!! g))) pos owner.

Definition strained_cells (syms cells : list (mat3 R)) : list (mat3 R) :=
  zip_with (λ c e, madd c (matmul c e)) cells syms.

(** The strain tensor of a list of matrices, one per graph. *)
Definition strain_tensor (batch_mode : bool) (ms : list (mat3 R)) : tensor :=
  FloatT true (if batch_mode then S3 ms else S2 (ms ≫= mat_rows)).

(** Each row of the basis scaled by the cutoff of its edge. *)
Definition scale_rows (basis : list (list R)) (cut : list R) : list (list R) :=
  zip_with (λ row c, (λ x, x * c) <$> row) basis cut.

End specification.

(** A data dictionary that follows the schema: positions (n,3), cell shifts
    (e,3), an edge index whose rows are [src] and [dst], and the cells, which
    [view] reads as one 3x3 matrix per graph; in a batch, the graph of each
    atom.  Indices are in range. *)
Record graph_input (KEY : keys) (batch_mode : bool) (s : state)
    (gp gs gc : bool) (pos shifts : list (vec3 R)) (cells : list (mat3 R))
    (batch src dst : list nat) : Prop := {
  gi_cell : ∃ l t,
    s.(dict) !! KEY.(CELL) = Some l ∧ s.(heap) !! l = Some t ∧
    if batch_mode then t_view_n33 t = Ok (FloatT gc (S3 cells))
    else ∃ c, cells = [c] ∧ t_view_33 t = Ok (FloatT gc (S2 (mat_rows c)));
  gi_shift : ∃ l,
    s.(dict) !! KEY.(CELL_SHIFT) = Some l ∧
    s.(heap) !! l = Some (FloatT gs (S2 shifts));
  gi_pos : ∃ l,
    s.(dict) !! KEY.(POS) = Some l ∧ s.(heap) !! l = Some (FloatT gp (S2 pos));
  gi_batch : ∃ l,
    s.(dict) !! KEY.(BATCH) = Some l ∧
    (batch_mode = true →
     s.(heap) !! l = Some (LongT (S1 (Z.of_nat <$> batch))));
  gi_edge : ∃ l t,
    s.(dict) !! KEY.(EDGE_IDX) = Some l ∧ s.(heap) !! l = Some t ∧
    t_index_int 0 t = Ok (LongT (S1 (Z.of_nat <$> src))) ∧
    t_index_int 1 t = Ok (LongT (S1 (Z.of_nat <$> dst)));
  gi_dst : length dst = length src;
  gi_shifts : length shifts = length src;
  gi_src_range : Forall (λ i, i < length pos) src;
  gi_dst_range : Forall (λ i, i < length pos) dst;
  gi_batch_range : batch_mode = true →
    length batch = length pos ∧ Forall (λ g, g < length cells) batch
}.

(** Lines 52-86 of [EdgePreprocess.forward]: the call from the point where
    the strain variable exists. *)
Definition after_strain (KEY : keys) (self : EdgePreprocess.t)
    (strain pos cell cell_shift batch : nat) : M unit :=
  '(pos, cell) ←
    (if self.(EdgePreprocess._is_batch_data) then
       EdgePreprocess.strained_batch strain pos cell batch
     else EdgePreprocess.strained_single_graph strain pos cell);
  EdgePreprocess.edges KEY self pos cell cell_shift batch.

(** The tensor objects of [s] are still there, unchanged, in [s']. *)
Definition preserves (s s' : state) : Prop :=
  length s.(heap) ≤ length s'.(heap) ∧
  ∀ l, l < length s.(heap) → s'.(heap) !! l = s.(heap) !! l.

(** A computation that changes no tensor object it finds and writes at most
    the keys [W]. *)
Definition framed {A} (W : list string) (m : M A) : Prop :=
  ∀ s a s', run m s = Ok (a, s') →
    preserves s s' ∧ ∀ k, k ∉ W → s'.(dict) !! k = s.(dict) !! k.

(** The keys [EdgePreprocess.forward] writes. *)
Definition written (KEY : keys) (self : EdgePreprocess.t) : list string :=
  [KEY.(EDGE_VEC); KEY.(EDGE_LENGTH)]
  ++ (if self.(EdgePreprocess.is_stress) then ["_strain"] else []).

(** What every call of [EdgePreprocess.forward] that returns has stored: the
    length is the norm of the stored edge vector. *)
Definition edges_stored (KEY : keys) (s' : state) : Prop :=
  ∃ lv ll v n,
    s'.(dict) !! KEY.(EDGE_VEC) = Some lv ∧ s'.(heap) !! lv = Some v ∧
    s'.(dict) !! KEY.(EDGE_LENGTH) = Some ll ∧ s'.(heap) !! ll = Some n ∧
    linalg_norm v = Ok n.

(** ** A sample input: two atoms and one bond *)

(** A table of key constants for the examples; the development itself takes
    the table as a parameter. *)
Definition example_keys : keys := {|
  CELL := "cell_lattice_vectors";
  CELL_SHIFT := "pbc_shift";
  POS := "pos";
  BATCH := "batch";
  EDGE_IDX := "edge_index";
  EDGE_VEC := "edge_vec";
  EDGE_LENGTH := "edge_length";
  EDGE_EMBEDDING := "edge_embedding";
  EDGE_ATTR := "edge_attr"
|}.

Section examples.
Local Open Scope R_scope.

Definition example_cell : mat3 R := ((10, 0, 0), (0, 10, 0), (0, 0, 10)).
Definition example_pos : list (vec3 R) := [(0, 0, 0); (1.5, 0, 0)].
Definition example_shifts : list (vec3 R) := [(0, 0, 0)].

(** One graph of two atoms, positions [[0,0,0],[1.5,0,0]], one edge from
    atom 0 to atom 1 with no cell shift. *)
Definition example_data : state := {|
  heap := [FloatT false (S2 (mat_rows example_cell));
           FloatT false (S2 example_shifts);
           FloatT true (S2 example_pos);
           LongT (S1 [0; 0]%Z);
           LongT (SM 1 [[0]; [1]]%Z)];
  dict := list_to_map [("cell_lattice_vectors", 0%nat); ("pbc_shift", 1%nat);
                       ("pos", 2%nat); ("batch", 3%nat); ("edge_index", 4%nat)]
|}.

(** The same data without the batch entry. *)
Definition example_data_no_batch : state := {|
  heap := example_data.(heap);
  dict := delete "batch" example_data.(dict)
|}.

(** Two Bessel functions and the polynomial envelope with [p = 6], both with
    cutoff length [2]. *)
Definition example_bessel : BesselBasis.t := {|
  BesselBasis.num_basis := 2;
  BesselBasis.prefactor := 2 / 2;
  BesselBasis.coeffs := (λ n : Z, IZR n * PI / 2) <$> py_range 1 (2 + 1);
  BesselBasis.coeffs_requires_grad := true
|}.

Definition example_cutoff : PolynomialCutoff.t := {|
  PolynomialCutoff.cutoff_length := 2;
  PolynomialCutoff.p := 6;
  PolynomialCutoff.coeff_p0 := (IZR 6 + 1) * (IZR 6 + 2) / 2;
  PolynomialCutoff.coeff_p1 := IZR 6 * (IZR 6 + 2);
  PolynomialCutoff.coeff_p2 := IZR 6 * (IZR 6 + 1) / 2
|}.

(** A stand-in for the angular encoding, which the embedding only passes
    through: one constant per edge. *)
Definition example_spherical (v : tensor) : result tensor :=
  match v with
  | FloatT _ (S2 rows) => Ok (FloatT false (SM 1 ((λ _, [1]) <$> rows)))
  | _ => Err RuntimeError
  end.

Definition example_embedding : EdgeEmbedding.t := {|
  EdgeEmbedding.basis_function := BesselBasis.forward example_bessel;
  EdgeEmbedding.cutoff_function := PolynomialCutoff.forward example_cutoff;
  EdgeEmbedding.spherical := example_spherical
|}.

(** A dictionary that holds the edge vector of the bond. *)
Definition example_edges : state := {|
  heap := [FloatT true (S2 [(1.5, 0, 0)])];
  dict := {["edge_vec" := 0%nat]}
|}.

End examples.

(** ** Further notions for the properties of the geometry *)

(** The tensor [data[k]], if the key is there. *)
Definition value_at (s : state) (k : string) : option tensor :=
  l ← s.(dict) !! k; s.(heap) !! l.

(** The number of elements of a tensor. *)
Definition numel (t : tensor) : nat :=
  match t with
  | FloatT _ v => length (flat v)
  | LongT v => length (flat v)
  end.

Section geometry_notions.
Local Open Scope R_scope.

Definition vneg (v : vec3 R) : vec3 R :=
  let '(x, y, z) := v in (- x, - y, - z).

(** A matrix whose rows are orthonormal: [Q·Qᵗ = I]. *)
Definition orthogonal (Q : mat3 R) : Prop :=
  matmul Q (mtranspose Q) = scaled_identity 1.

End geometry_notions.

(** An index that names no row of a tensor with [n] rows, from either
    end. *)
Definition out_of_range (n : nat) (i : Z) : Prop :=
  (i < - Z.of_nat n ∨ Z.of_nat n <= i)%Z.

(** ** A family of sample inputs *)

(** A dictionary with the five entries [EdgePreprocess.forward] reads, under
    the keys of the examples. *)
Definition sample_state (cell shifts pos batch edge_index : tensor) : state := {|
  heap := [cell; shifts; pos; batch; edge_index];
  dict := list_to_map [("cell_lattice_vectors", 0%nat); ("pbc_shift", 1%nat);
                       ("pos", 2%nat); ("batch", 3%nat); ("edge_index", 4%nat)]
|}.

(** One graph in a batch: its cell, the cell shifts, the positions of two
    atoms, and the edge index. *)
Definition sample_graph (cell : mat3 R) (shifts pos : list (vec3 R))
    (edge_index : list (list Z)) : state :=
  sample_state (FloatT false (S2 (mat_rows cell))) (FloatT false (S2 shifts))
    (FloatT true (S2 pos)) (LongT (S1 [0; 0]%Z)) (LongT (SM 1 edge_index)).

(** The sample graph at the point where a strain variable [S] exists: the
    cell as [view] has read it and the strain are two more objects. *)
Definition sample_strained (S : mat3 R) : state := {|
  heap := example_data.(heap)
          ++ [FloatT false (S3 [example_cell]); FloatT true (S3 [S])];
  dict := <["_strain" := 6%nat]> example_data.(dict)
|}.

(** The state after a call of [EdgeEmbedding.forward] that returns: three new
    tensor objects, the lengths, the embedding and the angular encoding, under
    their keys. *)
Definition embedded (KEY : keys) (s : state) (r emb attr : tensor) : state :=
  {| heap := s.(heap) ++ [r; emb; attr];
     dict := <[KEY.(EDGE_ATTR) := (length s.(heap) + 2)%nat]>
               (<[KEY.(EDGE_EMBEDDING) := (length s.(heap) + 1)%nat]>
                  (<[KEY.(EDGE_LENGTH) := length s.(heap)]> s.(dict))) |}.

(** * Verification *)

Section scalar_facts.
Local Open Scope R_scope.

Lemma fdiv_Some (a b : R) : b ≠ 0 → fdiv a b = Some (a / b).
Proof. intros Hb. unfold fdiv. destruct (Req_dec_T b 0); [done|done]. Qed.

Lemma tpow_nat (x : R) (n : nat) : tpow x (Z.of_nat n) = Some (x ^ n).
Proof.
  unfold tpow. rewrite <- pow_powerRZ.
  destruct (Req_dec_T x 0); [|done].
  destruct (Z.ltb_spec (Z.of_nat n) 0); [lia|done].
Qed.

Lemma py_range_lookup (lo hi : Z) (i : nat) :
  (Z.of_nat i < hi - lo)%Z → py_range lo hi !! i = Some (lo + Z.of_nat i)%Z.
Proof.
  intros Hi. unfold py_range. rewrite list_lookup_fmap.
  rewrite lookup_seq_lt by lia. done.
Qed.

Lemma py_range_length (lo hi : Z) : length (py_range lo hi) = Z.to_nat (hi - lo).
Proof. unfold py_range. by rewrite length_fmap, length_seq. Qed.

End scalar_facts.

Section module_tensors.
Local Open Scope R_scope.

Lemma mapM_Some_fmap {A B} (f : A → option B) (g : A → B) (l : list A) :
  Forall (λ x, f x = Some (g x)) l → mapM f l = Some (g <$> l).
Proof.
  induction 1 as [|x l Hx _ IH]; [done|].
  cbn. rewrite Hx. cbn. rewrite IH. done.
Qed.

Lemma mapM_id_fmap {A B} (h : A → option B) (g : A → B) (l : list A) :
  (∀ x, h x = Some (g x)) →
  mapM (λ o : option B, o) (h <$> l) = Some (g <$> l).
Proof.
  intros Hh. induction l as [|x l IH]; [done|].
  cbn. rewrite Hh. cbn. rewrite IH. done.
Qed.

(** The rows [BesselBasis.forward] computes for lengths that are not zero. *)
Lemma bessel_forward_tensor (self : BesselBasis.t) (g : bool) (rs : list R) :
  Forall (λ r, r ≠ 0) rs →
  BesselBasis.forward self (FloatT g (S1 rs))
  = Ok (FloatT (g || self.(BesselBasis.coeffs_requires_grad))
          (mk_2d (length self.(BesselBasis.coeffs))
             ((λ r, (λ c, self.(BesselBasis.prefactor) * sin (c * r) / r)
                      <$> self.(BesselBasis.coeffs)) <$> rs))).
Proof.
  intros Hrs. unfold BesselBasis.forward.
  erewrite mapM_Some_fmap; [done|].
  eapply Forall_impl; [exact Hrs|]. intros r Hr. cbn beta.
  unfold BesselBasis.forward_elem. apply mapM_id_fmap.
  intros c. by apply fdiv_Some.
Qed.

End module_tensors.

Section bessel.
Local Open Scope R_scope.
Import BesselBasis.

Lemma bessel_init_inv nb rc tr self :
  __init__ nb rc tr = Ok self →
  rc ≠ 0 ∧ prefactor self = 2 / rc ∧
  coeffs self = (λ n : Z, IZR n * PI / rc) <$> py_range 1 (nb + 1) ∧
  coeffs_requires_grad self = tr.
Proof.
  unfold __init__. destruct (Req_dec_T rc 0); [done|].
  intros [= <-]. done.
Qed.

(** Claim C4.  A [BesselBasis] built with [num_basis] and [cutoff_length]
    holds the coefficients [n·π/cutoff_length], [n = 1..num_basis]; for every
    length [r > 0] and every such [n], output [n] of the expansion is
    [(2/cutoff_length)·sin(n·π·r/cutoff_length)/r]; the row has [num_basis]
    entries, all of them finite; and [forward] on a tensor of positive
    lengths returns the tensor of shape (n,num_basis) of exactly these
    values, one row per length. *)
Theorem bessel_forward_analytic (num_basis : Z) (cutoff_length : R)
    (trainable : bool) (self : t) (r : R) (n : Z) :
  __init__ num_basis cutoff_length trainable = Ok self →
  0 < r → (1 ≤ n ≤ num_basis)%Z →
  coeffs self !! Z.to_nat (n - 1) = Some (IZR n * PI / cutoff_length) ∧
  forward_elem self r !! Z.to_nat (n - 1)
    = Some (Some (2 / cutoff_length * sin (IZR n * PI * r / cutoff_length) / r)) ∧
  length (forward_elem self r) = Z.to_nat num_basis ∧
  Forall is_Some (forward_elem self r) ∧
  (∀ (g : bool) (rs : list R),
     Forall (λ x, 0 < x) rs →
     forward self (FloatT g (S1 rs))
     = Ok (FloatT (g || trainable)
             (mk_2d (Z.to_nat num_basis)
                ((λ x, (λ m : Z, 2 / cutoff_length
                                 * sin (IZR m * PI * x / cutoff_length) / x)
                         <$> py_range 1 (num_basis + 1)) <$> rs)))).
Proof.
  intros Hinit Hr Hn.
  destruct (bessel_init_inv _ _ _ _ Hinit) as (Hrc & Hpre & Hco & _).
  assert (Hc : coeffs self !! Z.to_nat (n - 1) = Some (IZR n * PI / cutoff_length)).
  { rewrite Hco, list_lookup_fmap, py_range_lookup by lia. simpl.
    replace (1 + Z.of_nat (Z.to_nat (n - 1)))%Z with n by lia. done. }
  split; [exact Hc|]. split; [|split; [|split]].
  - unfold forward_elem. rewrite list_lookup_fmap, Hc. simpl.
    rewrite fdiv_Some by lra. rewrite Hpre.
    replace (IZR n * PI / cutoff_length * r) with (IZR n * PI * r / cutoff_length)
      by (field; done).
    done.
  - unfold forward_elem. rewrite length_fmap, Hco, length_fmap, py_range_length.
    f_equal. lia.
  - unfold forward_elem. apply Forall_fmap, Forall_forall. intros c _. simpl.
    rewrite fdiv_Some by lra. done.
  - intros g rs Hrs. rewrite bessel_forward_tensor.
    + destruct (bessel_init_inv _ _ _ _ Hinit) as (_ & _ & _ & ->).
      rewrite Hco, Hpre, length_fmap, py_range_length.
      replace (Z.to_nat (num_basis + 1 - 1)) with (Z.to_nat num_basis) by lia.
      do 3 f_equal. apply list_fmap_ext. intros _ x _.
      rewrite <- list_fmap_compose. apply list_fmap_ext. intros _ m _.
      cbn [compose].
      replace (IZR m * PI / cutoff_length * x)
        with (IZR m * PI * x / cutoff_length) by (field; done).
      done.
    + eapply Forall_impl; [exact Hrs|]. intros x Hx. cbn beta. lra.
Qed.
End bessel.

Section polynomial.
Local Open Scope R_scope.
Import PolynomialCutoff.

Lemma polynomial_forward_nat (k : nat) (rc r : R) self :
  __init__ (Z.of_nat (S k)) rc = Ok self → rc ≠ 0 →
  forward_elem self r = Some (poly_env k rc r).
Proof.
  intros [= <-] Hrc. unfold forward_elem. simpl p. simpl cutoff_length.
  rewrite fdiv_Some by done. simpl.
  replace (Z.pos (Pos.of_succ_nat k)) with (Z.of_nat (S k)) by lia.
  replace (Z.of_nat (S k) + 1)%Z with (Z.of_nat (S (S k))) by lia.
  replace (Z.of_nat (S k) + 2)%Z with (Z.of_nat (S (S (S k)))) by lia.
  rewrite !tpow_nat. simpl mbind. cbn [option_bind mbind].
  unfold poly_env. rewrite <- !INR_IZR_INZ. done.
Qed.

Lemma derivable_scaled_pow (c rc : R) (n : nat) (x : R) :
  rc ≠ 0 →
  derivable_pt_lim (λ r, c * (r / rc) ^ n) x (c * (INR n * (x / rc) ^ pred n) / rc).
Proof.
  intros Hrc.
  assert (H1 : derivable_pt_lim (λ r, r / rc) x (/ rc)).
  { replace (/ rc) with (1 * / rc) by lra.
    eapply derivable_pt_lim_ext with (f := mult_fct id (fct_cte (/ rc))).
    - intros z. unfold mult_fct, id, fct_cte. lra.
    - replace (1 * / rc) with (1 * fct_cte (/ rc) x + id x * 0)
        by (unfold fct_cte; lra).
      apply derivable_pt_lim_mult; [apply derivable_pt_lim_id|apply derivable_pt_lim_const]. }
  assert (H2 := derivable_pt_lim_comp (λ r, r / rc) (λ y, y ^ n) x _ _ H1
                  (derivable_pt_lim_pow (x / rc) n)).
  eapply derivable_pt_lim_ext
    with (f := mult_fct (fct_cte c) (comp (λ y, y ^ n) (λ r, r / rc))).
  - intros z. unfold mult_fct, fct_cte, comp. done.
  - replace (c * (INR n * (x / rc) ^ pred n) / rc)
      with (0 * comp (λ y, y ^ n) (λ r, r / rc) x
            + fct_cte c x * (INR n * (x / rc) ^ pred n * / rc))
      by (unfold fct_cte; field; done).
    apply derivable_pt_lim_mult; [apply derivable_pt_lim_const|exact H2].
Qed.

Lemma poly_env_derive (k : nat) (rc x : R) :
  rc ≠ 0 → derivable_pt_lim (poly_env k rc) x (poly_env' k rc x).
Proof.
  intros Hrc.
  pose proof (derivable_scaled_pow ((INR (S k) + 1) * (INR (S k) + 2) / 2) rc (S k) x Hrc) as D0.
  pose proof (derivable_scaled_pow (INR (S k) * (INR (S k) + 2)) rc (S (S k)) x Hrc) as D1.
  pose proof (derivable_scaled_pow (INR (S k) * (INR (S k) + 1) / 2) rc (S (S (S k))) x Hrc) as D2.
  pose proof (derivable_pt_lim_const 1 x) as Dc.
  pose proof (derivable_pt_lim_minus _ _ _ _ _
                (derivable_pt_lim_plus _ _ _ _ _
                   (derivable_pt_lim_minus _ _ _ _ _ Dc D0) D1) D2) as D.
  eapply derivable_pt_lim_ext in D.
  - replace (poly_env' k rc x) with
      (0 - (INR (S k) + 1) * (INR (S k) + 2) / 2 * (INR (S k) * (x / rc) ^ pred (S k)) / rc
       + INR (S k) * (INR (S k) + 2) * (INR (S (S k)) * (x / rc) ^ pred (S (S k))) / rc
       - INR (S k) * (INR (S k) + 1) / 2 * (INR (S (S (S k))) * (x / rc) ^ pred (S (S (S k)))) / rc).
    + exact D.
    + unfold poly_env'. simpl pred. field. done.
  - intros z. unfold minus_fct, plus_fct, fct_cte, poly_env. done.
Qed.

Lemma poly_env'_derive (k : nat) (rc x : R) :
  rc ≠ 0 → derivable_pt_lim (poly_env' k rc) x (poly_env'' k rc x).
Proof.
  intros Hrc.
  pose proof (derivable_scaled_pow ((INR (S k) + 1) * (INR (S k) + 2) / 2 * INR (S k) / rc) rc k x Hrc) as D0.
  pose proof (derivable_scaled_pow (INR (S k) * (INR (S k) + 2) * INR (S (S k)) / rc) rc (S k) x Hrc) as D1.
  pose proof (derivable_scaled_pow (INR (S k) * (INR (S k) + 1) / 2 * INR (S (S (S k))) / rc) rc (S (S k)) x Hrc) as D2.
  pose proof (derivable_pt_lim_const 0 x) as Dc.
  pose proof (derivable_pt_lim_minus _ _ _ _ _
                (derivable_pt_lim_plus _ _ _ _ _
                   (derivable_pt_lim_minus _ _ _ _ _ Dc D0) D1) D2) as D.
  eapply derivable_pt_lim_ext in D.
  - replace (poly_env'' k rc x) with
      (0 - (INR (S k) + 1) * (INR (S k) + 2) / 2 * INR (S k) / rc * (INR k * (x / rc) ^ pred k) / rc
       + INR (S k) * (INR (S k) + 2) * INR (S (S k)) / rc * (INR (S k) * (x / rc) ^ pred (S k)) / rc
       - INR (S k) * (INR (S k) + 1) / 2 * INR (S (S (S k))) / rc * (INR (S (S k)) * (x / rc) ^ pred (S (S k))) / rc).
    + exact D.
    + unfold poly_env''. simpl pred. field. done.
  - intros z. unfold minus_fct, plus_fct, fct_cte, poly_env'. field. done.
Qed.

Lemma poly_env_0 k rc : rc ≠ 0 → poly_env k rc 0 = 1.
Proof.
  intros Hrc. unfold poly_env. replace (0 / rc) with 0 by (field; done).
  rewrite !pow_i by lia. lra.
Qed.

Lemma poly_env_rc k rc : rc ≠ 0 → poly_env k rc rc = 0.
Proof.
  intros Hrc. unfold poly_env. replace (rc / rc) with 1 by (field; done).
  rewrite !pow1. field.
Qed.

Lemma poly_env'_rc k rc : rc ≠ 0 → poly_env' k rc rc = 0.
Proof.
  intros Hrc. unfold poly_env'. replace (rc / rc) with 1 by (field; done).
  rewrite !pow1, !S_INR. field. done.
Qed.

Lemma poly_env''_rc k rc : rc ≠ 0 → poly_env'' k rc rc = 0.
Proof.
  intros Hrc. unfold poly_env''. replace (rc / rc) with 1 by (field; done).
  rewrite !pow1, !S_INR. field. done.
Qed.

(** [PolynomialCutoff.forward] on a tensor of lengths. *)
Lemma polynomial_forward_tensor (k : nat) (rc : R) (self : PolynomialCutoff.t)
    (g : bool) (rs : list R) :
  PolynomialCutoff.__init__ (Z.of_nat (S k)) rc = Ok self → rc ≠ 0 →
  PolynomialCutoff.forward self (FloatT g (S1 rs))
  = Ok (FloatT g (S1 (poly_env k rc <$> rs))).
Proof.
  intros Hinit Hrc. unfold PolynomialCutoff.forward.
  erewrite mapM_Some_fmap; [done|].
  apply Forall_true. intros r. by apply polynomial_forward_nat.
Qed.

Lemma polynomial_value_of (k : nat) (rc r : R) (self : PolynomialCutoff.t) :
  PolynomialCutoff.__init__ (Z.of_nat (S k)) rc = Ok self → rc ≠ 0 →
  value_of (PolynomialCutoff.forward self) r = poly_env k rc r.
Proof.
  intros Hinit Hrc. unfold value_of.
  by rewrite (polynomial_forward_tensor k rc self false [r] Hinit Hrc).
Qed.

(** Claim C5.  For an integer [p ≥ 1] and a cutoff length [rc > 0] the
    polynomial envelope computes
    [1 − C0·(r/rc)^p + C1·(r/rc)^(p+1) − C2·(r/rc)^(p+2)] with
    [C0 = (p+1)(p+2)/2], [C1 = p(p+2)], [C2 = p(p+1)/2]: [forward] returns
    this value for every entry of a tensor of lengths; as a function of the
    length, what [forward] returns is [1] at [0] and [0] at [rc], and its
    first and second derivatives vanish at [rc]. *)
Theorem polynomial_cutoff_smooth (p : Z) (cutoff_length : R) (self : t) :
  __init__ p cutoff_length = Ok self →
  (1 ≤ p)%Z → 0 < cutoff_length →
  let env := λ r,
    1 - (IZR p + 1) * (IZR p + 2) / 2 * (r / cutoff_length) ^ Z.to_nat p
      + IZR p * (IZR p + 2) * (r / cutoff_length) ^ Z.to_nat (p + 1)
      - IZR p * (IZR p + 1) / 2 * (r / cutoff_length) ^ Z.to_nat (p + 2) in
  let f := value_of (forward self) in
  (∀ r, forward_elem self r = Some (env r)) ∧
  (∀ (g : bool) (rs : list R),
     forward self (FloatT g (S1 rs)) = Ok (FloatT g (S1 (env <$> rs)))) ∧
  (∀ r, f r = env r) ∧
  f 0 = 1 ∧
  f cutoff_length = 0 ∧
  derivable_pt_lim f cutoff_length 0 ∧
  ∃ f' : R → R,
    (∀ x, derivable_pt_lim f x (f' x)) ∧ f' cutoff_length = 0 ∧
    derivable_pt_lim f' cutoff_length 0.
Proof.
  intros Hinit Hp Hrc env f.
  assert (Hne : cutoff_length ≠ 0) by lra.
  destruct (Z.to_nat p) as [|k] eqn:Hk; [lia|].
  assert (Hpk : p = Z.of_nat (S k)) by lia. subst p.
  assert (Hf : ∀ r, forward_elem self r = Some (poly_env k cutoff_length r)).
  { intros r. by apply polynomial_forward_nat. }
  assert (Hff : ∀ r, poly_env k cutoff_length r = f r).
  { intros r. unfold f. by rewrite (polynomial_value_of k cutoff_length). }
  assert (Henv : ∀ r, poly_env k cutoff_length r = env r).
  { intros r. unfold env, poly_env.
    replace (Z.to_nat (Z.of_nat (S k) + 1)) with (S (S k)) by lia.
    replace (Z.to_nat (Z.of_nat (S k) + 2)) with (S (S (S k))) by lia.
    rewrite <- !INR_IZR_INZ. done. }
  split_and!.
  - intros r. by rewrite Hf, Henv.
  - intros g rs. rewrite (polynomial_forward_tensor k cutoff_length) by done.
    do 3 f_equal. apply list_fmap_ext. intros _ r _. apply Henv.
  - intros r. by rewrite <- Hff, Henv.
  - rewrite <- Hff. by apply poly_env_0.
  - rewrite <- Hff. by apply poly_env_rc.
  - eapply derivable_pt_lim_ext; [exact Hff|].
    rewrite <- (poly_env'_rc k cutoff_length Hne). by apply poly_env_derive.
  - exists (poly_env' k cutoff_length). split; [|split].
    + intros x. eapply derivable_pt_lim_ext; [exact Hff|]. by apply poly_env_derive.
    + by apply poly_env'_rc.
    + rewrite <- (poly_env''_rc k cutoff_length Hne). by apply poly_env'_derive.
Qed.

End polynomial.

Section xplor.
Local Open Scope R_scope.
Import XPLORCutoff.

Lemma xplor_denominator (r_on r_cut : R) :
  0 < r_on < r_cut → (r_cut * r_cut - r_on * r_on) ^ 3 ≠ 0.
Proof. intros H. apply pow_nonzero. nra. Qed.

Lemma xplor_forward_below (self : t) (r : R) :
  r < r_on self → forward_elem self r = Some 1.
Proof. intros H. unfold forward_elem. destruct (Rlt_dec r (r_on self)); done. Qed.

Lemma xplor_forward_above (self : t) (r : R) :
  0 < r_on self < r_cut self → r_on self <= r →
  forward_elem self r = Some (xplor_quot (r_on self) (r_cut self) r).
Proof.
  intros H Hr. unfold forward_elem.
  destruct (Rlt_dec r (r_on self)); [lra|].
  rewrite fdiv_Some by by apply xplor_denominator. done.
Qed.

Lemma xplor_quot_on (r_on r_cut : R) :
  0 < r_on < r_cut → xplor_quot r_on r_cut r_on = 1.
Proof.
  intros H. unfold xplor_quot. field.
  assert (r_cut * r_cut - r_on * r_on ≠ 0) by nra. nra.
Qed.

Lemma xplor_quot_continuous (r_on r_cut x : R) :
  continuity_pt (xplor_quot r_on r_cut) x.
Proof.
  apply derivable_continuous_pt. unfold xplor_quot. reg.
Qed.

(** [XPLORCutoff.forward] on a tensor of lengths: for [0 < r_on < r_cut] every
    entry is finite. *)
Lemma xplor_forward_tensor (self : t) (g : bool) (rs : list R) :
  0 < r_on self < r_cut self →
  forward self (FloatT g (S1 rs))
  = Ok (FloatT g (S1 ((λ r, if Rlt_dec r (r_on self) then 1
                            else xplor_quot (r_on self) (r_cut self) r) <$> rs))).
Proof.
  intros H. unfold forward.
  erewrite mapM_Some_fmap; [done|].
  apply Forall_true. intros r. cbn beta.
  destruct (Rlt_dec r (r_on self)) as [Hlt|Hge].
  - by apply xplor_forward_below.
  - apply xplor_forward_above; [done|lra].
Qed.

Lemma xplor_value_of (self : t) (r : R) :
  0 < r_on self < r_cut self →
  value_of (forward self) r
  = if Rlt_dec r (r_on self) then 1
    else xplor_quot (r_on self) (r_cut self) r.
Proof.
  intros H. unfold value_of.
  by rewrite (xplor_forward_tensor self false [r] H).
Qed.

(** Claim C6.  For [0 < cutoff_on < cutoff_length] the switching window is
    [1] for every [r < cutoff_on], is
    [(rc²−r²)²·(rc²+2r²−3·r_on²)/(rc²−r_on²)³] for every [r] between
    [cutoff_on] and [cutoff_length], and is [0] at [cutoff_length]: [forward]
    returns these values for every entry of a tensor of lengths up to
    [cutoff_length], and [0] for [cutoff_length] itself. *)
Theorem xplor_cutoff_values (cutoff_on cutoff_length : R) (self : t) :
  __init__ cutoff_on cutoff_length = Ok self →
  0 < cutoff_on < cutoff_length →
  let window := λ r,
    if Rlt_dec r cutoff_on then 1
    else (cutoff_length * cutoff_length - r * r) ^ 2
         * (cutoff_length * cutoff_length + 2 * (r * r)
            - 3 * (cutoff_on * cutoff_on))
         / (cutoff_length * cutoff_length - cutoff_on * cutoff_on) ^ 3 in
  (∀ r, r < cutoff_on → forward_elem self r = Some 1) ∧
  (∀ r, cutoff_on <= r <= cutoff_length →
     forward_elem self r =
       Some ((cutoff_length * cutoff_length - r * r) ^ 2
             * (cutoff_length * cutoff_length + 2 * (r * r)
                - 3 * (cutoff_on * cutoff_on))
             / (cutoff_length * cutoff_length - cutoff_on * cutoff_on) ^ 3)) ∧
  forward_elem self cutoff_length = Some 0 ∧
  (∀ (g : bool) (rs : list R),
     Forall (λ r, r <= cutoff_length) rs →
     forward self (FloatT g (S1 rs)) = Ok (FloatT g (S1 (window <$> rs)))) ∧
  (∀ g : bool,
     forward self (FloatT g (S1 [cutoff_length])) = Ok (FloatT g (S1 [0]))) ∧
  (∀ (g : bool) (r : R), r < cutoff_on →
     forward self (FloatT g (S1 [r])) = Ok (FloatT g (S1 [1]))).
Proof.
  intros [= <-] H window.
  assert (Hrc : xplor_quot cutoff_on cutoff_length cutoff_length = 0).
  { unfold xplor_quot. field.
    assert (cutoff_length * cutoff_length - cutoff_on * cutoff_on ≠ 0) by nra.
    nra. }
  split_and!.
  - intros r Hr. by apply xplor_forward_below.
  - intros r Hr. rewrite xplor_forward_above; simpl; [done|done|lra].
  - rewrite xplor_forward_above; simpl; [|done|lra]. by f_equal.
  - intros g rs _. by rewrite xplor_forward_tensor.
  - intros g. rewrite xplor_forward_tensor by done. cbn.
    destruct (Rlt_dec cutoff_length cutoff_on); [lra|]. by rewrite Hrc.
  - intros g r Hr. rewrite xplor_forward_tensor by done. cbn.
    destruct (Rlt_dec r cutoff_on); [done|lra].
Qed.

(** Claim C9.  For [0 < cutoff_on < cutoff_length] the quotient branch of the
    switching window evaluates to [1] at [r = cutoff_on], so [forward]
    returns [1] for the length [cutoff_on], and what [forward] returns, as a
    function of the length, is continuous at [cutoff_on]. *)
Theorem xplor_cutoff_continuous_at_on (cutoff_on cutoff_length : R) (self : t) :
  __init__ cutoff_on cutoff_length = Ok self →
  0 < cutoff_on < cutoff_length →
  fdiv ((cutoff_length * cutoff_length - cutoff_on * cutoff_on) ^ 2
        * (cutoff_length * cutoff_length + 2 * (cutoff_on * cutoff_on)
           - 3 * (cutoff_on * cutoff_on)))
       ((cutoff_length * cutoff_length - cutoff_on * cutoff_on) ^ 3) = Some 1 ∧
  forward_elem self cutoff_on = Some 1 ∧
  (∀ g : bool,
     forward self (FloatT g (S1 [cutoff_on])) = Ok (FloatT g (S1 [1]))) ∧
  value_of (forward self) cutoff_on = 1 ∧
  continuity_pt (value_of (forward self)) cutoff_on.
Proof.
  intros [= <-] H.
  pose proof (xplor_quot_on _ _ H) as Hon.
  set (self := {| r_on := cutoff_on; r_cut := cutoff_length |}).
  assert (Hat : value_of (forward self) cutoff_on = 1).
  { rewrite xplor_value_of by done. cbn.
    destruct (Rlt_dec cutoff_on cutoff_on); [lra|done]. }
  split_and!.
  - rewrite fdiv_Some by by apply xplor_denominator.
    f_equal. exact Hon.
  - rewrite xplor_forward_above; simpl; [|done|lra]. by f_equal.
  - intros g. rewrite xplor_forward_tensor by done. cbn.
    destruct (Rlt_dec cutoff_on cutoff_on); [lra|]. by rewrite Hon.
  - exact Hat.
  - intros eps Heps.
    destruct (xplor_quot_continuous cutoff_on cutoff_length cutoff_on eps Heps)
      as (alp & Halp & Hg).
    exists alp. split; [exact Halp|].
    intros x Hx. rewrite Hat.
    rewrite xplor_value_of by done. cbn [r_on r_cut self].
    destruct (Rlt_dec x cutoff_on) as [Hlt|Hge].
    + cbn [dist R_met]. unfold Rdist. rewrite Rminus_diag, Rabs_R0.
      exact Heps.
    + rewrite <- Hon. by apply Hg.
Qed.
End xplor.

Section config.
Local Open Scope R_scope.

Lemma py_range_empty lo hi : (hi ≤ lo)%Z → py_range lo hi = [].
Proof. intros H. unfold py_range. replace (Z.to_nat (hi - lo)) with 0%nat by lia. done. Qed.

(** Claim C8, as the code has it.  The constructors validate nothing: the
    switching window accepts every pair of radii, the radial basis accepts
    every [num_basis] (with no coefficients when [num_basis ≤ 0]); the only
    exception is the [ZeroDivisionError] of [2.0 / cutoff_length] for a zero
    cutoff length. *)
Theorem constructors_do_not_validate :
  (∀ cutoff_on cutoff_length : R,
     XPLORCutoff.__init__ cutoff_on cutoff_length
     = Ok {| XPLORCutoff.r_on := cutoff_on; XPLORCutoff.r_cut := cutoff_length |}) ∧
  (∀ (num_basis : Z) (cutoff_length : R) (trainable : bool),
     (num_basis ≤ 0)%Z → cutoff_length ≠ 0 →
     BesselBasis.__init__ num_basis cutoff_length trainable
     = Ok {| BesselBasis.num_basis := num_basis;
             BesselBasis.prefactor := 2 / cutoff_length;
             BesselBasis.coeffs := [];
             BesselBasis.coeffs_requires_grad := trainable |}) ∧
  (∀ (num_basis : Z) (trainable : bool),
     BesselBasis.__init__ num_basis 0 trainable = Err ZeroDivisionError).
Proof.
  split; [done|split].
  - intros nb rc tr Hnb Hrc. unfold BesselBasis.__init__.
    destruct (Req_dec_T rc 0); [done|].
    rewrite py_range_empty by lia. done.
  - intros nb tr. unfold BesselBasis.__init__.
    destruct (Req_dec_T 0 0); done.
Qed.

End config.

Section list_facts.
Context {A : Type} `{Inhabited A}.

Lemma py_index_nat (l : list A) (i : nat) :
  i < length l → py_index l (Z.of_nat i) = Ok (l !!! i).
Proof.
  intros Hi. unfold py_index.
  destruct (Z.ltb_spec (Z.of_nat i) 0) as [?|_]; [lia|].
  destruct (Z.leb_spec 0 (Z.of_nat i)); [|lia].
  destruct (Z.ltb_spec (Z.of_nat i) (Z.of_nat (length l))); [|lia].
  simpl. rewrite Nat2Z.id.
  by rewrite (list_lookup_lookup_total_lt l i Hi).
Qed.

Lemma index_select_nat (l : list A) (idx : list nat) :
  Forall (λ i, i < length l) idx →
  index_select l (Z.of_nat <$> idx) = Ok (gather l idx).
Proof.
  induction 1 as [|i idx Hi _ IH]; [done|].
  rewrite fmap_cons. cbn [index_select].
  rewrite py_index_nat, IH by done. done.
Qed.

Lemma gather_length (l : list A) idx : length (gather l idx) = length idx.
Proof. apply length_fmap. Qed.

Lemma gather_lookup (l : list A) idx e i :
  idx !! e = Some i → i < length l → gather l idx !! e = l !! i.
Proof.
  intros He Hi. unfold gather. rewrite list_lookup_fmap, He. simpl.
  by rewrite (list_lookup_lookup_total_lt l i Hi).
Qed.

Lemma bzip_same {B C} (f : A → B → C) (l : list A) (k : list B) :
  length l = length k → bzip f l k = Ok (zip_with f l k).
Proof. intros E. unfold bzip. by rewrite decide_True. Qed.

Lemma zip_same_same {B C} (f : A → B → C) (l : list A) (k : list B) :
  length l = length k → zip_same f l k = Ok (zip_with f l k).
Proof. intros E. unfold zip_same. by rewrite decide_True. Qed.

End list_facts.

Lemma gather_fmap_Z (l : list nat) (idx : list nat) :
  Forall (λ i, i < length l) idx →
  gather (Z.of_nat <$> l) idx = Z.of_nat <$> gather l idx.
Proof.
  induction 1 as [|i idx Hi _ IH]; [done|].
  unfold gather in *. rewrite !fmap_cons. f_equal; [|exact IH].
  by apply list_lookup_total_fmap.
Qed.

Lemma gather_in_range (l : list nat) (idx : list nat) (n : nat) :
  Forall (λ i, i < length l) idx → Forall (λ g, g < n) l →
  Forall (λ g, g < n) (gather l idx).
Proof.
  intros Hi Hl. unfold gather. apply Forall_fmap.
  eapply Forall_impl; [exact Hi|]. intros i Hlt. simpl.
  rewrite Forall_lookup in Hl. apply (Hl i).
  by apply list_lookup_lookup_total_lt.
Qed.

(** ** Running the monad *)

Section run_facts.
Context {A B : Type}.

Lemma run_bind (m : M A) (f : A → M B) s :
  run (m ≫= f) s
  = match run m s with Ok (a, s') => run (f a) s' | Err e => Err e end.
Proof. done. Qed.

Lemma run_bind_Ok (m : M A) (f : A → M B) s a s' :
  run m s = Ok (a, s') → run (m ≫= f) s = run (f a) s'.
Proof. intros E. by rewrite run_bind, E. Qed.

Lemma run_bind_inv (m : M A) (f : A → M B) s r :
  run (m ≫= f) s = Ok r →
  ∃ a s1, run m s = Ok (a, s1) ∧ run (f a) s1 = Ok r.
Proof.
  rewrite run_bind. destruct (run m s) as [[a s1]|e]; [|done]. eauto.
Qed.

End run_facts.

Lemma run_getitem k l s :
  s.(dict) !! k = Some l → run (getitem k) s = Ok (l, s).
Proof. intros E. unfold run, getitem. by rewrite E. Qed.

Lemma run_load l t s :
  s.(heap) !! l = Some t → run (load l) s = Ok (t, s).
Proof. intros E. unfold run, load. by rewrite E. Qed.

Lemma run_eval r t s :
  r = Ok t →
  run (eval r) s
  = Ok (length s.(heap), {| heap := s.(heap) ++ [t]; dict := s.(dict) |}).
Proof. intros ->. done. Qed.

Lemma lookup_heap_old (h new : list tensor) l t :
  h !! l = Some t → (h ++ new) !! l = Some t.
Proof. apply lookup_app_l_Some. Qed.

Lemma lookup_heap_new (h new : list tensor) i :
  (h ++ new) !! (length h + i) = new !! i.
Proof. rewrite lookup_app_r by lia. f_equal. lia. Qed.

Lemma lookup_heap_new0 (h new : list tensor) :
  (h ++ new) !! (length h) = new !! 0.
Proof. rewrite <- (lookup_heap_new h new 0). f_equal. lia. Qed.

Section expr_facts.
Import EdgePreprocess.
Local Open Scope R_scope.

Lemma t_index_float_S2 g (rows : list (vec3 R)) (idx : list nat) :
  Forall (λ i, (i < length rows)%nat) idx →
  t_index (FloatT g (S2 rows)) (LongT (S1 (Z.of_nat <$> idx)))
  = Ok (FloatT g (S2 (gather rows idx))).
Proof.
  intros Hi. unfold t_index, lift_shape, index_rows.
  by rewrite index_select_nat.
Qed.

Lemma t_index_float_S3 g (mats : list (mat3 R)) (idx : list nat) :
  Forall (λ i, (i < length mats)%nat) idx →
  t_index (FloatT g (S3 mats)) (LongT (S1 (Z.of_nat <$> idx)))
  = Ok (FloatT g (S3 (gather mats idx))).
Proof.
  intros Hi. unfold t_index, lift_shape, index_rows.
  by rewrite index_select_nat.
Qed.

Lemma t_index_long_S1 (l : list nat) (idx : list nat) :
  Forall (λ i, (i < length l)%nat) idx →
  t_index (LongT (S1 (Z.of_nat <$> l))) (LongT (S1 (Z.of_nat <$> idx)))
  = Ok (LongT (S1 (Z.of_nat <$> gather l idx))).
Proof.
  intros Hi. unfold t_index, lift_shape, index_rows.
  rewrite index_select_nat by by rewrite length_fmap.
  by rewrite gather_fmap_Z.
Qed.

Lemma edge_vec_expr_value g (pos : list (vec3 R)) (src dst : list nat) :
  length dst = length src →
  Forall (λ i, (i < length pos)%nat) src →
  Forall (λ i, (i < length pos)%nat) dst →
  edge_vec_expr (FloatT g (S2 pos)) (LongT (S1 (Z.of_nat <$> dst)))
                (LongT (S1 (Z.of_nat <$> src)))
  = Ok (FloatT (g || g) (S2 (zip_with vsub (gather pos dst) (gather pos src)))).
Proof.
  intros Hl Hs Hd. unfold edge_vec_expr.
  rewrite !t_index_float_S2 by done. cbn [mbind result_bind].
  unfold t_sub. rewrite bzip_same by by rewrite !gather_length. done.
Qed.

Lemma shifted_batch_value g gs gc (ev shifts : list (vec3 R))
    (cells : list (mat3 R)) (batch src : list nat) :
  length ev = length src → length shifts = length src →
  Forall (λ i, (i < length batch)%nat) src →
  Forall (λ b, (b < length cells)%nat) batch →
  shifted_batch (FloatT g (S2 ev)) (FloatT gs (S2 shifts)) (FloatT gc (S3 cells))
                (LongT (S1 (Z.of_nat <$> batch))) (LongT (S1 (Z.of_nat <$> src)))
  = Ok (FloatT (g || (gs || gc))
          (S2 (zip_with vadd ev
                 (zip_with vecmat shifts (gather cells (gather batch src)))))).
Proof.
  intros Hle Hls Hs Hb. unfold shifted_batch.
  rewrite t_index_long_S1 by done. cbn [mbind result_bind].
  rewrite t_index_float_S3 by by apply gather_in_range. cbn [mbind result_bind].
  unfold einsum_ni_nij. rewrite bzip_same by by rewrite !gather_length.
  cbn [fmap result_fmap mbind result_bind]. unfold t_add.
  rewrite bzip_same; [done|].
  rewrite length_zip_with, !gather_length. lia.
Qed.

Lemma shifted_single_value g gs gc (ev shifts : list (vec3 R)) (c : mat3 R) :
  length ev = length shifts →
  shifted_single (FloatT g (S2 ev)) (FloatT gs (S2 shifts))
                 (FloatT gc (S2 (mat_rows c)))
  = Ok (FloatT (g || (gs || gc))
          (S2 (zip_with vadd ev ((λ r, vecmat r c) <$> shifts)))).
Proof.
  intros E.
  unfold shifted_single. destruct c as [[r0 r1] r2].
  cbn [t_squeeze0 lift_shape squeeze0 mat_rows fmap result_fmap mbind result_bind
       einsum_ni_ij as_mat3].
  unfold t_add. rewrite bzip_same by by rewrite length_fmap. done.
Qed.

End expr_facts.

Section run_steps.
Context {B : Type}.

Lemma run_bind_assoc {A A'} (m : M A) (g : A → M A') (f : A' → M B) s :
  run ((m ≫= g) ≫= f) s = run (m ≫= (λ a, g a ≫= f)) s.
Proof. rewrite !run_bind. destruct (run m s) as [[a s1]|e]; done. Qed.

Lemma run_bind_ret {A} (a : A) (f : A → M B) s :
  run (mret a ≫= f) s = run (f a) s.
Proof. done. Qed.

Lemma run_bind_getitem k l (f : nat → M B) s :
  s.(dict) !! k = Some l → run (getitem k ≫= f) s = run (f l) s.
Proof. intros E. by rewrite (run_bind_Ok _ _ _ _ _ (run_getitem _ _ _ E)). Qed.

Lemma run_bind_load l t (f : tensor → M B) s :
  s.(heap) !! l = Some t → run (load l ≫= f) s = run (f t) s.
Proof. intros E. by rewrite (run_bind_Ok _ _ _ _ _ (run_load _ _ _ E)). Qed.

Lemma run_bind_eval r t (f : nat → M B) s :
  r = Ok t →
  run (eval r ≫= f) s
  = run (f (length s.(heap))) {| heap := s.(heap) ++ [t]; dict := s.(dict) |}.
Proof. intros E. by rewrite (run_bind_Ok _ _ _ _ _ (run_eval _ _ _ E)). Qed.

Lemma run_bind_setitem k l (f : () → M B) s :
  run (setitem k l ≫= f) s
  = run (f ()) {| heap := s.(heap); dict := <[k := l]> s.(dict) |}.
Proof. done. Qed.

End run_steps.

Ltac heap_lookup :=
  cbn [heap dict];
  first [ eassumption
        | apply lookup_heap_old; eassumption
        | rewrite lookup_heap_new; reflexivity
        | rewrite lookup_heap_new0; reflexivity ].

Ltac norm_state :=
  cbn [heap dict];
  repeat (rewrite <- app_assoc; cbn [app]);
  repeat (rewrite length_app; cbn [length]).

Ltac mstep :=
  first
    [ rewrite run_bind_assoc
    | rewrite run_bind_ret
    | erewrite run_bind_getitem; [|cbn [heap dict]; eassumption]
    | erewrite run_bind_load; [|heap_lookup]
    | rewrite run_bind_setitem ];
  norm_state.

Section edges.
Import EdgePreprocess.
Variable KEY : keys.

Lemma edge_vectors_single pos c shifts batch src dst :
  length shifts = length src →
  zip_with vadd (zip_with vsub (gather pos dst) (gather pos src))
                ((λ r, vecmat r c) <$> shifts)
  = edge_vectors pos [c] shifts (owners false batch src) src dst.
Proof.
  intros Hl. unfold edge_vectors, owners. f_equal.
  revert src Hl. induction shifts as [|sh shifts IH]; intros [|i src] Hl;
    simplify_eq/=; [done|].
  f_equal. by apply IH.
Qed.

Lemma run_edges (self : t) s lp lc ls lb le te gp gs gc
    (pos shifts : list (vec3 R)) (cells : list (mat3 R))
    (batch src dst : list nat) :
  s.(heap) !! lp = Some (FloatT gp (S2 pos)) →
  s.(heap) !! ls = Some (FloatT gs (S2 shifts)) →
  s.(dict) !! KEY.(EDGE_IDX) = Some le →
  s.(heap) !! le = Some te →
  t_index_int 0 te = Ok (LongT (S1 (Z.of_nat <$> src))) →
  t_index_int 1 te = Ok (LongT (S1 (Z.of_nat <$> dst))) →
  length dst = length src → length shifts = length src →
  Forall (λ i, i < length pos) src →
  Forall (λ i, i < length pos) dst →
  (if self.(_is_batch_data) then
     s.(heap) !! lc = Some (FloatT gc (S3 cells)) ∧
     s.(heap) !! lb = Some (LongT (S1 (Z.of_nat <$> batch))) ∧
     Forall (λ i, i < length batch) src ∧
     Forall (λ g, g < length cells) batch
   else ∃ c, cells = [c] ∧ s.(heap) !! lc = Some (FloatT gc (S2 (mat_rows c)))) →
  let ev := edge_vectors pos cells shifts
              (owners self.(_is_batch_data) batch src) src dst in
  let g := (gp || gp) || (gs || gc) in
  run (edges KEY self lp lc ls lb) s
  = Ok ((), {| heap := s.(heap) ++
                 [LongT (S1 (Z.of_nat <$> src)); LongT (S1 (Z.of_nat <$> dst));
                  FloatT (gp || gp)
                    (S2 (zip_with vsub (gather pos dst) (gather pos src)));
                  FloatT g (S2 ev); FloatT g (S1 (norm3 <$> ev))];
               dict := <[KEY.(EDGE_LENGTH) := length s.(heap) + 4]>
                         (<[KEY.(EDGE_VEC) := length s.(heap) + 3]> s.(dict)) |}).
Proof.
  intros Hp Hs He Hte Hsrc Hdst Hld Hls Hfs Hfd Hmode ev g.
  unfold edges.
  repeat mstep. erewrite run_bind_eval by exact Hsrc. norm_state.
  repeat mstep. erewrite run_bind_eval by exact Hdst. norm_state.
  repeat mstep.
  erewrite run_bind_eval by (by apply edge_vec_expr_value). norm_state.
  destruct (_is_batch_data self) eqn:Hb.
  - destruct Hmode as (Hc & Hbt & Hfb & Hfc).
    repeat mstep.
    erewrite run_bind_eval; [|apply shifted_batch_value; try done].
    2: { rewrite length_zip_with, !gather_length. lia. }
    norm_state. repeat mstep.
    erewrite run_bind_eval; [|reflexivity]. norm_state.
    unfold run, setitem; norm_state.
    replace (length (heap s) + 1 + 1 + 1)%nat with (length (heap s) + 3)%nat by lia.
    done.
  - destruct Hmode as (c & -> & Hc).
    repeat mstep.
    erewrite run_bind_eval; [|apply shifted_single_value].
    2: { rewrite length_zip_with, !gather_length. lia. }
    norm_state. repeat mstep.
    erewrite run_bind_eval; [|reflexivity]. norm_state.
    unfold run, setitem; norm_state.
    subst ev. rewrite <- (edge_vectors_single pos c shifts batch src dst Hls).
    done.
Qed.

End edges.

Section edge_vector_facts.

Lemma edge_vectors_length pos cells shifts owner src dst :
  length dst = length src → length shifts = length src →
  length owner = length src →
  length (edge_vectors pos cells shifts owner src dst) = length src.
Proof.
  intros H1 H2 H3. unfold edge_vectors.
  rewrite !length_zip_with, !gather_length. lia.
Qed.

Lemma owners_length b batch src : length (owners b batch src) = length src.
Proof. destruct b; simpl; [apply gather_length|apply length_fmap]. Qed.

Lemma edge_vectors_lookup pos cells shifts owner src dst e i j g sh :
  src !! e = Some i → dst !! e = Some j → shifts !! e = Some sh →
  owner !! e = Some g →
  i < length pos → j < length pos → g < length cells →
  ∃ pi pj c,
    pos !! i = Some pi ∧ pos !! j = Some pj ∧ cells !! g = Some c ∧
    edge_vectors pos cells shifts owner src dst !! e
    = Some (vadd (vsub pj pi) (vecmat sh c)).
Proof.
  intros Hi Hj Hsh Hg Hil Hjl Hgl.
  destruct (lookup_lt_is_Some_2 pos i Hil) as [pi Hpi].
  destruct (lookup_lt_is_Some_2 pos j Hjl) as [pj Hpj].
  destruct (lookup_lt_is_Some_2 cells g Hgl) as [c Hc].
  exists pi, pj, c. split_and!; [done..|].
  unfold edge_vectors. rewrite !lookup_zip_with.
  rewrite (gather_lookup pos dst e j Hj Hjl), Hpj.
  rewrite (gather_lookup pos src e i Hi Hil), Hpi.
  rewrite Hsh, (gather_lookup cells owner e g Hg Hgl), Hc. done.
Qed.

Lemma edge_vectors_per_edge (batch_mode : bool) pos cells shifts
    (batch src dst : list nat) :
  Forall (λ i, i < length pos) src →
  Forall (λ i, i < length pos) dst →
  (if batch_mode then
     length batch = length pos ∧ Forall (λ g, g < length cells) batch
   else length cells = 1) →
  ∀ e i j sh,
    src !! e = Some i → dst !! e = Some j → shifts !! e = Some sh →
    ∃ pi pj g c,
      pos !! i = Some pi ∧ pos !! j = Some pj ∧
      (if batch_mode then batch !! i = Some g else g = 0) ∧
      cells !! g = Some c ∧
      edge_vectors pos cells shifts (owners batch_mode batch src) src dst !! e
      = Some (vadd (vsub pj pi) (vecmat sh c)).
Proof.
  intros Hfs Hfd Hm e i j sh Hi Hj Hsh.
  assert (Hil : i < length pos) by (rewrite Forall_lookup in Hfs; eauto).
  assert (Hjl : j < length pos) by (rewrite Forall_lookup in Hfd; eauto).
  assert (∃ g, owners batch_mode batch src !! e = Some g ∧
               (if batch_mode then batch !! i = Some g else g = 0) ∧
               g < length cells) as (g & Hog & Hg' & Hgl).
  { destruct batch_mode; simpl.
    - destruct Hm as [Hlb Hfb].
      assert (Hib : i < length batch) by lia.
      destruct (lookup_lt_is_Some_2 batch i Hib) as [g Hbg].
      exists g. split_and!; [|done|].
      + by rewrite (gather_lookup batch src e i Hi Hib).
      + rewrite Forall_lookup in Hfb; eauto.
    - exists 0. rewrite list_lookup_fmap, Hi. split_and!; [done..|lia]. }
  destruct (edge_vectors_lookup pos cells shifts _ src dst e i j g sh
              Hi Hj Hsh Hog Hil Hjl Hgl) as (pi & pj & c & ? & ? & ? & ?).
  by exists pi, pj, g, c.
Qed.

End edge_vector_facts.

Section no_stress.
Import EdgePreprocess.
Variable KEY : keys.
Hypothesis Hkeys : keys_distinct KEY.

Lemma key_ne (i j : nat) (a b : string) :
  key_list KEY !! i = Some a → key_list KEY !! j = Some b → i ≠ j → a ≠ b.
Proof.
  intros Ha Hb Hij ->. apply Hij.
  by apply (NoDup_lookup (key_list KEY) i j b Hkeys).
Qed.

Lemma run_forward_no_stress (batch_mode : bool) s gp gs gc pos shifts cells
    batch src dst :
  graph_input KEY batch_mode s gp gs gc pos shifts cells batch src dst →
  let ev := edge_vectors pos cells shifts (owners batch_mode batch src) src dst in
  let g := (gp || gp) || (gs || gc) in
  ∃ cellv,
    run (forward KEY {| is_stress := false; _is_batch_data := batch_mode |}) s
    = Ok ((), {| heap := s.(heap) ++
                   [cellv;
                    LongT (S1 (Z.of_nat <$> src)); LongT (S1 (Z.of_nat <$> dst));
                    FloatT (gp || gp)
                      (S2 (zip_with vsub (gather pos dst) (gather pos src)));
                    FloatT g (S2 ev); FloatT g (S1 (norm3 <$> ev))];
                 dict := <[KEY.(EDGE_LENGTH) := length s.(heap) + 5]>
                           (<[KEY.(EDGE_VEC) := length s.(heap) + 4]> s.(dict)) |}).
Proof.
  intros [(lc & tc & Hdc & Hhc & Hview) (ls & Hds & Hhs) (lp & Hdp & Hhp)
          (lb & Hdb & Hhb) (le & te & Hde & Hhe & Hsrc & Hdst)
          Hld Hls Hfs Hfd Hbr] ev g.
  unfold forward. cbn [is_stress _is_batch_data].
  destruct batch_mode.
  - destruct (Hbr eq_refl) as [Hlb Hfb]. specialize (Hhb eq_refl).
    eexists. repeat mstep.
    erewrite run_bind_eval by exact Hview. norm_state. repeat mstep.
    erewrite (run_edges KEY _ _ lp (length (heap s)) ls lb le te gp gs gc
                pos shifts cells batch src dst);
      cbn [heap dict _is_batch_data]; try done; try heap_lookup.
    + norm_state.
      replace (length (heap s) + 1 + 4) with (length (heap s) + 5) by lia.
      replace (length (heap s) + 1 + 3) with (length (heap s) + 4) by lia.
      done.
    + split_and!; [heap_lookup|heap_lookup|by rewrite Hlb|done].
  - destruct Hview as (c & -> & Hview).
    eexists. repeat mstep.
    erewrite run_bind_eval by exact Hview. norm_state. repeat mstep.
    erewrite (run_edges KEY _ _ lp (length (heap s)) ls lb le te gp gs gc
                pos shifts [c] batch src dst);
      cbn [heap dict _is_batch_data]; try done; try heap_lookup.
    + norm_state.
      replace (length (heap s) + 1 + 4) with (length (heap s) + 5) by lia.
      replace (length (heap s) + 1 + 3) with (length (heap s) + 4) by lia.
      done.
    + exists c. split; [done|heap_lookup].
Qed.

End no_stress.

Section no_stress_claim.
Import EdgePreprocess.

(** Claim C2.  With stress off, on data that follows the schema, the call
    returns; it stores under [EDGE_VEC], for every edge,
    [pos[dst] − pos[src] + cell_shift · cell[g]], where [g] is the graph of
    the source atom in a batch and the only graph otherwise, and under
    [EDGE_LENGTH] the Euclidean norms of these vectors; the ['_strain'] entry
    of the dictionary is what it was. *)
Theorem preprocess_without_stress (KEY : keys) (batch_mode : bool) (s : state)
    (gp gs gc : bool) (pos shifts : list (vec3 R)) (cells : list (mat3 R))
    (batch src dst : list nat) :
  keys_distinct KEY →
  graph_input KEY batch_mode s gp gs gc pos shifts cells batch src dst →
  ∃ s' lv ll ev,
    run (forward KEY {| is_stress := false; _is_batch_data := batch_mode |}) s
    = Ok ((), s') ∧
    s'.(dict) !! KEY.(EDGE_VEC) = Some lv ∧
    s'.(heap) !! lv = Some (FloatT (gp || gs || gc) (S2 ev)) ∧
    s'.(dict) !! KEY.(EDGE_LENGTH) = Some ll ∧
    s'.(heap) !! ll = Some (FloatT (gp || gs || gc) (S1 (norm3 <$> ev))) ∧
    length ev = length src ∧
    (∀ e i j sh,
       src !! e = Some i → dst !! e = Some j → shifts !! e = Some sh →
       ∃ pi pj g c,
         pos !! i = Some pi ∧ pos !! j = Some pj ∧
         (if batch_mode then batch !! i = Some g else g = 0) ∧
         cells !! g = Some c ∧
         ev !! e = Some (vadd (vsub pj pi) (vecmat sh c))) ∧
    s'.(dict) !! "_strain" = s.(dict) !! "_strain".
Proof.
  intros Hkeys Hin.
  destruct (run_forward_no_stress KEY batch_mode s gp gs gc pos shifts cells
              batch src dst Hin) as [cellv Hrun].
  eexists _, (length (heap s) + 4), (length (heap s) + 5), _.
  split; [exact Hrun|]. cbn [heap dict].
  assert (Hg : gp || gp || (gs || gc) = gp || gs || gc)
    by (destruct gp, gs, gc; done).
  destruct Hin as [Hcell _ _ _ _ Hld Hls Hfs Hfd Hbr].
  split_and!.
  - rewrite lookup_insert_ne by (apply (key_ne KEY Hkeys 6 5); done || lia).
    apply lookup_insert_eq.
  - rewrite lookup_heap_new. cbn. by rewrite Hg.
  - apply lookup_insert_eq.
  - rewrite lookup_heap_new. cbn. by rewrite Hg.
  - apply edge_vectors_length; [done..|]. apply owners_length.
  - apply edge_vectors_per_edge; [done..|].
    destruct batch_mode; [by apply Hbr|].
    by destruct Hcell as (? & ? & _ & _ & c & -> & _).
  - rewrite !lookup_insert_ne; [done|..].
    + apply (key_ne KEY Hkeys 5 9); done || lia.
    + apply (key_ne KEY Hkeys 6 9); done || lia.
Qed.

End no_stress_claim.

Section list_algebra.
Context {A B C A' B' C' : Type}.

Lemma zip_with_fmap_hom (f : A → B → C) (f' : A' → B' → C')
    (ga : A → A') (gb : B → B') (gc : C → C') (l : list A) (k : list B) :
  (∀ a b, f' (ga a) (gb b) = gc (f a b)) →
  zip_with f' (ga <$> l) (gb <$> k) = gc <$> zip_with f l k.
Proof.
  intros Hf. revert k. induction l as [|a l IH]; intros [|b k]; [done..|].
  cbn. rewrite Hf. f_equal. apply IH.
Qed.

End list_algebra.

Lemma gather_fmap {A B} `{Inhabited A, Inhabited B} (f : A → B) (l : list A)
    (idx : list nat) :
  Forall (λ i, i < length l) idx → gather (f <$> l) idx = f <$> gather l idx.
Proof.
  induction 1 as [|i idx Hi _ IH]; [done|].
  unfold gather in *. rewrite !fmap_cons. f_equal; [|exact IH].
  by apply list_lookup_total_fmap.
Qed.

Section vector_algebra.
Local Open Scope R_scope.

Lemma msym_scaled_identity ε : msym (scaled_identity ε) = scaled_identity ε.
Proof. unfold msym, scaled_identity. cbn. repeat f_equal; lra. Qed.

Lemma vadd_vecmat_scaled_identity ε p :
  vadd p (vecmat p (scaled_identity ε)) = vscale (1 + ε) p.
Proof. destruct p as [[x y] z]. cbn. repeat f_equal; lra. Qed.

Lemma madd_matmul_scaled_identity ε c :
  madd c (matmul c (scaled_identity ε)) = mscale (1 + ε) c.
Proof.
  destruct c as [[[[a b] c] [[d e] f]] [[g h] i]]. cbn. repeat f_equal; lra.
Qed.

Lemma vsub_vscale k u v : vsub (vscale k u) (vscale k v) = vscale k (vsub u v).
Proof. destruct u as [[a b] c], v as [[x y] z]. cbn. repeat f_equal; lra. Qed.

Lemma vadd_vscale k u v : vadd (vscale k u) (vscale k v) = vscale k (vadd u v).
Proof. destruct u as [[a b] c], v as [[x y] z]. cbn. repeat f_equal; lra. Qed.

Lemma vecmat_mscale k u m : vecmat u (mscale k m) = vscale k (vecmat u m).
Proof.
  destruct u as [[x y] z], m as [[[[a b] c] [[d e] f]] [[g h] i]].
  cbn. repeat f_equal; lra.
Qed.

Lemma vscale_1 v : vscale (1 + 0) v = v.
Proof. destruct v as [[x y] z]. cbn. repeat f_equal; lra. Qed.

Lemma edge_vectors_scaled k pos cells shifts owner src dst :
  Forall (λ i, i < length pos)%nat src →
  Forall (λ i, i < length pos)%nat dst →
  Forall (λ g, g < length cells)%nat owner →
  edge_vectors (vscale k <$> pos) (mscale k <$> cells) shifts owner src dst
  = vscale k <$> edge_vectors pos cells shifts owner src dst.
Proof.
  intros Hs Hd Ho. unfold edge_vectors.
  rewrite !gather_fmap by done.
  rewrite (zip_with_fmap_hom vsub vsub (vscale k) (vscale k) (vscale k))
    by apply vsub_vscale.
  rewrite <- (list_fmap_id shifts) at 1.
  rewrite (zip_with_fmap_hom vecmat vecmat Datatypes.id (mscale k) (vscale k))
    by apply vecmat_mscale.
  apply zip_with_fmap_hom, vadd_vscale.
Qed.

Lemma strained_positions_scaled ε n owner pos :
  length owner = length pos → Forall (λ g, g < n)%nat owner →
  strained_positions (msym <$> replicate n (scaled_identity ε)) owner pos
  = vscale (1 + ε) <$> pos.
Proof.
  intros Hl Ho. unfold strained_positions.
  rewrite fmap_replicate, msym_scaled_identity.
  revert owner Hl Ho. induction pos as [|p pos IH]; intros [|g owner] Hl Ho;
    simplify_eq/=; [done|].
  inversion Ho as [|?? Hg Ho']; subst.
  rewrite lookup_total_replicate_2 by done.
  rewrite vadd_vecmat_scaled_identity. f_equal. by apply IH.
Qed.

Lemma strained_cells_scaled ε cells :
  strained_cells (msym <$> replicate (length cells) (scaled_identity ε)) cells
  = mscale (1 + ε) <$> cells.
Proof.
  unfold strained_cells. rewrite fmap_replicate, msym_scaled_identity.
  induction cells as [|c cells IH]; [done|].
  cbn. rewrite madd_matmul_scaled_identity. f_equal. exact IH.
Qed.

End vector_algebra.

Section stress_exprs.
Import EdgePreprocess.
Local Open Scope R_scope.

Lemma msym_zip (ms : list (mat3 R)) :
  mscale 0.5 <$> zip_with madd ms (mtranspose <$> ms) = msym <$> ms.
Proof. induction ms as [|m ms IH]; [done|]. cbn. by rewrite IH. Qed.

Lemma sym_strain_expr_batch g (ms : list (mat3 R)) :
  sym_strain_expr (FloatT g (S3 ms)) = Ok (FloatT (g || g) (S3 (msym <$> ms))).
Proof.
  unfold sym_strain_expr.
  cbn [t_transpose lift_shape transpose fmap result_fmap mbind result_bind].
  unfold t_add. rewrite bzip_same by by rewrite length_fmap.
  cbn [fmap result_fmap mbind result_bind t_scale]. by rewrite msym_zip.
Qed.

Lemma sym_strain_expr_single g (m : mat3 R) :
  sym_strain_expr (FloatT g (S2 (mat_rows m)))
  = Ok (FloatT (g || g) (S2 (mat_rows (msym m)))).
Proof.
  destruct m as [[[[a b] c] [[d e] f]] [[x y] z]].
  unfold sym_strain_expr.
  cbn [t_transpose lift_shape transpose mat_rows as_mat3 mtranspose
       fmap result_fmap mbind result_bind].
  unfold t_add. rewrite bzip_same by done. done.
Qed.

Lemma strained_positions_zip syms batch pos :
  zip_with vadd pos (zip_with vecmat pos (gather syms batch))
  = strained_positions syms batch pos.
Proof.
  unfold strained_positions, gather. revert batch.
  induction pos as [|p pos IH]; intros [|g batch]; [done..|].
  cbn. f_equal. apply IH.
Qed.

Lemma strained_cells_zip syms cells :
  zip_with madd cells (zip_with matmul cells syms) = strained_cells syms cells.
Proof.
  unfold strained_cells. revert syms.
  induction cells as [|c cells IH]; intros [|e syms]; [done..|].
  cbn. f_equal. apply IH.
Qed.

Lemma strained_pos_batch_value gp gS pos syms (batch : list nat) :
  length batch = length pos →
  Forall (λ g, (g < length syms)%nat) batch →
  strained_pos_batch (FloatT gp (S2 pos)) (FloatT gS (S3 syms))
                     (LongT (S1 (Z.of_nat <$> batch)))
  = Ok (FloatT (gp || (gp || gS)) (S2 (strained_positions syms batch pos))).
Proof.
  intros Hl Hb. unfold strained_pos_batch.
  cbn [t_unsqueeze_m2 lift_shape unsqueeze_m2 fmap result_fmap mbind result_bind].
  rewrite t_index_float_S3 by done. cbn [mbind result_bind].
  unfold t_bmm. rewrite zip_same_same by by rewrite gather_length.
  cbn [fmap result_fmap mbind result_bind t_squeeze_m2 lift_shape squeeze_m2].
  unfold t_add. rewrite bzip_same.
  - cbn [fmap result_fmap]. by rewrite strained_positions_zip.
  - rewrite length_zip_with, gather_length. lia.
Qed.

Lemma strained_cell_batch_value gc gS cells syms :
  length syms = length cells →
  strained_cell_batch (FloatT gc (S3 cells)) (FloatT gS (S3 syms))
  = Ok (FloatT (gc || (gc || gS)) (S3 (strained_cells syms cells))).
Proof.
  intros Hl. unfold strained_cell_batch, t_bmm.
  rewrite zip_same_same by done. cbn [fmap result_fmap mbind result_bind].
  unfold t_add. rewrite bzip_same.
  - cbn [fmap result_fmap]. by rewrite strained_cells_zip.
  - rewrite length_zip_with. lia.
Qed.

Lemma strained_positions_single sym pos :
  zip_with vadd pos ((λ r, vecmat r sym) <$> pos)
  = strained_positions [sym] ((λ _, 0%nat) <$> pos) pos.
Proof.
  unfold strained_positions. induction pos as [|p pos IH]; [done|].
  cbn. f_equal. exact IH.
Qed.

Lemma strained_single_pos_value gp gS pos sym :
  strained_single (FloatT gp (S2 pos)) (FloatT gS (S2 (mat_rows sym)))
  = Ok (FloatT (gp || (gp || gS))
          (S2 (strained_positions [sym] ((λ _, 0%nat) <$> pos) pos))).
Proof.
  unfold strained_single, t_mm. destruct sym as [[r0 r1] r2].
  cbn [mat_rows as_mat3 mbind result_bind].
  unfold t_add. rewrite bzip_same by by rewrite length_fmap.
  cbn [fmap result_fmap]. by rewrite strained_positions_single.
Qed.

Lemma strained_single_cell_value gc gS c sym :
  strained_single (FloatT gc (S2 (mat_rows c))) (FloatT gS (S2 (mat_rows sym)))
  = Ok (FloatT (gc || (gc || gS)) (S2 (mat_rows (madd c (matmul c sym))))).
Proof.
  unfold strained_single, t_mm. destruct sym as [[r0 r1] r2], c as [[c0 c1] c2].
  cbn [mat_rows as_mat3 mbind result_bind].
  unfold t_add. rewrite bzip_same by done. done.
Qed.

Lemma foldr_Zmax (b : nat) (batch : list nat) :
  foldr Z.max (Z.of_nat b) (Z.of_nat <$> batch)
  = Z.of_nat (max_list (b :: batch)).
Proof.
  induction batch as [|c batch IH].
  - simpl. lia.
  - rewrite fmap_cons. cbn [foldr]. rewrite IH. simpl. lia.
Qed.

Lemma max_item_batch (b : nat) (batch : list nat) :
  max_item (LongT (S1 (Z.of_nat <$> b :: batch)))
  = Ok (Z.of_nat (max_list (b :: batch))).
Proof.
  unfold max_item. cbn [flat]. rewrite fmap_cons. by rewrite foldr_Zmax.
Qed.

Lemma zeros_n33_value (n : nat) g v :
  zeros_n33 (Z.of_nat n + 1) (FloatT g v)
  = Ok (FloatT false (S3 (replicate (S n) zero_mat))).
Proof.
  unfold zeros_n33. destruct (Z.ltb_spec (Z.of_nat n + 1) 0); [lia|].
  do 4 f_equal. lia.
Qed.

End stress_exprs.

Section run_steps2.
Context {B : Type}.

Lemma run_bind_requires_grad l g v (f : () → M B) s :
  s.(heap) !! l = Some (FloatT g v) →
  run (requires_grad_ l ≫= f) s
  = run (f ()) {| heap := <[l := FloatT true v]> s.(heap); dict := s.(dict) |}.
Proof.
  intros E. rewrite run_bind. unfold run, requires_grad_. by rewrite E.
Qed.

Lemma run_bind_lift {A} (r : result A) a (f : A → M B) s :
  r = Ok a → run (lift r ≫= f) s = run (f a) s.
Proof. by intros ->. Qed.

Lemma run_bind_alloc t (f : nat → M B) s :
  run (alloc t ≫= f) s
  = run (f (length s.(heap))) {| heap := s.(heap) ++ [t]; dict := s.(dict) |}.
Proof. done. Qed.

End run_steps2.

Lemma insert_heap_new0 (h : list tensor) t new :
  <[length h := t]> (h ++ new) = h ++ <[0 := t]> new.
Proof. rewrite insert_app_r_alt by lia. do 2 f_equal. lia. Qed.

Section stress_runs.
Import EdgePreprocess.
Variable KEY : keys.
Hypothesis Hkeys : keys_distinct KEY.

Lemma run_new_strain_batch {B} (f : nat → M B) s lp lb gp vp b batch :
  s.(heap) !! lp = Some (FloatT gp vp) →
  s.(heap) !! lb = Some (LongT (S1 (Z.of_nat <$> b :: batch))) →
  run (new_strain_batch lp lb ≫= f) s
  = run (f (length s.(heap)))
      {| heap := s.(heap) ++
           [FloatT true (S3 (replicate (S (max_list (b :: batch))) zero_mat))];
         dict := <["_strain" := length s.(heap)]> s.(dict) |}.
Proof.
  intros Hp Hb. unfold new_strain_batch.
  repeat mstep.
  erewrite run_bind_lift by apply max_item_batch. repeat mstep.
  erewrite run_bind_eval by apply zeros_n33_value. norm_state.
  repeat mstep.
  erewrite run_bind_requires_grad; [|heap_lookup]. norm_state.
  repeat mstep.
  rewrite insert_heap_new0. done.
Qed.

Lemma run_new_strain_single {B} (f : nat → M B) s lp gp vp :
  s.(heap) !! lp = Some (FloatT gp vp) →
  run (new_strain_single lp ≫= f) s
  = run (f (length s.(heap)))
      {| heap := s.(heap) ++ [FloatT true (S2 (replicate 3 zero_vec))];
         dict := <["_strain" := length s.(heap)]> s.(dict) |}.
Proof.
  intros Hp. unfold new_strain_single.
  repeat mstep. rewrite run_bind_alloc. norm_state. repeat mstep.
  erewrite run_bind_requires_grad; [|heap_lookup]. norm_state.
  repeat mstep.
  rewrite insert_heap_new0. done.
Qed.

End stress_runs.

Section stress_geometry.
Import EdgePreprocess.
Variable KEY : keys.

Lemma strained_positions_length syms owner pos :
  length owner = length pos →
  length (strained_positions syms owner pos) = length pos.
Proof. intros H. unfold strained_positions. rewrite length_zip_with. lia. Qed.

Lemma strained_cells_length syms cells :
  length syms = length cells →
  length (strained_cells syms cells) = length cells.
Proof. intros H. unfold strained_cells. rewrite length_zip_with. lia. Qed.

Lemma run_strained_batch {B} (f : nat * nat → M B) s lst lp lc lb g gp gc
    strains pos cells (batch : list nat) :
  s.(heap) !! lst = Some (FloatT g (S3 strains)) →
  s.(heap) !! lp = Some (FloatT gp (S2 pos)) →
  s.(heap) !! lc = Some (FloatT gc (S3 cells)) →
  s.(heap) !! lb = Some (LongT (S1 (Z.of_nat <$> batch))) →
  length strains = length cells → length batch = length pos →
  Forall (λ g, g < length cells) batch →
  let syms := msym <$> strains in
  run (strained_batch lst lp lc lb ≫= f) s
  = run (f (length s.(heap) + 1, length s.(heap) + 2))
      {| heap := s.(heap) ++
           [FloatT (g || g) (S3 syms);
            FloatT (gp || (gp || (g || g)))
              (S2 (strained_positions syms batch pos));
            FloatT (gc || (gc || (g || g))) (S3 (strained_cells syms cells))];
         dict := s.(dict) |}.
Proof.
  intros Hst Hp Hc Hb Hls Hlb Hfb syms. unfold strained_batch.
  repeat mstep. erewrite run_bind_eval by apply sym_strain_expr_batch.
  norm_state. repeat mstep.
  erewrite run_bind_eval.
  2: { apply strained_pos_batch_value; [done|].
       by rewrite length_fmap, Hls. }
  norm_state. repeat mstep.
  erewrite run_bind_eval.
  2: { apply strained_cell_batch_value. by rewrite length_fmap. }
  norm_state. repeat mstep. done.
Qed.

Lemma run_strained_single {B} (f : nat * nat → M B) s lst lp lc g gp gc
    m pos c :
  s.(heap) !! lst = Some (FloatT g (S2 (mat_rows m))) →
  s.(heap) !! lp = Some (FloatT gp (S2 pos)) →
  s.(heap) !! lc = Some (FloatT gc (S2 (mat_rows c))) →
  run (strained_single_graph lst lp lc ≫= f) s
  = run (f (length s.(heap) + 1, length s.(heap) + 2))
      {| heap := s.(heap) ++
           [FloatT (g || g) (S2 (mat_rows (msym m)));
            FloatT (gp || (gp || (g || g)))
              (S2 (strained_positions [msym m] ((λ _, 0) <$> pos) pos));
            FloatT (gc || (gc || (g || g)))
              (S2 (mat_rows (madd c (matmul c (msym m)))))];
         dict := s.(dict) |}.
Proof.
  intros Hst Hp Hc. unfold strained_single_graph.
  repeat mstep. erewrite run_bind_eval by apply sym_strain_expr_single.
  norm_state. repeat mstep.
  erewrite run_bind_eval by apply strained_single_pos_value.
  norm_state. repeat mstep.
  erewrite run_bind_eval by apply strained_single_cell_value.
  norm_state. repeat mstep. done.
Qed.

Lemma run_after_strain (batch_mode : bool) s lst lp lc ls lb le te gp gs gc
    pos shifts cells (batch src dst : list nat) strains :
  s.(heap) !! lst = Some (strain_tensor batch_mode strains) →
  length strains = length cells →
  s.(heap) !! lp = Some (FloatT gp (S2 pos)) →
  s.(heap) !! ls = Some (FloatT gs (S2 shifts)) →
  s.(dict) !! KEY.(EDGE_IDX) = Some le →
  s.(heap) !! le = Some te →
  t_index_int 0 te = Ok (LongT (S1 (Z.of_nat <$> src))) →
  t_index_int 1 te = Ok (LongT (S1 (Z.of_nat <$> dst))) →
  length dst = length src → length shifts = length src →
  Forall (λ i, i < length pos) src →
  Forall (λ i, i < length pos) dst →
  (if batch_mode then
     s.(heap) !! lc = Some (FloatT gc (S3 cells)) ∧
     s.(heap) !! lb = Some (LongT (S1 (Z.of_nat <$> batch))) ∧
     length batch = length pos ∧
     Forall (λ g, g < length cells) batch
   else ∃ c, cells = [c] ∧ s.(heap) !! lc = Some (FloatT gc (S2 (mat_rows c)))) →
  let syms := msym <$> strains in
  let pos' := strained_positions syms (atom_owners batch_mode batch pos) pos in
  let cells' := strained_cells syms cells in
  let ev := edge_vectors pos' cells' shifts (owners batch_mode batch src) src dst in
  ∃ t1 t2 t3 t4 t5 t6,
    run (after_strain KEY {| is_stress := true; _is_batch_data := batch_mode |}
           lst lp lc ls lb) s
    = Ok ((), {| heap := s.(heap) ++
                   [t1; t2; t3; t4; t5; t6;
                    FloatT true (S2 ev); FloatT true (S1 (norm3 <$> ev))];
                 dict := <[KEY.(EDGE_LENGTH) := length s.(heap) + 7]>
                           (<[KEY.(EDGE_VEC) := length s.(heap) + 6]> s.(dict)) |}).
Proof.
  intros Hst Hlst Hp Hs He Hte Hsrc Hdst Hld Hls Hfs Hfd Hmode syms pos' cells' ev.
  unfold after_strain. cbn [_is_batch_data].
  destruct batch_mode.
  - destruct Hmode as (Hc & Hb & Hlb & Hfb). unfold strain_tensor in Hst.
    do 6 eexists.
    erewrite run_strained_batch; try done.
    erewrite (run_edges KEY _ _ (length (heap s) + 1) (length (heap s) + 2)
                ls lb le te (gp || (gp || (true || true))) gs
                (gc || (gc || (true || true))) pos' shifts cells' batch src dst);
      cbn [heap dict _is_batch_data]; try done; try heap_lookup.
    + norm_state.
      replace (length (heap s) + 3 + 4) with (length (heap s) + 7) by lia.
      replace (length (heap s) + 3 + 3) with (length (heap s) + 6) by lia.
      rewrite !orb_true_r. cbn [orb]. done.
    + subst pos'. by rewrite strained_positions_length.
    + subst pos'. by rewrite strained_positions_length.
    + split_and!; [heap_lookup|heap_lookup| |].
      * by rewrite Hlb.
      * subst cells'. rewrite strained_cells_length; [done|].
        subst syms. by rewrite length_fmap.
  - destruct Hmode as (c & -> & Hc).
    destruct strains as [|m [|??]]; simplify_eq/=.
    unfold strain_tensor in Hst. cbn in Hst. rewrite app_nil_r in Hst.
    do 6 eexists.
    erewrite run_strained_single; try done.
    erewrite (run_edges KEY _ _ (length (heap s) + 1) (length (heap s) + 2)
                ls lb le te (gp || (gp || (true || true))) gs
                (gc || (gc || (true || true))) pos' shifts cells' batch src dst);
      cbn [heap dict _is_batch_data]; try done; try heap_lookup.
    + norm_state.
      replace (length (heap s) + 3 + 4) with (length (heap s) + 7) by lia.
      replace (length (heap s) + 3 + 3) with (length (heap s) + 6) by lia.
      rewrite !orb_true_r. cbn [orb]. done.
    + subst pos'. rewrite strained_positions_length; [done|].
      by rewrite length_fmap.
    + subst pos'. rewrite strained_positions_length; [done|].
      by rewrite length_fmap.
    + eexists. split; [done|heap_lookup].
Qed.

Lemma run_forward_stress (batch_mode : bool) s gp gs gc pos shifts cells
    (batch src dst : list nat) lp ls lb :
  graph_input KEY batch_mode s gp gs gc pos shifts cells batch src dst →
  s.(dict) !! KEY.(POS) = Some lp →
  s.(dict) !! KEY.(CELL_SHIFT) = Some ls →
  s.(dict) !! KEY.(BATCH) = Some lb →
  (batch_mode = true → batch ≠ [] ∧ length cells = S (max_list batch)) →
  let self := {| is_stress := true; _is_batch_data := batch_mode |} in
  ∃ gv vv,
    let cellv := FloatT gv vv in
    (if batch_mode then vv = S3 cells ∧ gv = gc
     else ∃ c, cells = [c] ∧ vv = S2 (mat_rows c) ∧ gv = gc) ∧
    run (forward KEY self) s
    = run (after_strain KEY self (length s.(heap) + 1) lp (length s.(heap)) ls lb)
        {| heap := s.(heap) ++
             [cellv; strain_tensor batch_mode (replicate (length cells) zero_mat)];
           dict := <["_strain" := length s.(heap) + 1]> s.(dict) |}.
Proof.
  intros [(lc & tc & Hdc & Hhc & Hview) (ls' & Hds & Hhs) (lp' & Hdp & Hhp)
          (lb' & Hdb & Hhb) _ _ _ _ _ Hbr] Hlp Hls Hlb Hbatch self.
  simplify_eq.
  unfold forward, after_strain. cbn [is_stress _is_batch_data self].
  destruct batch_mode.
  - destruct (Hbatch eq_refl) as [Hne Hn]. specialize (Hhb eq_refl).
    destruct batch as [|b batch]; [done|].
    exists gc, (S3 cells). split; [done|].
    repeat mstep.
    erewrite run_bind_eval by exact Hview. norm_state. repeat mstep.
    erewrite run_new_strain_batch; [|heap_lookup|heap_lookup].
    norm_state. rewrite Hn. done.
  - destruct Hview as (c & -> & Hview).
    exists gc, (S2 (mat_rows c)). split; [by exists c|].
    repeat mstep.
    erewrite run_bind_eval by exact Hview. norm_state. repeat mstep.
    erewrite run_new_strain_single; [|heap_lookup].
    norm_state. done.
Qed.

End stress_geometry.

Section stress_claim.
Import EdgePreprocess.
Local Open Scope R_scope.

Lemma owners_range (batch_mode : bool) (batch src : list nat) (pos : list (vec3 R))
    (cells : list (mat3 R)) :
  Forall (λ i, i < length pos)%nat src →
  (if batch_mode then
     length batch = length pos ∧ Forall (λ g, g < length cells)%nat batch
   else length cells = 1%nat) →
  Forall (λ g, g < length cells)%nat (owners batch_mode batch src).
Proof.
  intros Hs Hm. destruct batch_mode; simpl.
  - destruct Hm as [Hl Hb]. apply gather_in_range; [|done]. by rewrite Hl.
  - apply Forall_fmap, Forall_true. intros i. simpl. lia.
Qed.

Lemma atom_owners_range (batch_mode : bool) (batch : list nat) (pos : list (vec3 R))
    (cells : list (mat3 R)) :
  (if batch_mode then
     length batch = length pos ∧ Forall (λ g, g < length cells)%nat batch
   else length cells = 1%nat) →
  length (atom_owners batch_mode batch pos) = length pos ∧
  Forall (λ g, g < length cells)%nat (atom_owners batch_mode batch pos).
Proof.
  intros Hm. destruct batch_mode; simpl.
  - done.
  - rewrite length_fmap. split; [done|].
    apply Forall_fmap, Forall_true. intros i. simpl. lia.
Qed.

Lemma strained_edge_vectors_scaled ε (batch_mode : bool) (batch src dst : list nat)
    pos shifts cells :
  Forall (λ i, i < length pos)%nat src →
  Forall (λ i, i < length pos)%nat dst →
  (if batch_mode then
     length batch = length pos ∧ Forall (λ g, g < length cells)%nat batch
   else length cells = 1%nat) →
  let syms := msym <$> replicate (length cells) (scaled_identity ε) in
  edge_vectors (strained_positions syms (atom_owners batch_mode batch pos) pos)
               (strained_cells syms cells) shifts
               (owners batch_mode batch src) src dst
  = vscale (1 + ε) <$>
      edge_vectors pos cells shifts (owners batch_mode batch src) src dst.
Proof.
  intros Hs Hd Hm syms. subst syms.
  destruct (atom_owners_range batch_mode batch pos cells Hm) as [Hal Har].
  rewrite (strained_positions_scaled ε (length cells) _ pos Hal Har).
  rewrite strained_cells_scaled.
  apply edge_vectors_scaled; [done..|].
  by apply (owners_range batch_mode batch src pos cells).
Qed.

Lemma vscale_1_fmap (l : list (vec3 R)) : vscale (1 + 0) <$> l = l.
Proof.
  induction l as [|v l IH]; [done|]. cbn. by rewrite vscale_1, IH.
Qed.

(** Claim C1.  With stress on, on data that follows the schema, the call
    returns; it makes a new tensor object [l], all zeros, of shape
    (numGraphs,3,3) in a batch and (3,3) otherwise, with [requires_grad], and
    stores it under ['_strain'].  The rest of the call reads the strain from
    that object: whatever it holds, the edge vectors are those of the
    positions and cells moved by its symmetric part [½(S + Sᵗ)]; for the
    strain [ε·I] every edge vector is [1 + ε] times the unstrained one, and
    for the zero strain of the call itself it is the unstrained one. *)
Theorem preprocess_with_stress (KEY : keys) (batch_mode : bool) (s : state)
    (gp gs gc : bool) (pos shifts : list (vec3 R)) (cells : list (mat3 R))
    (batch src dst : list nat) (lp ls lb : nat) :
  keys_distinct KEY →
  graph_input KEY batch_mode s gp gs gc pos shifts cells batch src dst →
  s.(dict) !! KEY.(POS) = Some lp →
  s.(dict) !! KEY.(CELL_SHIFT) = Some ls →
  s.(dict) !! KEY.(BATCH) = Some lb →
  (batch_mode = true → batch ≠ [] ∧ length cells = S (max_list batch)) →
  let self := {| is_stress := true; _is_batch_data := batch_mode |} in
  let l := (length s.(heap) + 1)%nat in
  let owner := owners batch_mode batch src in
  let atoms := atom_owners batch_mode batch pos in
  let unstrained := edge_vectors pos cells shifts owner src dst in
  let strained := λ strains,
    edge_vectors (strained_positions (msym <$> strains) atoms pos)
                 (strained_cells (msym <$> strains) cells) shifts owner src dst in
  ∃ cellv s' lv,
    let at_strain := λ strains,
      {| heap := s.(heap) ++ [cellv; strain_tensor batch_mode strains];
         dict := <["_strain" := l]> s.(dict) |} in
    run (forward KEY self) s = Ok ((), s') ∧
    s.(heap) !! l = None ∧
    s'.(dict) !! "_strain" = Some l ∧
    s'.(heap) !! l
      = Some (FloatT true
                (if batch_mode then S3 (replicate (S (max_list batch)) zero_mat)
                 else S2 (replicate 3 zero_vec))) ∧
    s'.(dict) !! KEY.(EDGE_VEC) = Some lv ∧
    s'.(heap) !! lv = Some (FloatT true (S2 unstrained)) ∧
    (∀ e i j sh,
       src !! e = Some i → dst !! e = Some j → shifts !! e = Some sh →
       ∃ pi pj g c,
         pos !! i = Some pi ∧ pos !! j = Some pj ∧
         (if batch_mode then batch !! i = Some g else g = 0%nat) ∧
         cells !! g = Some c ∧
         unstrained !! e = Some (vadd (vsub pj pi) (vecmat sh c))) ∧
    run (forward KEY self) s
      = run (after_strain KEY self l lp (length s.(heap)) ls lb)
          (at_strain (replicate (length cells) zero_mat)) ∧
    (∀ strains, length strains = length cells →
       ∃ s'',
         run (after_strain KEY self l lp (length s.(heap)) ls lb)
           (at_strain strains) = Ok ((), s'') ∧
         s''.(dict) !! KEY.(EDGE_VEC) = Some lv ∧
         s''.(heap) !! lv = Some (FloatT true (S2 (strained strains)))) ∧
    (∀ ε, strained (replicate (length cells) (scaled_identity ε))
          = vscale (1 + ε) <$> unstrained).
Proof.
  intros Hkeys Hin Hlp Hls Hlb Hbatch self l owner atoms unstrained strained.
  destruct (run_forward_stress KEY batch_mode s gp gs gc pos shifts cells
              batch src dst lp ls lb Hin Hlp Hls Hlb Hbatch)
    as (gv & vv & Hcellv & Hsplit).
  pose proof Hin as [_ (ls' & Hds & Hhs) (lp' & Hdp & Hhp)
          (lb' & Hdb & Hhb) (le & te & Hde & Hhe & Hsrc & Hdst)
          Hld Hlsh Hfs Hfd Hbr].
  simplify_eq.
  assert (Hm : if batch_mode then
                 length batch = length pos ∧
                 Forall (λ g, g < length cells)%nat batch
               else length cells = 1%nat).
  { destruct batch_mode; [by apply Hbr|].
    by destruct Hcellv as (c & -> & _). }
  assert (Hscaled : ∀ ε, strained (replicate (length cells) (scaled_identity ε))
                         = vscale (1 + ε) <$> unstrained).
  { intros ε. by apply strained_edge_vectors_scaled. }
  assert (Hany : ∀ strains, length strains = length cells →
    ∃ t1 t2 t3 t4 t5 t6,
      run (after_strain KEY self l lp (length s.(heap)) ls lb)
        {| heap := s.(heap) ++ [FloatT gv vv; strain_tensor batch_mode strains];
           dict := <["_strain" := l]> s.(dict) |}
      = Ok ((), {| heap := (s.(heap) ++
                      [FloatT gv vv; strain_tensor batch_mode strains]) ++
                     [t1; t2; t3; t4; t5; t6; FloatT true (S2 (strained strains));
                      FloatT true (S1 (norm3 <$> strained strains))];
                   dict := <[KEY.(EDGE_LENGTH) := (length s.(heap) + 2 + 7)%nat]>
                             (<[KEY.(EDGE_VEC) := (length s.(heap) + 2 + 6)%nat]>
                                (<["_strain" := l]> s.(dict))) |})).
  { intros strains Hstr.
    edestruct (run_after_strain KEY batch_mode
                 {| heap := s.(heap) ++ [FloatT gv vv; strain_tensor batch_mode strains];
                    dict := <["_strain" := l]> s.(dict) |}
                 l lp (length s.(heap)) ls lb le te gp gs gc pos shifts cells
                 batch src dst strains) as (t1 & t2 & t3 & t4 & t5 & t6 & Hrun);
      cbn [heap dict]; try done; try heap_lookup.
    - subst l. heap_lookup.
    - rewrite lookup_insert_ne by (apply (key_ne KEY Hkeys 9 4); done || lia).
      done.
    - destruct batch_mode.
      + destruct Hcellv as [-> ->]. destruct Hm as [Hl Hb].
        specialize (Hhb eq_refl).
        split_and!; [heap_lookup|heap_lookup|done|done].
      + destruct Hcellv as (c & -> & -> & ->). exists c.
        split; [done|heap_lookup].
    - exists t1, t2, t3, t4, t5, t6. etransitivity; [exact Hrun|].
      cbn [heap dict]. rewrite length_app. cbn [length]. done. }
  destruct (Hany (replicate (length cells) zero_mat)) as
    (t1 & t2 & t3 & t4 & t5 & t6 & Hrun0); [by rewrite length_replicate|].
  assert (Hzero : strained (replicate (length cells) zero_mat) = unstrained).
  { change zero_mat with (scaled_identity 0).
    rewrite Hscaled. apply vscale_1_fmap. }
  exists (FloatT gv vv). eexists. exists (length s.(heap) + 2 + 6)%nat.
  cbn zeta. split_and!.
  - etransitivity; [exact Hsplit|exact Hrun0].
  - apply lookup_ge_None. subst l. lia.
  - cbn [dict].
    rewrite lookup_insert_ne by (apply (key_ne KEY Hkeys 6 9); done || lia).
    rewrite lookup_insert_ne by (apply (key_ne KEY Hkeys 5 9); done || lia).
    apply lookup_insert_eq.
  - cbn [heap]. rewrite <- app_assoc. subst l. rewrite lookup_heap_new.
    cbn. unfold strain_tensor. destruct batch_mode.
    + destruct (Hbatch eq_refl) as [_ ->]. done.
    + destruct Hcellv as (c & -> & _). done.
  - cbn [dict].
    rewrite lookup_insert_ne by (apply (key_ne KEY Hkeys 6 5); done || lia).
    apply lookup_insert_eq.
  - cbn [heap]. rewrite <- app_assoc, <- Nat.add_assoc. rewrite lookup_heap_new.
    cbn. by rewrite Hzero.
  - by apply edge_vectors_per_edge.
  - exact Hsplit.
  - intros strains Hstr.
    destruct (Hany strains Hstr) as (u1 & u2 & u3 & u4 & u5 & u6 & Hrun).
    eexists. split; [exact Hrun|]. cbn [heap dict]. split.
    + rewrite lookup_insert_ne by (apply (key_ne KEY Hkeys 6 5); done || lia).
      apply lookup_insert_eq.
    + rewrite <- app_assoc, <- Nat.add_assoc. rewrite lookup_heap_new. done.
  - exact Hscaled.
Qed.

End stress_claim.

Section frame.
Context {A B : Type}.
Implicit Types W : list string.

Lemma preserves_refl s : preserves s s.
Proof. split; [lia|done]. Qed.

Lemma preserves_trans s1 s2 s3 :
  preserves s1 s2 → preserves s2 s3 → preserves s1 s3.
Proof.
  intros [L1 H1] [L2 H2]. split; [lia|].
  intros l Hl. rewrite H2 by lia. by apply H1.
Qed.

Lemma preserves_alloc s t :
  preserves s {| heap := s.(heap) ++ [t]; dict := s.(dict) |}.
Proof.
  split; cbn [heap]; [rewrite length_app; lia|].
  intros l Hl. by rewrite lookup_app_l.
Qed.

Lemma framed_ret W (a : A) : framed W (mret a : M A).
Proof. intros s a' s' [= <- <-]. split; [apply preserves_refl|done]. Qed.

Lemma framed_bind W (m : M A) (f : A → M B) :
  framed W m → (∀ a, framed W (f a)) → framed W (m ≫= f).
Proof.
  intros Hm Hf s b s' Hrun.
  apply run_bind_inv in Hrun as (a & s1 & H1 & H2).
  destruct (Hm _ _ _ H1) as [P1 D1], (Hf _ _ _ _ H2) as [P2 D2].
  split; [by eapply preserves_trans|].
  intros k Hk. rewrite D2, D1; done.
Qed.

Lemma framed_ext W (m m' : M A) :
  (∀ s, run m s = run m' s) → framed W m' → framed W m.
Proof. intros E Hm s a s' Hrun. rewrite E in Hrun. exact (Hm s a s' Hrun). Qed.

Lemma run_bind_assoc_under {A' C} (m : M A) (g : A → M A') (h : A → A' → M B)
    (f : B → M C) s :
  run (m ≫= λ a, (g a ≫= h a) ≫= f) s
  = run (m ≫= λ a, g a ≫= λ b, h a b ≫= f) s.
Proof.
  rewrite !run_bind. destruct (run m s) as [[a s1]|e]; [|done].
  apply run_bind_assoc.
Qed.

Lemma framed_lift W (r : result A) : framed W (lift r).
Proof.
  intros s a s' Hrun. unfold run, lift in Hrun. destruct r; simplify_eq.
  split; [apply preserves_refl|done].
Qed.

End frame.

Section frame_prims.
Implicit Types W : list string.

Lemma framed_getitem W k : framed W (getitem k).
Proof.
  intros s a s' Hrun. unfold run, getitem in Hrun.
  destruct (dict s !! k); simplify_eq. split; [apply preserves_refl|done].
Qed.

Lemma framed_load W l : framed W (load l).
Proof.
  intros s a s' Hrun. unfold run, load in Hrun.
  destruct (heap s !! l); simplify_eq. split; [apply preserves_refl|done].
Qed.

Lemma framed_alloc W t : framed W (alloc t).
Proof.
  intros s a s' [= <- <-]. split; [apply preserves_alloc|done].
Qed.

Lemma framed_eval W r : framed W (eval r).
Proof. apply framed_bind; [apply framed_lift|intros t; apply framed_alloc]. Qed.

Lemma framed_setitem W k l : k ∈ W → framed W (setitem k l).
Proof.
  intros Hk s a s' [= <- <-]. split; [split; cbn [heap]; [lia|done]|].
  intros k' Hk'. cbn [dict]. apply lookup_insert_ne. by intros ->.
Qed.

(** [requires_grad_] on the object that was just made leaves the older ones
    alone. *)
Lemma framed_new_grad {A} W (m : M nat) (f : nat → M A) :
  framed W m →
  (∀ s l s', run m s = Ok (l, s') → length s.(heap) ≤ l) →
  (∀ l, framed W (f l)) →
  framed W (l ← m; requires_grad_ l;; f l).
Proof.
  intros Hm Hfresh Hf s a s' Hrun.
  apply run_bind_inv in Hrun as (l & s1 & H1 & H2).
  apply run_bind_inv in H2 as ([] & s2 & H2 & H3).
  destruct (Hm _ _ _ H1) as [P1 D1], (Hf _ _ _ _ H3) as [P3 D3].
  pose proof (Hfresh _ _ _ H1) as Hl.
  unfold run, requires_grad_ in H2.
  destruct (heap s1 !! l) as [[g v|]|]; simplify_eq.
  split.
  - eapply preserves_trans; [|exact P3].
    destruct P1 as [L1 E1]. split; cbn [heap].
    + by rewrite length_insert.
    + intros l' Hl'. rewrite list_lookup_insert_ne by lia. by apply E1.
  - intros k Hk. rewrite D3, <- D1; done.
Qed.

End frame_prims.

Section frame_forward.
Import EdgePreprocess.
Variable KEY : keys.

Local Ltac framed_step :=
  first [ apply framed_ret
        | apply framed_getitem
        | apply framed_load
        | apply framed_eval
        | apply framed_alloc
        | apply framed_lift
        | apply framed_setitem; set_solver
        | apply framed_bind; [|intros ?] ].

Lemma framed_edges self W lp lc ls lb :
  KEY.(EDGE_VEC) ∈ W → KEY.(EDGE_LENGTH) ∈ W →
  framed W (edges KEY self lp lc ls lb).
Proof.
  intros H1 H2. unfold edges.
  destruct (_is_batch_data self); repeat framed_step.
Qed.

Lemma eval_fresh r s l s' : run (eval r) s = Ok (l, s') → length s.(heap) ≤ l.
Proof.
  unfold run, eval, lift, alloc, mbind, M_bind. destruct r; intros; simplify_eq.
  done.
Qed.

Lemma framed_new_strain_batch {A} W lp lb (f : nat → M A) :
  "_strain" ∈ W → (∀ l, framed W (f l)) →
  framed W (new_strain_batch lp lb ≫= f).
Proof.
  intros HW Hf. unfold new_strain_batch.
  eapply framed_ext; [intros; apply run_bind_assoc|].
  apply framed_bind; [repeat framed_step|]. intros n.
  eapply framed_ext; [intros; apply run_bind_assoc|].
  eapply framed_ext; [intros; apply run_bind_assoc_under|]. cbv beta.
  apply framed_new_grad.
  - repeat framed_step.
  - intros s l s' Hrun.
    apply run_bind_inv in Hrun as (p & s1 & H1 & H2).
    unfold run, load in H1. destruct (heap s !! lp); simplify_eq.
    by apply eval_fresh in H2.
  - intros l. apply framed_bind; [repeat framed_step|]. intros l'. apply Hf.
Qed.

Lemma framed_new_strain_single {A} W lp (f : nat → M A) :
  "_strain" ∈ W → (∀ l, framed W (f l)) →
  framed W (new_strain_single lp ≫= f).
Proof.
  intros HW Hf. unfold new_strain_single.
  eapply framed_ext; [intros; apply run_bind_assoc|].
  eapply framed_ext; [intros; apply run_bind_assoc_under|]. cbv beta.
  apply framed_new_grad.
  - repeat framed_step.
  - intros s l s' Hrun.
    apply run_bind_inv in Hrun as (p & s1 & H1 & H2).
    unfold run, load in H1. destruct (heap s !! lp); simplify_eq.
    unfold run, alloc in H2. by simplify_eq.
  - intros l. apply framed_bind; [repeat framed_step|]. intros l'. apply Hf.
Qed.

Lemma framed_strained_batch W st lp lc lb :
  framed W (strained_batch st lp lc lb).
Proof. unfold strained_batch. repeat framed_step. Qed.

Lemma framed_strained_single W st lp lc :
  framed W (strained_single_graph st lp lc).
Proof. unfold strained_single_graph. repeat framed_step. Qed.

Lemma framed_forward self : framed (written KEY self) (forward KEY self).
Proof.
  unfold forward, written.
  apply framed_bind; [destruct (_is_batch_data self); repeat framed_step|].
  intros cell.
  apply framed_bind; [apply framed_getitem|intros ls].
  apply framed_bind; [apply framed_getitem|intros lp].
  apply framed_bind; [apply framed_getitem|intros lb].
  destruct (is_stress self).
  - destruct (_is_batch_data self).
    + eapply framed_ext; [intros; apply run_bind_assoc|].
      apply framed_new_strain_batch; [set_solver|]. intros l.
      apply framed_bind; [apply framed_strained_batch|]. intros [p c].
      apply framed_edges; set_solver.
    + eapply framed_ext; [intros; apply run_bind_assoc|].
      apply framed_new_strain_single; [set_solver|]. intros l.
      apply framed_bind; [apply framed_strained_single|]. intros [p c].
      apply framed_edges; set_solver.
  - apply framed_bind; [apply framed_ret|]. intros [p c].
    apply framed_edges; set_solver.
Qed.

End frame_forward.

Section frame_claim.
Import EdgePreprocess.

Lemma preserves_lookup s s' l t :
  preserves s s' → s.(heap) !! l = Some t → s'.(heap) !! l = Some t.
Proof.
  intros [_ H] Hl. rewrite H; [done|]. by eapply lookup_lt_Some.
Qed.

Lemma not_written (KEY : keys) (self : t) (k : string) :
  k ≠ KEY.(EDGE_VEC) → k ≠ KEY.(EDGE_LENGTH) →
  (self.(is_stress) = true → k ≠ "_strain") → k ∉ written KEY self.
Proof.
  intros H1 H2 H3. unfold written.
  destruct (is_stress self); cbn [app];
    rewrite !not_elem_of_cons; split_and!; try done;
    try apply not_elem_of_nil.
  by apply H3.
Qed.

(** Claim C3.  In every call that returns, whatever the two flags, each
    tensor object that existed before the call is unchanged, the dictionary
    is unchanged outside [EDGE_VEC], [EDGE_LENGTH] and ['_strain'] (and at
    ['_strain'] too when stress is off); so [POS] and [CELL] still name the
    same objects with the same contents. *)
Theorem preprocess_keeps_inputs (KEY : keys) (self : t) (s s' : state) :
  keys_distinct KEY →
  run (forward KEY self) s = Ok ((), s') →
  (∀ l t, s.(heap) !! l = Some t → s'.(heap) !! l = Some t) ∧
  (∀ k, k ≠ KEY.(EDGE_VEC) → k ≠ KEY.(EDGE_LENGTH) → k ≠ "_strain" →
        s'.(dict) !! k = s.(dict) !! k) ∧
  (self.(is_stress) = false → s'.(dict) !! "_strain" = s.(dict) !! "_strain") ∧
  (∀ k l t, k = KEY.(POS) ∨ k = KEY.(CELL) →
            s.(dict) !! k = Some l → s.(heap) !! l = Some t →
            s'.(dict) !! k = Some l ∧ s'.(heap) !! l = Some t).
Proof.
  intros Hkeys Hrun.
  destruct (framed_forward KEY self s () s' Hrun) as [Hp Hd].
  assert (Hother : ∀ k, k ≠ KEY.(EDGE_VEC) → k ≠ KEY.(EDGE_LENGTH) →
                        k ≠ "_strain" → s'.(dict) !! k = s.(dict) !! k).
  { intros k H1 H2 H3. by apply Hd, not_written. }
  split_and!.
  - intros l t. by apply preserves_lookup.
  - exact Hother.
  - intros Hs. apply Hd, not_written.
    + apply not_eq_sym, (key_ne KEY Hkeys 5 9); done || lia.
    + apply not_eq_sym, (key_ne KEY Hkeys 6 9); done || lia.
    + by rewrite Hs.
  - intros k l t Hk Hdl Hhl. split; [|by eapply preserves_lookup].
    rewrite Hother; [done|..]; destruct Hk as [-> | ->].
    + apply (key_ne KEY Hkeys 2 5); done || lia.
    + apply (key_ne KEY Hkeys 0 5); done || lia.
    + apply (key_ne KEY Hkeys 2 6); done || lia.
    + apply (key_ne KEY Hkeys 0 6); done || lia.
    + apply (key_ne KEY Hkeys 2 9); done || lia.
    + apply (key_ne KEY Hkeys 0 9); done || lia.
Qed.

End frame_claim.

Section batch_claim.
Import EdgePreprocess.

Lemma framed_cell_view (KEY : keys) (self : t) :
  framed [] (c ← getitem KEY.(CELL); c ← load c;
             if self.(_is_batch_data) then eval (t_view_n33 c)
             else eval (t_view_33 c)).
Proof.
  apply framed_bind; [apply framed_getitem|intros lc].
  apply framed_bind; [apply framed_load|intros tc].
  destruct (_is_batch_data self); apply framed_eval.
Qed.

Lemma eval_error (r : result tensor) (s : state) (e : error) :
  run (eval r) s = Err e → r = Err e.
Proof. destruct r; [discriminate|]. by intros [= ->]. Qed.

Lemma lift_shape_error (f : ∀ A, shaped A → result (shaped A)) (t : tensor)
    (e : error) :
  (∀ A (v : shaped A) e', f A v = Err e' → e' = RuntimeError) →
  lift_shape f t = Err e → e = RuntimeError.
Proof.
  intros Hf. destruct t as [g v|v]; cbn [lift_shape].
  - destruct (f R v) as [w|e'] eqn:E; [discriminate|].
    intros [= <-]. by eapply Hf.
  - destruct (f Z v) as [w|e'] eqn:E; [discriminate|].
    intros [= <-]. by eapply Hf.
Qed.

Lemma view_n33_error {A} (v : shaped A) (e : error) :
  view_n33 v = Err e → e = RuntimeError.
Proof. unfold view_n33. case_decide; [discriminate|]. by intros [= <-]. Qed.

Lemma view_33_error {A} (v : shaped A) (e : error) :
  view_33 v = Err e → e = RuntimeError.
Proof.
  unfold view_33. repeat case_match; try discriminate; by intros [= <-].
Qed.

Lemma cell_view_error (KEY : keys) (self : t) (s : state) (e : error) :
  run (c ← getitem KEY.(CELL); c ← load c;
       if self.(_is_batch_data) then eval (t_view_n33 c)
       else eval (t_view_33 c)) s = Err e →
  e = RuntimeError ∨ ∃ k, e = KeyError k.
Proof.
  rewrite run_bind. unfold run at 1, getitem.
  destruct (dict s !! CELL KEY) as [lc|]; [|intros [= <-]; eauto].
  rewrite run_bind. unfold run at 1, load.
  destruct (heap s !! lc) as [tc|]; [|intros [= <-]; eauto].
  destruct (_is_batch_data self); intros He%eval_error; left.
  - eapply lift_shape_error; [|exact He]. intros A v e'. apply view_n33_error.
  - eapply lift_shape_error; [|exact He]. intros A v e'. apply view_33_error.
Qed.

(** Claim C10.  Without a [BATCH] entry the call fails, whatever the two
    flags: with a [KeyError], unless the cell does not reshape; once the cell,
    the cell shift and the positions have been read, it is the [KeyError] of
    [BATCH]. *)
Theorem preprocess_reads_batch (KEY : keys) (self : t) (s : state) :
  s.(dict) !! KEY.(BATCH) = None →
  (∃ e, run (forward KEY self) s = Err e ∧
        (e = RuntimeError ∨ ∃ k, e = KeyError k)) ∧
  (∀ lc tc ls lp v,
     s.(dict) !! KEY.(CELL) = Some lc → s.(heap) !! lc = Some tc →
     (if self.(_is_batch_data) then t_view_n33 tc else t_view_33 tc) = Ok v →
     s.(dict) !! KEY.(CELL_SHIFT) = Some ls →
     s.(dict) !! KEY.(POS) = Some lp →
     run (forward KEY self) s = Err (KeyError KEY.(BATCH))).
Proof.
  intros Hb. split.
  - unfold forward. rewrite run_bind.
    destruct (run _ s) as [[cell s1]|e] eqn:Hcell.
    2: { exists e. split; [done|]. by apply (cell_view_error KEY self s). }
    destruct (framed_cell_view KEY self s cell s1 Hcell) as [_ Hd].
    assert (Hb1 : s1.(dict) !! KEY.(BATCH) = None)
      by (rewrite Hd; [done|apply not_elem_of_nil]).
    rewrite run_bind. unfold run at 1, getitem at 1.
    destruct (dict s1 !! CELL_SHIFT KEY); [|by eauto 6].
    rewrite run_bind. unfold run at 1, getitem at 1.
    destruct (dict s1 !! POS KEY); [|by eauto 6].
    rewrite run_bind. unfold run at 1, getitem at 1.
    rewrite Hb1. by eauto 6.
  - intros lc tc ls lp v Hc Htc Hv Hs Hp. unfold forward.
    repeat mstep.
    assert (Heval : ∀ {B} (f : nat → M B),
      run ((if _is_batch_data self then eval (t_view_n33 tc)
            else eval (t_view_33 tc)) ≫= f) s
      = run (f (length s.(heap)))
          {| heap := s.(heap) ++ [v]; dict := s.(dict) |}).
    { intros B f. destruct (_is_batch_data self);
        by erewrite run_bind_eval by exact Hv. }
    rewrite Heval. repeat mstep.
    rewrite run_bind. unfold run at 1, getitem at 1. cbn [dict].
    by rewrite Hb.
Qed.

End batch_claim.

Section preprocess_post.
Import EdgePreprocess.
Variable KEY : keys.
Hypothesis Hkeys : keys_distinct KEY.

Lemma edges_post self lp lc ls lb s s' :
  run (edges KEY self lp lc ls lb) s = Ok ((), s') → edges_stored KEY s'.
Proof using Hkeys.
  unfold edges. intros Hrun.
  apply run_bind_inv in Hrun as (idx_src & s1 & _ & Hrun).
  apply run_bind_inv in Hrun as (idx_dst & s2 & _ & Hrun).
  apply run_bind_inv in Hrun as (ev0 & s3 & _ & Hrun).
  apply run_bind_inv in Hrun as (lv & s4 & _ & Hrun).
  rewrite run_bind_setitem in Hrun.
  rewrite run_bind_assoc in Hrun.
  apply run_bind_inv in Hrun as (v & s5 & Hload & Hrun).
  unfold run, load in Hload. cbn [heap] in Hload.
  destruct (heap s4 !! lv) as [v'|] eqn:Hv; simplify_eq.
  destruct (linalg_norm v) as [n|e] eqn:Hn; [|done].
  erewrite run_bind_eval in Hrun by reflexivity. cbn [heap dict] in Hrun.
  unfold run, setitem in Hrun. cbn [heap dict] in Hrun. simplify_eq.
  exists lv, (length (heap s4)), v, n. cbn [heap dict]. split_and!.
  - rewrite lookup_insert_ne by (apply (key_ne KEY Hkeys 6 5); done || lia).
    apply lookup_insert_eq.
  - by apply lookup_heap_old.
  - apply lookup_insert_eq.
  - by rewrite lookup_heap_new0.
  - done.
Qed.

Lemma forward_post self s s' :
  run (forward KEY self) s = Ok ((), s') → edges_stored KEY s'.
Proof using Hkeys.
  unfold forward. intros Hrun.
  apply run_bind_inv in Hrun as (cell & s1 & _ & Hrun).
  apply run_bind_inv in Hrun as (ls & s2 & _ & Hrun).
  apply run_bind_inv in Hrun as (lp & s3 & _ & Hrun).
  apply run_bind_inv in Hrun as (lb & s4 & _ & Hrun).
  apply run_bind_inv in Hrun as ([p c] & s5 & _ & Hrun).
  by eapply edges_post.
Qed.

End preprocess_post.

Section embedding.
Import EdgeEmbedding.
Local Open Scope R_scope.

Lemma expand_same {A} (n : nat) (l : list A) : length l = n → expand n l = l.
Proof. intros H. unfold expand. by rewrite decide_True. Qed.

Lemma zip_with_mul_bcast (nb : nat) (row : list R) (c : R) :
  length row = nb →
  zip_with Rmult (expand nb row) (expand nb [c]) = (λ x, x * c) <$> row.
Proof.
  intros Hl. rewrite expand_same by done. unfold expand.
  destruct (decide (length [c] = nb)) as [E|E].
  - cbn in E. subst nb. destruct row as [|x [|??]]; simplify_eq/=. done.
  - subst nb. clear E. induction row as [|x row IH]; [done|].
    cbn. f_equal. exact IH.
Qed.

Lemma bcast_dim_1 (n : nat) : bcast_dim n 1 = Ok n.
Proof.
  unfold bcast_dim. destruct (decide (n = 1%nat)) as [->|]; [done|].
  destruct (decide (n = 1%nat)); [done|]. done.
Qed.

Lemma bcast_dim_same (n : nat) : bcast_dim n n = Ok n.
Proof. unfold bcast_dim. by rewrite decide_True. Qed.

Lemma t_mul_cutoff gb gc vb (nb : nat) (basis : list (list R)) (cut : list R) :
  as_2d vb = Some (nb, basis) →
  length basis = length cut →
  Forall (λ row, length row = nb) basis →
  t_mul (FloatT gb vb) (FloatT gc (SM 1 ((λ x, [x]) <$> cut)))
  = Ok (FloatT (gb || gc) (mk_2d nb (scale_rows basis cut))).
Proof.
  intros Hvb Hl Hrows. unfold t_mul. rewrite Hvb. cbn [as_2d].
  rewrite length_fmap, Hl, bcast_dim_same. cbn [mbind result_bind].
  rewrite bcast_dim_1. cbn [mbind result_bind].
  rewrite !expand_same by (by rewrite ?length_fmap).
  do 3 f_equal. unfold scale_rows.
  clear Hvb. revert cut Hl.
  induction Hrows as [|row basis Hrow _ IH]; intros [|c cut] Hl;
    simplify_eq/=; [done|].
  f_equal; [|by apply IH].
  by apply zip_with_mul_bcast.
Qed.

(** Claim C7.  Given an edge vector tensor under [EDGE_VEC], the assembler
    stores under [EDGE_LENGTH] the Euclidean norms of the edge vectors, under
    [EDGE_EMBEDDING] the rows of the radial basis each scaled by the cutoff
    of its edge, and under [EDGE_ATTR] the angular encoding of the edge
    vectors; after a call of [EdgePreprocess.forward] the length it stores is
    the one that call had stored. *)
Theorem edge_embedding_forward (KEY : keys) (self : t) (s : state)
    (lv : nat) (g gb gc : bool) (ev : list (vec3 R)) (vb : shaped R)
    (nb : nat) (basis : list (list R)) (cut : list R) (attr : tensor) :
  keys_distinct KEY →
  s.(dict) !! KEY.(EDGE_VEC) = Some lv →
  s.(heap) !! lv = Some (FloatT g (S2 ev)) →
  let r := FloatT g (S1 (norm3 <$> ev)) in
  self.(basis_function) r = Ok (FloatT gb vb) →
  as_2d vb = Some (nb, basis) →
  length basis = length ev → Forall (λ row, length row = nb) basis →
  self.(cutoff_function) r = Ok (FloatT gc (S1 cut)) →
  length cut = length ev →
  self.(spherical) (FloatT g (S2 ev)) = Ok attr →
  ∃ s' ll le la,
    run (forward KEY self) s = Ok ((), s') ∧
    s'.(dict) !! KEY.(EDGE_LENGTH) = Some ll ∧ s'.(heap) !! ll = Some r ∧
    s'.(dict) !! KEY.(EDGE_EMBEDDING) = Some le ∧
    s'.(heap) !! le
      = Some (FloatT (gb || gc) (mk_2d nb (scale_rows basis cut))) ∧
    s'.(dict) !! KEY.(EDGE_ATTR) = Some la ∧ s'.(heap) !! la = Some attr ∧
    (∀ p s0, run (EdgePreprocess.forward KEY p) s0 = Ok ((), s) →
       ∃ l0, s.(dict) !! KEY.(EDGE_LENGTH) = Some l0 ∧ s.(heap) !! l0 = Some r).
Proof.
  intros Hkeys Hd Hh r Hb Hvb Hlb Hrows Hc Hlc Ha.
  exists {| heap := s.(heap) ++
              [r; FloatT (gb || gc) (mk_2d nb (scale_rows basis cut)); attr];
            dict := <[KEY.(EDGE_ATTR) := (length s.(heap) + 2)%nat]>
                      (<[KEY.(EDGE_EMBEDDING) := (length s.(heap) + 1)%nat]>
                         (<[KEY.(EDGE_LENGTH) := length s.(heap)]> s.(dict))) |},
    (length s.(heap)), (length s.(heap) + 1)%nat, (length s.(heap) + 2)%nat.
  cbn [heap dict]. split_and!.
  - unfold forward. repeat mstep.
    erewrite run_bind_eval by reflexivity. norm_state. repeat mstep.
    erewrite run_bind_eval.
    2: { unfold embedding_expr. fold r. rewrite Hb. cbn [mbind result_bind].
         rewrite Hc. cbn [mbind result_bind t_unsqueeze_last lift_shape
                          unsqueeze_last fmap result_fmap].
         apply t_mul_cutoff; [done| |done]. by rewrite Hlb, Hlc. }
    norm_state. repeat mstep.
    erewrite run_bind_eval by exact Ha. norm_state.
    unfold run, setitem. norm_state. done.
  - rewrite lookup_insert_ne by (apply (key_ne KEY Hkeys 8 6); done || lia).
    rewrite lookup_insert_ne by (apply (key_ne KEY Hkeys 7 6); done || lia).
    apply lookup_insert_eq.
  - by rewrite lookup_heap_new0.
  - rewrite lookup_insert_ne by (apply (key_ne KEY Hkeys 8 7); done || lia).
    apply lookup_insert_eq.
  - by rewrite lookup_heap_new.
  - apply lookup_insert_eq.
  - by rewrite lookup_heap_new.
  - intros p s0 Hrun.
    destruct (forward_post KEY Hkeys p s0 s Hrun)
      as (lv' & ll & v & n & Hdv & Hhv & Hdl & Hhl & Hn).
    simplify_eq. exists ll. split; [done|].
    rewrite Hhl. f_equal. cbn in Hn. by simplify_eq.
Qed.

End embedding.

(** ** The sample input meets the hypotheses *)

Section example_facts.
Local Open Scope R_scope.

Lemma example_keys_distinct : keys_distinct example_keys.
Proof.
  unfold keys_distinct.
  apply (bool_decide_unpack (NoDup (key_list example_keys))).
  vm_compute. exact I.
Qed.

Lemma example_graph_input :
  graph_input example_keys true example_data true false false
    example_pos example_shifts [example_cell] [0; 0]%nat [0%nat] [1%nat].
Proof.
  split.
  - exists 0%nat, (FloatT false (S2 (mat_rows example_cell))).
    split_and!; reflexivity.
  - exists 1%nat. split; reflexivity.
  - exists 2%nat. split; reflexivity.
  - exists 3%nat. split; [reflexivity|]. intros _. reflexivity.
  - exists 4%nat, (LongT (SM 1 [[0]; [1]]%Z)). split_and!; reflexivity.
  - reflexivity.
  - reflexivity.
  - repeat constructor.
  - repeat constructor.
  - intros _. split; [reflexivity|repeat constructor].
Qed.

Lemma example_bessel_init : BesselBasis.__init__ 2 2 true = Ok example_bessel.
Proof.
  unfold BesselBasis.__init__. destruct (Req_dec_T 2 0) as [E|_]; [lra|].
  reflexivity.
Qed.

Lemma example_norm_positive : 0 < norm3 (1.5, 0, 0).
Proof. unfold norm3. apply sqrt_lt_R0. lra. Qed.

(** The bond of the sample has length 1.5, and the envelope weighs it
    strictly between 0 and 1. *)
Example example_edge_length : norm3 (1.5, 0, 0) = 1.5.
Proof.
  unfold norm3. replace (1.5 * 1.5 + 0 * 0 + 0 * 0) with (1.5 * 1.5) by lra.
  apply sqrt_square. lra.
Qed.

Example example_envelope :
  ∃ w, PolynomialCutoff.forward_elem example_cutoff 1.5 = Some w ∧ 0 < w < 1.
Proof.
  eexists. split.
  - apply (polynomial_forward_nat 5 2 1.5 example_cutoff); [reflexivity|lra].
  - unfold poly_env. rewrite !S_INR. cbn [INR pow].
    replace (1.5 / 2) with 0.75 by lra. lra.
Qed.

End example_facts.

(** ** The claims at the sample input *)

Section witnesses.
Local Open Scope R_scope.

Lemma bessel_forward_analytic_witness :
  BesselBasis.__init__ 2 2 true = Ok example_bessel ∧
  0 < 1.5 ∧ (1 ≤ 1 ≤ 2)%Z ∧
  BesselBasis.forward_elem example_bessel 1.5 !! 0%nat
  = Some (Some (2 / 2 * sin (1 * PI * 1.5 / 2) / 1.5)).
Proof.
  assert (H1 := example_bessel_init).
  assert (H2 : 0 < 1.5) by lra.
  assert (H3 : (1 ≤ 1 ≤ 2)%Z) by lia.
  refine (conj H1 (conj H2 (conj H3 _))).
  exact (proj1 (proj2 (bessel_forward_analytic 2 2 true example_bessel 1.5 1
                         H1 H2 H3))).
Defined.

Lemma polynomial_cutoff_smooth_witness :
  PolynomialCutoff.__init__ 6 2 = Ok example_cutoff ∧
  (1 ≤ 6)%Z ∧ 0 < 2 ∧
  value_of (PolynomialCutoff.forward example_cutoff) 0 = 1 ∧
  value_of (PolynomialCutoff.forward example_cutoff) 2 = 0.
Proof.
  assert (H1 : PolynomialCutoff.__init__ 6 2 = Ok example_cutoff) by reflexivity.
  assert (H2 : (1 ≤ 6)%Z) by lia.
  assert (H3 : 0 < 2) by lra.
  pose proof (polynomial_cutoff_smooth 6 2 example_cutoff H1 H2 H3)
    as (_ & _ & _ & H0 & Hrc & _).
  exact (conj H1 (conj H2 (conj H3 (conj H0 Hrc)))).
Defined.

Lemma xplor_cutoff_values_witness :
  XPLORCutoff.__init__ 1 2
  = Ok {| XPLORCutoff.r_on := 1; XPLORCutoff.r_cut := 2 |} ∧
  0 < 1 < 2 ∧
  XPLORCutoff.forward
    {| XPLORCutoff.r_on := 1; XPLORCutoff.r_cut := 2 |} (FloatT false (S1 [2]))
  = Ok (FloatT false (S1 [0])).
Proof.
  assert (H1 : XPLORCutoff.__init__ 1 2
               = Ok {| XPLORCutoff.r_on := 1; XPLORCutoff.r_cut := 2 |})
    by reflexivity.
  assert (H2 : 0 < 1 < 2) by lra.
  refine (conj H1 (conj H2 _)).
  pose proof (xplor_cutoff_values 1 2 _ H1 H2) as (_ & _ & _ & _ & Hcut & _).
  exact (Hcut false).
Defined.

Lemma xplor_cutoff_continuous_at_on_witness :
  XPLORCutoff.__init__ 1 2
  = Ok {| XPLORCutoff.r_on := 1; XPLORCutoff.r_cut := 2 |} ∧
  0 < 1 < 2 ∧
  XPLORCutoff.forward
    {| XPLORCutoff.r_on := 1; XPLORCutoff.r_cut := 2 |} (FloatT false (S1 [1]))
  = Ok (FloatT false (S1 [1])).
Proof.
  assert (H1 : XPLORCutoff.__init__ 1 2
               = Ok {| XPLORCutoff.r_on := 1; XPLORCutoff.r_cut := 2 |})
    by reflexivity.
  assert (H2 : 0 < 1 < 2) by lra.
  refine (conj H1 (conj H2 _)).
  pose proof (xplor_cutoff_continuous_at_on 1 2 _ H1 H2) as (_ & _ & Hon & _).
  exact (Hon false).
Defined.

Lemma constructors_do_not_validate_witness :
  (0 ≤ 0)%Z ∧ 1 ≠ 0 ∧
  BesselBasis.__init__ 0 1 true
  = Ok {| BesselBasis.num_basis := 0;
          BesselBasis.prefactor := 2 / 1;
          BesselBasis.coeffs := [];
          BesselBasis.coeffs_requires_grad := true |}.
Proof.
  assert (H1 : (0 ≤ 0)%Z) by lia.
  assert (H2 : 1 ≠ 0) by lra.
  refine (conj H1 (conj H2 _)).
  exact (proj1 (proj2 constructors_do_not_validate) 0%Z 1 true H1 H2).
Defined.

Lemma preprocess_without_stress_witness :
  keys_distinct example_keys ∧
  graph_input example_keys true example_data true false false
    example_pos example_shifts [example_cell] [0; 0]%nat [0%nat] [1%nat] ∧
  ∃ s' lv ev,
    run (EdgePreprocess.forward example_keys
           {| EdgePreprocess.is_stress := false;
              EdgePreprocess._is_batch_data := true |}) example_data
    = Ok ((), s') ∧
    s'.(dict) !! "edge_vec" = Some lv ∧
    s'.(heap) !! lv = Some (FloatT true (S2 ev)) ∧
    ev !! 0%nat
    = Some (vadd (vsub (1.5, 0, 0) (0, 0, 0)) (vecmat (0, 0, 0) example_cell)) ∧
    s'.(dict) !! "_strain" = None.
Proof.
  split; [exact example_keys_distinct|]. split; [exact example_graph_input|].
  destruct (preprocess_without_stress example_keys true example_data
              true false false example_pos example_shifts [example_cell]
              [0; 0]%nat [0%nat] [1%nat]
              example_keys_distinct example_graph_input)
    as (s' & lv & ll & ev & Hrun & Hdv & Hhv & _ & _ & _ & Hedge & Hstrain).
  exists s', lv, ev.
  destruct (Hedge 0%nat 0%nat 1%nat (0, 0, 0) eq_refl eq_refl eq_refl)
    as (pi & pj & g & c & Hpi & Hpj & Hg & Hc & Hev).
  injection Hpi as <-. injection Hpj as <-. injection Hg as <-.
  injection Hc as <-.
  exact (conj Hrun (conj Hdv (conj Hhv (conj Hev Hstrain)))).
Defined.

Lemma preprocess_with_stress_witness :
  keys_distinct example_keys ∧
  graph_input example_keys true example_data true false false
    example_pos example_shifts [example_cell] [0; 0]%nat [0%nat] [1%nat] ∧
  example_data.(dict) !! "pos" = Some 2%nat ∧
  example_data.(dict) !! "pbc_shift" = Some 1%nat ∧
  example_data.(dict) !! "batch" = Some 3%nat ∧
  ([0; 0]%nat ≠ [] ∧ length [example_cell] = S (max_list [0; 0]%nat)) ∧
  ∃ s',
    run (EdgePreprocess.forward example_keys
           {| EdgePreprocess.is_stress := true;
              EdgePreprocess._is_batch_data := true |}) example_data
    = Ok ((), s') ∧
    s'.(dict) !! "_strain" = Some 6%nat ∧
    s'.(heap) !! 6%nat = Some (FloatT true (S3 [zero_mat])).
Proof.
  assert (Hb : [0; 0]%nat ≠ [] ∧ length [example_cell] = S (max_list [0; 0]%nat))
    by (split; [discriminate|reflexivity]).
  split; [exact example_keys_distinct|]. split; [exact example_graph_input|].
  split; [reflexivity|]. split; [reflexivity|]. split; [reflexivity|].
  split; [exact Hb|].
  destruct (preprocess_with_stress example_keys true example_data
              true false false example_pos example_shifts [example_cell]
              [0; 0]%nat [0%nat] [1%nat] 2%nat 1%nat 3%nat
              example_keys_distinct example_graph_input
              eq_refl eq_refl eq_refl (λ _, Hb))
    as (cellv & s' & lv & Hrun & _ & Hds & Hhs & _).
  exists s'. exact (conj Hrun (conj Hds Hhs)).
Defined.

Lemma preprocess_keeps_inputs_witness :
  keys_distinct example_keys ∧
  ∃ s',
    run (EdgePreprocess.forward example_keys
           {| EdgePreprocess.is_stress := false;
              EdgePreprocess._is_batch_data := true |}) example_data
    = Ok ((), s') ∧
    s'.(dict) !! "pos" = Some 2%nat ∧
    s'.(heap) !! 2%nat = Some (FloatT true (S2 example_pos)).
Proof.
  split; [exact example_keys_distinct|].
  destruct (run_forward_no_stress example_keys true example_data
              true false false example_pos example_shifts [example_cell]
              [0; 0]%nat [0%nat] [1%nat] example_graph_input)
    as [cellv Hrun].
  eexists. split; [exact Hrun|].
  exact (proj2 (proj2 (proj2
    (preprocess_keeps_inputs example_keys _ example_data _
       example_keys_distinct Hrun))) "pos" 2%nat
    (FloatT true (S2 example_pos)) (or_introl eq_refl) eq_refl eq_refl).
Defined.

Lemma preprocess_reads_batch_witness :
  example_data_no_batch.(dict) !! "batch" = None ∧
  run (EdgePreprocess.forward example_keys
         {| EdgePreprocess.is_stress := false;
            EdgePreprocess._is_batch_data := false |}) example_data_no_batch
  = Err (KeyError "batch").
Proof.
  split; [reflexivity|].
  exact (proj2 (preprocess_reads_batch example_keys
                  {| EdgePreprocess.is_stress := false;
                     EdgePreprocess._is_batch_data := false |}
                  example_data_no_batch eq_refl)
           0%nat (FloatT false (S2 (mat_rows example_cell))) 1%nat 2%nat
           (FloatT false (S2 (mat_rows example_cell)))
           eq_refl eq_refl eq_refl eq_refl eq_refl).
Defined.

Lemma edge_embedding_forward_witness :
  keys_distinct example_keys ∧
  example_edges.(dict) !! "edge_vec" = Some 0%nat ∧
  example_edges.(heap) !! 0%nat = Some (FloatT true (S2 [(1.5, 0, 0)])) ∧
  ∃ s' ll le v,
    run (EdgeEmbedding.forward example_keys example_embedding) example_edges
    = Ok ((), s') ∧
    s'.(dict) !! "edge_length" = Some ll ∧
    s'.(heap) !! ll = Some (FloatT true (S1 [norm3 (1.5, 0, 0)])) ∧
    s'.(dict) !! "edge_embedding" = Some le ∧
    s'.(heap) !! le = Some v.
Proof.
  assert (Hne : Forall (λ r, r ≠ 0) [norm3 (1.5, 0, 0)]).
  { constructor; [|constructor]. pose proof example_norm_positive. lra. }
  assert (H2 : (2 : R) ≠ 0) by lra.
  refine (conj example_keys_distinct (conj eq_refl (conj eq_refl _))).
  pose (rows := (λ r, (λ c, BesselBasis.prefactor example_bessel
                              * sin (c * r) / r)
                        <$> BesselBasis.coeffs example_bessel)
                  <$> [norm3 (1.5, 0, 0)]).
  assert (Hrows : Forall (λ row : list R, length row = 2%nat) rows).
  { constructor; [reflexivity|constructor]. }
  destruct (edge_embedding_forward example_keys example_embedding example_edges
              0%nat true (true || true) true [(1.5, 0, 0)]
              (mk_2d 2 rows) 2%nat rows
              (poly_env 5 2 <$> [norm3 (1.5, 0, 0)])
              (FloatT false (SM 1 [[1]]))
              example_keys_distinct eq_refl eq_refl
              (bessel_forward_tensor example_bessel true _ Hne)
              eq_refl eq_refl Hrows
              (polynomial_forward_tensor 5 2 example_cutoff true _ eq_refl H2)
              eq_refl eq_refl)
    as (s' & ll & le & la & Hrun & Hdl & Hhl & Hde & Hhe & _).
  eexists s', ll, le, _.
  exact (conj Hrun (conj Hdl (conj Hhl (conj Hde Hhe)))).
Defined.

(** A cutoff that switches on beyond the cutoff length and a basis without
    functions are both constructed without an exception. *)
Lemma invalid_configuration_accepted :
  2 >= 1 ∧
  (∀ e, XPLORCutoff.__init__ 2 1 ≠ Err e) ∧
  (0 ≤ 0)%Z ∧
  (∀ e, BesselBasis.__init__ 0 1 true ≠ Err e).
Proof.
  split; [lra|]. split; [discriminate|]. split; [lia|].
  intros e. unfold BesselBasis.__init__.
  destruct (Req_dec_T 1 0) as [E|_]; [lra|discriminate].
Qed.

End witnesses.

(** * The radial modules where they divide by zero *)

Section degenerate_window.
Local Open Scope R_scope.

Lemma xplor_degenerate_elem (c r : R) :
  XPLORCutoff.forward_elem {| XPLORCutoff.r_on := c; XPLORCutoff.r_cut := c |} r
  = if Rlt_dec r c then Some 1 else None.
Proof.
  unfold XPLORCutoff.forward_elem. cbn [XPLORCutoff.r_on XPLORCutoff.r_cut].
  destruct (Rlt_dec r c); [done|].
  unfold fdiv. destruct (Req_dec_T _ 0) as [_|Hne]; [done|].
  exfalso. apply Hne. ring.
Qed.

(** Property X3.  A switching window built with
    [cutoff_on = cutoff_length] divides by zero from that radius on:
    [forward] returns [1] for every length below it, and for a tensor with a
    length at or beyond it the result is not finite. *)
Theorem xplor_cutoff_degenerate (c : R) (self : XPLORCutoff.t) (g : bool)
    (rs : list R) :
  XPLORCutoff.__init__ c c = Ok self →
  (Forall (λ r, r < c) rs →
   XPLORCutoff.forward self (FloatT g (S1 rs))
   = Ok (FloatT g (S1 ((λ _, 1) <$> rs)))) ∧
  (Exists (λ r, c <= r) rs →
   XPLORCutoff.forward self (FloatT g (S1 rs)) = Err NotFinite) ∧
  (∀ r, r < c → XPLORCutoff.forward_elem self r = Some 1) ∧
  (∀ r, c <= r → XPLORCutoff.forward_elem self r = None).
Proof.
  intros [= <-]. split_and!.
  - intros Hrs. unfold XPLORCutoff.forward.
    erewrite mapM_Some_fmap; [done|].
    eapply Forall_impl; [exact Hrs|]. intros r Hr. cbn beta.
    rewrite xplor_degenerate_elem. by destruct (Rlt_dec r c).
  - intros Hrs. unfold XPLORCutoff.forward.
    assert (Hnone : mapM (XPLORCutoff.forward_elem
                            {| XPLORCutoff.r_on := c; XPLORCutoff.r_cut := c |})
                      rs = None).
    { apply mapM_None. eapply Exists_impl; [exact Hrs|]. intros r Hr.
      cbn beta. rewrite xplor_degenerate_elem.
      destruct (Rlt_dec r c); [lra|done]. }
    by rewrite Hnone.
  - intros r Hr. rewrite xplor_degenerate_elem. by destruct (Rlt_dec r c).
  - intros r Hr. rewrite xplor_degenerate_elem.
    destruct (Rlt_dec r c); [lra|done].
Qed.

End degenerate_window.

Section basis_ends.
Local Open Scope R_scope.

Lemma bessel_row_zero (self : BesselBasis.t) (c : R) :
  fdiv (self.(BesselBasis.prefactor) * sin (c * 0)) 0 = None.
Proof. unfold fdiv. destruct (Req_dec_T 0 0); done. Qed.

Lemma bessel_forward_zero (self : BesselBasis.t) (g : bool) (rs : list R) :
  0 ∈ rs → self.(BesselBasis.coeffs) ≠ [] →
  BesselBasis.forward self (FloatT g (S1 rs)) = Err NotFinite.
Proof.
  intros Hin Hco. unfold BesselBasis.forward.
  assert (Hnone : mapM (λ x, mapM (λ o : option R, o)
                               (BesselBasis.forward_elem self x)) rs = None).
  { apply mapM_None. apply Exists_exists. exists 0. split; [done|].
    unfold BesselBasis.forward_elem.
    destruct (BesselBasis.coeffs self) as [|c cs]; [done|].
    cbn. by rewrite bessel_row_zero. }
  by rewrite Hnone.
Qed.

(** Property X5.  Nothing guards the division by the length: at [r = 0] no
    entry of the row of a [BesselBasis] is a finite number, and [forward] on a
    tensor of lengths that holds a zero has no finite result when there is at
    least one basis function. *)
Theorem bessel_not_finite_at_zero (self : BesselBasis.t) (g : bool)
    (rs : list R) :
  Forall (λ o, o = None) (BesselBasis.forward_elem self 0) ∧
  (0 ∈ rs → self.(BesselBasis.coeffs) ≠ [] →
   BesselBasis.forward self (FloatT g (S1 rs)) = Err NotFinite).
Proof.
  split.
  - unfold BesselBasis.forward_elem. apply Forall_fmap, Forall_true.
    intros c. apply bessel_row_zero.
  - apply bessel_forward_zero.
Qed.

End basis_ends.

(** * Further properties of the edge geometry *)

Section geometry_values.
Import EdgePreprocess.
Local Open Scope R_scope.

(** What the call without stress stores, as values. *)
Lemma forward_no_stress_values (KEY : keys) (batch_mode : bool) (s : state)
    (gp gs gc : bool) (pos shifts : list (vec3 R)) (cells : list (mat3 R))
    (batch src dst : list nat) :
  keys_distinct KEY →
  graph_input KEY batch_mode s gp gs gc pos shifts cells batch src dst →
  let ev := edge_vectors pos cells shifts (owners batch_mode batch src) src dst in
  ∃ s',
    run (forward KEY {| is_stress := false; _is_batch_data := batch_mode |}) s
    = Ok ((), s') ∧
    value_at s' KEY.(EDGE_VEC) = Some (FloatT (gp || gs || gc) (S2 ev)) ∧
    value_at s' KEY.(EDGE_LENGTH)
    = Some (FloatT (gp || gs || gc) (S1 (norm3 <$> ev))).
Proof.
  intros Hkeys Hin ev.
  destruct (run_forward_no_stress KEY batch_mode s gp gs gc pos shifts cells
              batch src dst Hin) as [cellv Hrun].
  eexists. split; [exact Hrun|].
  assert (Hg : gp || gp || (gs || gc) = gp || gs || gc)
    by (destruct gp, gs, gc; done).
  unfold value_at. cbn [heap dict]. split.
  - rewrite lookup_insert_ne by (apply (key_ne KEY Hkeys 6 5); done || lia).
    rewrite lookup_insert_eq. cbn. rewrite lookup_heap_new. cbn.
    by rewrite Hg.
  - rewrite lookup_insert_eq. cbn. rewrite lookup_heap_new. cbn.
    by rewrite Hg.
Qed.

Lemma edge_vectors_translated t pos cells shifts owner src dst :
  Forall (λ i, i < length pos)%nat src →
  Forall (λ i, i < length pos)%nat dst →
  edge_vectors ((λ p, vadd p t) <$> pos) cells shifts owner src dst
  = edge_vectors pos cells shifts owner src dst.
Proof.
  intros Hs Hd. unfold edge_vectors. rewrite !gather_fmap by done.
  f_equal.
  rewrite (zip_with_fmap_hom vsub vsub (λ p, vadd p t) (λ p, vadd p t)
             Datatypes.id).
  - apply list_fmap_id.
  - intros [[a b] c] [[x y] z]. destruct t as [[t1 t2] t3]. cbn.
    f_equal; [f_equal|]; lra.
Qed.

(** Property X6.  Without stress, moving every atom by the same vector
    changes neither the edge vectors nor the edge lengths the call stores.
    (There is at least one cell: [view(-1, 3, 3)] of an empty tensor is
    ambiguous.) *)
Theorem preprocess_translation_invariant (KEY : keys) (batch_mode : bool)
    (s s2 : state) (gp gs gc : bool) (t : vec3 R)
    (pos shifts : list (vec3 R)) (cells : list (mat3 R))
    (batch src dst : list nat) :
  keys_distinct KEY →
  graph_input KEY batch_mode s gp gs gc pos shifts cells batch src dst →
  graph_input KEY batch_mode s2 gp gs gc ((λ p, vadd p t) <$> pos) shifts
    cells batch src dst →
  cells ≠ [] →
  let self := {| is_stress := false; _is_batch_data := batch_mode |} in
  ∃ s' s2' v r,
    run (forward KEY self) s = Ok ((), s') ∧
    run (forward KEY self) s2 = Ok ((), s2') ∧
    value_at s' KEY.(EDGE_VEC) = Some v ∧
    value_at s2' KEY.(EDGE_VEC) = Some v ∧
    value_at s' KEY.(EDGE_LENGTH) = Some r ∧
    value_at s2' KEY.(EDGE_LENGTH) = Some r.
Proof.
  intros Hkeys Hin Hin2 _ self.
  destruct (forward_no_stress_values KEY batch_mode s gp gs gc pos shifts
              cells batch src dst Hkeys Hin) as (s' & Hrun & Hv & Hl).
  destruct (forward_no_stress_values KEY batch_mode s2 gp gs gc _ shifts
              cells batch src dst Hkeys Hin2) as (s2' & Hrun2 & Hv2 & Hl2).
  rewrite edge_vectors_translated in Hv2, Hl2
    by (destruct Hin; done).
  by eexists s', s2', _, _.
Qed.

(** *** Rotations *)

Lemma vecmat_vsub u v m : vecmat (vsub u v) m = vsub (vecmat u m) (vecmat v m).
Proof.
  destruct u as [[a b] c], v as [[x y] z],
    m as [[[[m1 m2] m3] [[m4 m5] m6]] [[m7 m8] m9]].
  cbn. f_equal; [f_equal|]; lra.
Qed.

Lemma vecmat_vadd u v m : vecmat (vadd u v) m = vadd (vecmat u m) (vecmat v m).
Proof.
  destruct u as [[a b] c], v as [[x y] z],
    m as [[[[m1 m2] m3] [[m4 m5] m6]] [[m7 m8] m9]].
  cbn. f_equal; [f_equal|]; lra.
Qed.

Lemma vecmat_matmul u c m : vecmat u (matmul c m) = vecmat (vecmat u c) m.
Proof.
  destruct u as [[a b] d], c as [[[[c1 c2] c3] [[c4 c5] c6]] [[c7 c8] c9]],
    m as [[[[m1 m2] m3] [[m4 m5] m6]] [[m7 m8] m9]].
  cbn. f_equal; [f_equal|]; lra.
Qed.

Lemma norm3_orthogonal Q v : orthogonal Q → norm3 (vecmat v Q) = norm3 v.
Proof.
  destruct v as [[x y] z], Q as [[[[a b] c] [[d e] f]] [[g h] i]].
  unfold orthogonal, scaled_identity. cbn. intros HQ.
  injection HQ as H11 H12 H13 H21 H22 H23 H31 H32 H33.
  f_equal.
  transitivity
    (x * x * (a * a + b * b + c * c) + y * y * (d * d + e * e + f * f)
     + z * z * (g * g + h * h + i * i)
     + 2 * x * y * (a * d + b * e + c * f)
     + 2 * x * z * (a * g + b * h + c * i)
     + 2 * y * z * (d * g + e * h + f * i)); [ring|].
  rewrite H11, H22, H33, H12, H13, H23. ring.
Qed.

Lemma edge_vectors_rotated Q pos cells shifts owner src dst :
  Forall (λ i, i < length pos)%nat src →
  Forall (λ i, i < length pos)%nat dst →
  Forall (λ g, g < length cells)%nat owner →
  edge_vectors ((λ p, vecmat p Q) <$> pos) ((λ c, matmul c Q) <$> cells)
    shifts owner src dst
  = (λ v, vecmat v Q) <$> edge_vectors pos cells shifts owner src dst.
Proof.
  intros Hs Hd Ho. unfold edge_vectors.
  rewrite !gather_fmap by done.
  rewrite (zip_with_fmap_hom vsub vsub (λ p, vecmat p Q) (λ p, vecmat p Q)
             (λ p, vecmat p Q))
    by (intros; symmetry; apply vecmat_vsub).
  rewrite <- (list_fmap_id shifts) at 1.
  rewrite (zip_with_fmap_hom vecmat vecmat Datatypes.id (λ c, matmul c Q)
             (λ p, vecmat p Q))
    by (intros; apply vecmat_matmul).
  apply zip_with_fmap_hom. intros. symmetry. apply vecmat_vadd.
Qed.

Lemma graph_input_mode KEY (batch_mode : bool) s gp gs gc pos shifts cells
    (batch src dst : list nat) :
  graph_input KEY batch_mode s gp gs gc pos shifts cells batch src dst →
  if batch_mode then
    length batch = length pos ∧ Forall (λ g, g < length cells)%nat batch
  else length cells = 1%nat.
Proof.
  intros [(l & t & _ & _ & Hc) _ _ _ _ _ _ _ _ Hb].
  destruct batch_mode; [by apply Hb|]. by destruct Hc as (c & -> & _).
Qed.

(** Property X7.  Without stress, turning the structure by an orthogonal
    matrix [Q] (every position and every cell vector multiplied by [Q] on the
    right) turns every stored edge vector by [Q] and leaves the stored edge
    lengths as they were. *)
Theorem preprocess_rotation_equivariant (KEY : keys) (batch_mode : bool)
    (s s2 : state) (gp gs gc : bool) (Q : mat3 R)
    (pos shifts : list (vec3 R)) (cells : list (mat3 R))
    (batch src dst : list nat) :
  keys_distinct KEY →
  orthogonal Q →
  graph_input KEY batch_mode s gp gs gc pos shifts cells batch src dst →
  graph_input KEY batch_mode s2 gp gs gc ((λ p, vecmat p Q) <$> pos) shifts
    ((λ c, matmul c Q) <$> cells) batch src dst →
  cells ≠ [] →
  let self := {| is_stress := false; _is_batch_data := batch_mode |} in
  ∃ s' s2' g ev r,
    run (forward KEY self) s = Ok ((), s') ∧
    run (forward KEY self) s2 = Ok ((), s2') ∧
    value_at s' KEY.(EDGE_VEC) = Some (FloatT g (S2 ev)) ∧
    value_at s2' KEY.(EDGE_VEC)
    = Some (FloatT g (S2 ((λ v, vecmat v Q) <$> ev))) ∧
    value_at s' KEY.(EDGE_LENGTH) = Some r ∧
    value_at s2' KEY.(EDGE_LENGTH) = Some r.
Proof.
  intros Hkeys HQ Hin Hin2 _ self.
  destruct (forward_no_stress_values KEY batch_mode s gp gs gc pos shifts
              cells batch src dst Hkeys Hin) as (s' & Hrun & Hv & Hl).
  destruct (forward_no_stress_values KEY batch_mode s2 gp gs gc _ shifts
              _ batch src dst Hkeys Hin2) as (s2' & Hrun2 & Hv2 & Hl2).
  pose proof (graph_input_mode _ _ _ _ _ _ _ _ _ _ _ _ Hin) as Hm.
  rewrite edge_vectors_rotated in Hv2, Hl2
    by (first [by destruct Hin
              | apply (owners_range batch_mode batch src pos cells);
                [by destruct Hin|done]]).
  rewrite <- list_fmap_compose in Hl2.
  rewrite (list_fmap_ext (norm3 ∘ (λ v, vecmat v Q)) norm3) in Hl2
    by (intros ?? _; by apply norm3_orthogonal).
  by eexists s', s2', _, _, _.
Qed.

(** *** Reversed edges *)

Lemma vneg_reverse pi pj sh c :
  vadd (vsub pi pj) (vecmat (vneg sh) c)
  = vneg (vadd (vsub pj pi) (vecmat sh c)).
Proof.
  destruct pi as [[a b] d], pj as [[x y] z], sh as [[s1 s2] s3],
    c as [[[[c1 c2] c3] [[c4 c5] c6]] [[c7 c8] c9]].
  cbn. f_equal; [f_equal|]; lra.
Qed.

Lemma norm3_vneg v : norm3 (vneg v) = norm3 v.
Proof. destruct v as [[x y] z]. cbn. f_equal. ring. Qed.

Lemma edge_vectors_reversed pos cells shifts owner src dst :
  edge_vectors pos cells (vneg <$> shifts) owner dst src
  = vneg <$> edge_vectors pos cells shifts owner src dst.
Proof.
  unfold edge_vectors.
  generalize (gather pos dst) (gather pos src) (gather cells owner).
  intros a. revert shifts. induction a as [|pj a IH];
    intros [|sh shifts] [|pi b] [|c cs]; cbn; try done.
  rewrite IH. f_equal. apply vneg_reverse.
Qed.

(** Property X8.  Without stress, the reverse of a list of edges (source and
    destination swapped, every cell shift negated), with both ends of every
    edge in the same graph, gets the negated edge vectors and the same edge
    lengths. *)
Theorem preprocess_reversed_edges (KEY : keys) (batch_mode : bool)
    (s s2 : state) (gp gs gc : bool)
    (pos shifts : list (vec3 R)) (cells : list (mat3 R))
    (batch src dst : list nat) :
  keys_distinct KEY →
  graph_input KEY batch_mode s gp gs gc pos shifts cells batch src dst →
  graph_input KEY batch_mode s2 gp gs gc pos (vneg <$> shifts) cells batch
    dst src →
  cells ≠ [] →
  (batch_mode = true → gather batch dst = gather batch src) →
  let self := {| is_stress := false; _is_batch_data := batch_mode |} in
  ∃ s' s2' g ev r,
    run (forward KEY self) s = Ok ((), s') ∧
    run (forward KEY self) s2 = Ok ((), s2') ∧
    value_at s' KEY.(EDGE_VEC) = Some (FloatT g (S2 ev)) ∧
    value_at s2' KEY.(EDGE_VEC) = Some (FloatT g (S2 (vneg <$> ev))) ∧
    value_at s' KEY.(EDGE_LENGTH) = Some r ∧
    value_at s2' KEY.(EDGE_LENGTH) = Some r.
Proof.
  intros Hkeys Hin Hin2 _ Hsame self.
  destruct (forward_no_stress_values KEY batch_mode s gp gs gc pos shifts
              cells batch src dst Hkeys Hin) as (s' & Hrun & Hv & Hl).
  destruct (forward_no_stress_values KEY batch_mode s2 gp gs gc _ _
              _ batch dst src Hkeys Hin2) as (s2' & Hrun2 & Hv2 & Hl2).
  assert (Ho : owners batch_mode batch dst = owners batch_mode batch src).
  { unfold owners. destruct batch_mode; [by apply Hsame|].
    apply list_eq_same_length with (length src).
    - by rewrite length_fmap.
    - rewrite length_fmap. by destruct Hin.
    - intros i x y _. rewrite !list_lookup_fmap.
      destruct (dst !! i), (src !! i); naive_solver. }
  rewrite Ho, edge_vectors_reversed in Hv2, Hl2.
  rewrite <- list_fmap_compose in Hl2.
  rewrite (list_fmap_ext (norm3 ∘ vneg) norm3) in Hl2
    by (intros ?? _; apply norm3_vneg).
  by eexists s', s2', _, _, _.
Qed.

End geometry_values.

(** * How [EdgePreprocess.forward] fails *)

Section run_errors.
Context {A B : Type}.

Lemma run_bind_Err (m : M A) (f : A → M B) s e :
  run m s = Err e → run (m ≫= f) s = Err e.
Proof. intros E. by rewrite run_bind, E. Qed.

Lemma run_getitem_missing k s :
  s.(dict) !! k = None → run (getitem k) s = Err (KeyError k).
Proof. intros E. unfold run, getitem. by rewrite E. Qed.

End run_errors.

Lemma run_eval_Err (r : result tensor) (e : error) s :
  r = Err e → run (eval r) s = Err e.
Proof. by intros ->. Qed.

Section preprocess_errors.
Import EdgePreprocess.
Variable KEY : keys.

Lemma view_33_numel {A} (v : shaped A) :
  length (flat v) ≠ 9 → view_33 v = Err RuntimeError.
Proof.
  unfold view_33. intros H.
  destruct (flat v) as [|? [|? [|? [|? [|? [|? [|? [|? [|? [|??]]]]]]]]]];
    cbn in H; done || lia.
Qed.

Lemma view_n33_numel {A} (v : shaped A) :
  length (flat v) `mod` 9 ≠ 0 → view_n33 v = Err RuntimeError.
Proof. intros H. unfold view_n33. by rewrite decide_False. Qed.

(** Property X9.  A cell whose number of elements is not a multiple of nine
    in batch mode, or not nine otherwise, makes the call raise a
    [RuntimeError], whatever else the dictionary holds. *)
Theorem preprocess_cell_not_reshapable (self : t) (s : state) (lc : nat)
    (tc : tensor) :
  s.(dict) !! KEY.(CELL) = Some lc →
  s.(heap) !! lc = Some tc →
  (if self.(_is_batch_data) then numel tc `mod` 9 ≠ 0 else numel tc ≠ 9) →
  run (forward KEY self) s = Err RuntimeError.
Proof.
  intros Hd Hh Hn. unfold forward. apply run_bind_Err.
  repeat mstep.
  destruct (_is_batch_data self); apply run_eval_Err;
    destruct tc as [g v|v]; cbn [numel] in Hn;
    cbn [t_view_n33 t_view_33 lift_shape];
    by rewrite ?view_n33_numel, ?view_33_numel by done.
Qed.

(** Property X10.  The call reads [CELL], [CELL_SHIFT], [POS] and, at the
    end, [EDGE_IDX] in this order: the first of them that is missing is the
    key of the [KeyError], given a cell that is not empty and reshapes. *)
Theorem preprocess_missing_key (self : t) (s : state) :
  (s.(dict) !! KEY.(CELL) = None →
   run (forward KEY self) s = Err (KeyError KEY.(CELL))) ∧
  (∀ lc tc v,
     s.(dict) !! KEY.(CELL) = Some lc → s.(heap) !! lc = Some tc →
     numel tc ≠ 0%nat →
     (if self.(_is_batch_data) then t_view_n33 tc else t_view_33 tc) = Ok v →
     (s.(dict) !! KEY.(CELL_SHIFT) = None →
      run (forward KEY self) s = Err (KeyError KEY.(CELL_SHIFT))) ∧
     (∀ ls, s.(dict) !! KEY.(CELL_SHIFT) = Some ls →
        (s.(dict) !! KEY.(POS) = None →
         run (forward KEY self) s = Err (KeyError KEY.(POS))) ∧
        (∀ lp lb, s.(dict) !! KEY.(POS) = Some lp →
           s.(dict) !! KEY.(BATCH) = Some lb →
           self.(is_stress) = false →
           s.(dict) !! KEY.(EDGE_IDX) = None →
           run (forward KEY self) s = Err (KeyError KEY.(EDGE_IDX))))).
Proof.
  split.
  { intros Hc. unfold forward. apply run_bind_Err, run_bind_Err.
    by apply run_getitem_missing. }
  intros lc tc v Hc Htc _ Hv.
  assert (Heval : ∀ {B} (f : nat → M B),
    run ((if _is_batch_data self then eval (t_view_n33 tc)
          else eval (t_view_33 tc)) ≫= f) s
    = run (f (length s.(heap)))
        {| heap := s.(heap) ++ [v]; dict := s.(dict) |}).
  { intros B f. destruct (_is_batch_data self);
      by erewrite run_bind_eval by exact Hv. }
  split; [|intros ls Hs; split].
  - intros Hs. unfold forward. repeat mstep. rewrite Heval.
    apply run_bind_Err. by apply run_getitem_missing.
  - intros Hp. unfold forward. repeat mstep. rewrite Heval. repeat mstep.
    apply run_bind_Err. by apply run_getitem_missing.
  - intros lp lb Hp Hb Hst He. unfold forward. repeat mstep. rewrite Heval.
    repeat mstep. rewrite Hst. repeat mstep.
    unfold edges. apply run_bind_Err, run_bind_Err.
    by apply run_getitem_missing.
Qed.

(** Property X11.  With stress on, in batch mode, an empty [BATCH] tensor
    makes the call raise a [RuntimeError]: there is no maximum to take. *)
Theorem preprocess_stress_empty_batch (self : t) (s : state)
    (lc ls lp lb : nat) (tc v : tensor) (vb : shaped Z) :
  self.(is_stress) = true → self.(_is_batch_data) = true →
  s.(dict) !! KEY.(CELL) = Some lc → s.(heap) !! lc = Some tc →
  t_view_n33 tc = Ok v →
  s.(dict) !! KEY.(CELL_SHIFT) = Some ls →
  s.(dict) !! KEY.(POS) = Some lp →
  s.(dict) !! KEY.(BATCH) = Some lb →
  s.(heap) !! lb = Some (LongT vb) → flat vb = [] →
  run (forward KEY self) s = Err RuntimeError.
Proof.
  intros Hst Hbm Hc Htc Hv Hs Hp Hb Hhb Hvb. unfold forward.
  rewrite Hst, Hbm. repeat mstep.
  erewrite run_bind_eval by exact Hv. norm_state. repeat mstep.
  unfold new_strain_batch. repeat mstep.
  apply run_bind_Err. unfold run, lift, max_item. by rewrite Hvb.
Qed.

Lemma run_requires_grad_long {B} l v (f : () → M B) s :
  s.(heap) !! l = Some (LongT v) →
  run (requires_grad_ l ≫= f) s = Err RuntimeError.
Proof. intros E. rewrite run_bind. unfold run, requires_grad_. by rewrite E. Qed.

(** Property X12.  With stress on, positions of an integer dtype make the
    call raise a [RuntimeError]: the strain takes the dtype of the positions,
    and only a float tensor can require a gradient. *)
Theorem preprocess_stress_integer_positions (self : t) (s : state)
    (lc ls lp lb : nat) (tc v : tensor) (vp vb : shaped Z) :
  self.(is_stress) = true →
  s.(dict) !! KEY.(CELL) = Some lc → s.(heap) !! lc = Some tc →
  (if self.(_is_batch_data) then t_view_n33 tc else t_view_33 tc) = Ok v →
  s.(dict) !! KEY.(CELL_SHIFT) = Some ls →
  s.(dict) !! KEY.(POS) = Some lp →
  s.(heap) !! lp = Some (LongT vp) →
  s.(dict) !! KEY.(BATCH) = Some lb →
  (self.(_is_batch_data) = true → s.(heap) !! lb = Some (LongT vb)) →
  run (forward KEY self) s = Err RuntimeError.
Proof.
  intros Hst Hc Htc Hv Hs Hp Hhp Hb Hhb. unfold forward. rewrite Hst.
  repeat mstep.
  destruct (_is_batch_data self).
  - specialize (Hhb eq_refl).
    erewrite run_bind_eval by exact Hv. norm_state. repeat mstep.
    unfold new_strain_batch. repeat mstep.
    destruct (flat vb) as [|x xs] eqn:Evb.
    { apply run_bind_Err. unfold run, lift, max_item. by rewrite Evb. }
    erewrite run_bind_lift by (unfold max_item; rewrite Evb; reflexivity).
    repeat mstep.
    destruct (foldr Z.max x xs + 1 <? 0)%Z eqn:En.
    { apply run_bind_Err, run_eval_Err. unfold zeros_n33. by rewrite En. }
    erewrite run_bind_eval by (unfold zeros_n33; rewrite En; reflexivity).
    norm_state. repeat mstep.
    eapply run_requires_grad_long. heap_lookup.
  - erewrite run_bind_eval by exact Hv. norm_state. repeat mstep.
    unfold new_strain_single. repeat mstep.
    rewrite run_bind_alloc. norm_state. repeat mstep.
    eapply run_requires_grad_long. heap_lookup.
Qed.

Lemma py_index_out_of_range {A} (l : list A) (i : Z) :
  out_of_range (length l) i → py_index l i = Err IndexError.
Proof.
  unfold out_of_range, py_index. intros H.
  destruct (Z.ltb_spec i 0).
  - rewrite (proj2 (andb_false_iff _ _)); [done|].
    destruct H; [left; apply Z.leb_gt; lia|lia].
  - rewrite (proj2 (andb_false_iff _ _)); [done|].
    right. apply Z.ltb_ge. lia.
Qed.

Lemma py_index_error {A} (l : list A) (i : Z) e :
  py_index l i = Err e → e = IndexError.
Proof.
  unfold py_index. repeat case_match; try discriminate; by intros [= <-].
Qed.

Lemma index_select_out_of_range {A} (l : list A) (idx : list Z) :
  Exists (out_of_range (length l)) idx → index_select l idx = Err IndexError.
Proof.
  induction idx as [|i idx IH]; intros H; [by apply Exists_nil in H|].
  cbn [index_select].
  destruct (py_index l i) as [x|e] eqn:Ei.
  - apply Exists_cons in H as [H|H].
    + by rewrite py_index_out_of_range in Ei.
    + cbn. by rewrite IH.
  - apply py_index_error in Ei as ->. done.
Qed.

Lemma index_select_error {A} (l : list A) (idx : list Z) e :
  index_select l idx = Err e → e = IndexError.
Proof.
  induction idx as [|i idx IH]; [done|]. cbn [index_select].
  destruct (py_index l i) as [x|e'] eqn:Ei.
  - cbn. destruct (index_select l idx) as [xs|e'']; [done|].
    cbn. intros [= <-]. by apply IH.
  - cbn. intros [= <-]. by apply py_index_error in Ei.
Qed.

(** Property X13.  Without stress, an edge whose source or destination
    index names no atom, from either end of the position list, makes the
    call raise an [IndexError]. *)
Theorem preprocess_index_out_of_range (self : t) (s : state)
    (lc ls lp lb le : nat) (tc v te : tensor) (gp : bool)
    (pos : list (vec3 R)) (src dst : list Z) :
  self.(is_stress) = false →
  s.(dict) !! KEY.(CELL) = Some lc → s.(heap) !! lc = Some tc →
  numel tc ≠ 0%nat →
  (if self.(_is_batch_data) then t_view_n33 tc else t_view_33 tc) = Ok v →
  s.(dict) !! KEY.(CELL_SHIFT) = Some ls →
  s.(dict) !! KEY.(POS) = Some lp →
  s.(heap) !! lp = Some (FloatT gp (S2 pos)) →
  s.(dict) !! KEY.(BATCH) = Some lb →
  s.(dict) !! KEY.(EDGE_IDX) = Some le → s.(heap) !! le = Some te →
  t_index_int 0 te = Ok (LongT (S1 src)) →
  t_index_int 1 te = Ok (LongT (S1 dst)) →
  Exists (out_of_range (length pos)) (dst ++ src) →
  run (forward KEY self) s = Err IndexError.
Proof.
  intros Hst Hc Htc _ Hv Hs Hp Hhp Hb He Hhe Hsrc Hdst Hex.
  unfold forward. rewrite Hst. repeat mstep.
  assert (Heval : ∀ {B} (f : nat → M B),
    run ((if _is_batch_data self then eval (t_view_n33 tc)
          else eval (t_view_33 tc)) ≫= f) s
    = run (f (length s.(heap)))
        {| heap := s.(heap) ++ [v]; dict := s.(dict) |}).
  { intros B f. destruct (_is_batch_data self);
      by erewrite run_bind_eval by exact Hv. }
  rewrite Heval. repeat mstep. unfold edges. repeat mstep.
  erewrite run_bind_eval by exact Hsrc. norm_state. repeat mstep.
  erewrite run_bind_eval by exact Hdst. norm_state. repeat mstep.
  apply run_bind_Err, run_eval_Err.
  unfold edge_vec_expr. cbn [t_index lift_shape index_rows].
  destruct (index_select pos dst) as [pd|e] eqn:Ed.
  - cbn. rewrite index_select_out_of_range; [done|].
    apply Exists_app in Hex as [Hex|Hex]; [|done].
    by rewrite index_select_out_of_range in Ed.
  - cbn. by apply index_select_error in Ed as ->.
Qed.

Lemma max_list_bound (l : list nat) : Forall (λ g, g < S (max_list l)) l.
Proof.
  apply Forall_forall. intros g Hg. apply max_list_elem_of_le in Hg. lia.
Qed.

Lemma strained_cell_batch_mismatch gc gS (cells syms : list (mat3 R)) :
  length cells ≠ length syms →
  strained_cell_batch (FloatT gc (S3 cells)) (FloatT gS (S3 syms))
  = Err RuntimeError.
Proof.
  intros Hl. unfold strained_cell_batch, t_bmm, zip_same.
  by rewrite decide_False.
Qed.

(** Property X14.  With stress on in batch mode the call needs exactly
    [max(batch) + 1] cells: on data that otherwise follows the schema, a cell
    tensor with more cells than that, as for a last graph without atoms,
    makes the call raise a [RuntimeError] at the batched product of cells
    and strain. *)
Theorem preprocess_stress_cell_count (s : state) (gp gs gc : bool)
    (pos shifts : list (vec3 R)) (cells : list (mat3 R))
    (batch src dst : list nat) :
  graph_input KEY true s gp gs gc pos shifts cells batch src dst →
  batch ≠ [] → length cells ≠ S (max_list batch) →
  run (forward KEY {| is_stress := true; _is_batch_data := true |}) s
  = Err RuntimeError.
Proof.
  intros [(lc & tc & Hdc & Hhc & Hview) (ls & Hds & Hhs) (lp & Hdp & Hhp)
          (lb & Hdb & Hhb) _ _ _ _ _ Hbr] Hne Hn.
  specialize (Hhb eq_refl). destruct (Hbr eq_refl) as [Hlb Hfb].
  destruct batch as [|b batch]; [done|].
  unfold forward. cbn [is_stress _is_batch_data]. repeat mstep.
  erewrite run_bind_eval by exact Hview. norm_state. repeat mstep.
  erewrite run_new_strain_batch; [|heap_lookup|heap_lookup].
  norm_state. unfold strained_batch. repeat mstep.
  erewrite run_bind_eval by apply sym_strain_expr_batch.
  norm_state. repeat mstep.
  erewrite run_bind_eval.
  2: { apply strained_pos_batch_value; [done|].
       rewrite length_fmap, length_replicate. apply max_list_bound. }
  norm_state. repeat mstep.
  apply run_bind_Err, run_eval_Err, strained_cell_batch_mismatch.
  by rewrite length_fmap, length_replicate.
Qed.

End preprocess_errors.

(** * The strain acts on every edge vector *)

Section strain_linear.
Import EdgePreprocess.
Local Open Scope R_scope.

Lemma strained_edge_algebra pi pj sh c E :
  vadd (vsub (vadd pj (vecmat pj E)) (vadd pi (vecmat pi E)))
       (vecmat sh (madd c (matmul c E)))
  = let v := vadd (vsub pj pi) (vecmat sh c) in vadd v (vecmat v E).
Proof.
  destruct pi as [[a b] d], pj as [[x y] z], sh as [[s1 s2] s3],
    c as [[[[c1 c2] c3] [[c4 c5] c6]] [[c7 c8] c9]],
    E as [[[[e1 e2] e3] [[e4 e5] e6]] [[e7 e8] e9]].
  cbn. f_equal; [f_equal|]; ring.
Qed.

Lemma strained_edge_vectors_linear syms (batch_mode : bool)
    (batch src dst : list nat) pos shifts cells :
  length dst = length src → length shifts = length src →
  Forall (λ i, i < length pos)%nat src →
  Forall (λ i, i < length pos)%nat dst →
  (if batch_mode then
     length batch = length pos ∧ Forall (λ g, g < length cells)%nat batch
   else length cells = 1%nat) →
  length syms = length cells →
  (batch_mode = true → gather batch dst = gather batch src) →
  let owner := owners batch_mode batch src in
  edge_vectors (strained_positions syms (atom_owners batch_mode batch pos) pos)
               (strained_cells syms cells) shifts owner src dst
  = zip_with (λ v g, vadd v (vecmat v (syms !!! g)))
      (edge_vectors pos cells shifts owner src dst) owner.
Proof.
  intros Hld Hls Hfs Hfd Hm Hsy Hsame owner.
  destruct (atom_owners_range batch_mode batch pos cells Hm) as [Hal Har].
  pose proof (owners_range batch_mode batch src pos cells Hfs Hm) as Hor.
  pose proof (owners_length batch_mode batch src) as Hol. fold owner in Hor, Hol.
  apply list_eq_same_length with (length src).
  - rewrite length_zip_with, edge_vectors_length by done. lia.
  - apply edge_vectors_length; [done..|].
    by rewrite strained_positions_length || done.
  - intros e x y He Hx Hy.
    destruct (lookup_lt_is_Some_2 src e He) as [i Hi].
    destruct (lookup_lt_is_Some_2 dst e ltac:(lia)) as [j Hj].
    destruct (lookup_lt_is_Some_2 shifts e ltac:(lia)) as [sh Hsh].
    destruct (lookup_lt_is_Some_2 owner e ltac:(lia)) as [g Hg].
    assert (Hil : (i < length pos)%nat) by (rewrite Forall_lookup in Hfs; eauto).
    assert (Hjl : (j < length pos)%nat) by (rewrite Forall_lookup in Hfd; eauto).
    assert (Hgl : (g < length cells)%nat) by (rewrite Forall_lookup in Hor; eauto).
    destruct (edge_vectors_lookup pos cells shifts owner src dst e i j g sh
                Hi Hj Hsh Hg Hil Hjl Hgl) as (pi & pj & c & Hpi & Hpj & Hc & Hev).
    destruct (lookup_lt_is_Some_2 syms g ltac:(lia)) as [E HE].
    assert (atom_owners batch_mode batch pos !! i = Some g ∧
            atom_owners batch_mode batch pos !! j = Some g) as [Hai Haj].
    { subst owner. unfold owners, atom_owners in *. destruct batch_mode.
      - destruct Hm as [Hlb _].
        rewrite <- (gather_lookup batch src e i Hi), Hg by lia.
        rewrite <- (gather_lookup batch dst e j Hj), Hsame, Hg by (done || lia).
        done.
      - rewrite list_lookup_fmap, Hi in Hg. injection Hg as <-.
        by rewrite !list_lookup_fmap, Hpi, Hpj. }
    rewrite lookup_zip_with, Hev, Hg in Hy. cbn in Hy. injection Hy as <-.
    unfold edge_vectors in Hx. rewrite !lookup_zip_with in Hx.
    rewrite (gather_lookup _ dst e j Hj) in Hx
      by (by rewrite strained_positions_length).
    rewrite (gather_lookup _ src e i Hi) in Hx
      by (by rewrite strained_positions_length).
    rewrite (gather_lookup _ owner e g Hg) in Hx
      by (by rewrite strained_cells_length).
    rewrite Hsh in Hx.
    unfold strained_positions, strained_cells in Hx.
    rewrite !lookup_zip_with, Hpi, Hpj, Hai, Haj, Hc, HE in Hx.
    cbn in Hx. injection Hx as <-.
    rewrite (list_lookup_total_correct _ _ _ HE).
    apply strained_edge_algebra.
Qed.

(** Property X15.  From the point where the strain variable exists, whatever
    strain [S] it holds, the call stores for every edge whose two ends are in
    one graph [g] the vector [v + v·E], with [v] the unstrained edge vector
    and [E = ½(S_g + S_gᵗ)]: positions and cell are strained alike, so the
    edge vector is. *)
Theorem strain_acts_on_edges (KEY : keys) (batch_mode : bool) (s : state)
    (lst lp lc ls lb le : nat) (te : tensor) (gp gs gc : bool)
    (pos shifts : list (vec3 R)) (cells strains : list (mat3 R))
    (batch src dst : list nat) :
  keys_distinct KEY →
  s.(heap) !! lst = Some (strain_tensor batch_mode strains) →
  length strains = length cells →
  s.(heap) !! lp = Some (FloatT gp (S2 pos)) →
  s.(heap) !! ls = Some (FloatT gs (S2 shifts)) →
  s.(dict) !! KEY.(EDGE_IDX) = Some le →
  s.(heap) !! le = Some te →
  t_index_int 0 te = Ok (LongT (S1 (Z.of_nat <$> src))) →
  t_index_int 1 te = Ok (LongT (S1 (Z.of_nat <$> dst))) →
  length dst = length src → length shifts = length src →
  Forall (λ i, i < length pos)%nat src →
  Forall (λ i, i < length pos)%nat dst →
  (if batch_mode then
     s.(heap) !! lc = Some (FloatT gc (S3 cells)) ∧
     s.(heap) !! lb = Some (LongT (S1 (Z.of_nat <$> batch))) ∧
     length batch = length pos ∧
     Forall (λ g, g < length cells)%nat batch ∧
     gather batch dst = gather batch src
   else ∃ c, cells = [c] ∧ s.(heap) !! lc = Some (FloatT gc (S2 (mat_rows c)))) →
  let owner := owners batch_mode batch src in
  let unstrained := edge_vectors pos cells shifts owner src dst in
  ∃ s',
    run (after_strain KEY {| is_stress := true; _is_batch_data := batch_mode |}
           lst lp lc ls lb) s = Ok ((), s') ∧
    value_at s' KEY.(EDGE_VEC)
    = Some (FloatT true
              (S2 (zip_with
                     (λ v g, vadd v (vecmat v ((msym <$> strains) !!! g)))
                     unstrained owner))).
Proof.
  intros Hkeys Hst Hlst Hp Hs He Hte Hsrc Hdst Hld Hls Hfs Hfd Hmode
    owner unstrained.
  destruct (run_after_strain KEY batch_mode s lst lp lc ls lb le te gp gs gc
              pos shifts cells batch src dst strains)
    as (t1 & t2 & t3 & t4 & t5 & t6 & Hrun); try done.
  { destruct batch_mode; [|done]. by destruct Hmode as (? & ? & ? & ? & _). }
  eexists. split; [exact Hrun|].
  unfold value_at. cbn [heap dict].
  rewrite lookup_insert_ne by (apply (key_ne KEY Hkeys 6 5); done || lia).
  rewrite lookup_insert_eq. cbn. rewrite lookup_heap_new. cbn.
  do 3 f_equal. apply strained_edge_vectors_linear; try done.
  - destruct batch_mode; [by destruct Hmode as (? & ? & ? & ? & _)|].
    by destruct Hmode as (c & -> & _).
  - by rewrite length_fmap.
  - intros ->. by destruct Hmode as (? & ? & ? & ? & ?).
Qed.

End strain_linear.

(** * [EdgeEmbedding.forward] as a whole *)

Section embedding_runs.
Import EdgeEmbedding.
Variable KEY : keys.

Lemma run_embedding (self : t) (s : state) (lv : nat) (v r emb attr : tensor) :
  s.(dict) !! KEY.(EDGE_VEC) = Some lv → s.(heap) !! lv = Some v →
  linalg_norm v = Ok r → embedding_expr self r = Ok emb →
  self.(spherical) v = Ok attr →
  run (forward KEY self) s = Ok ((), embedded KEY s r emb attr).
Proof.
  intros Hd Hh Hr He Ha. unfold forward. repeat mstep.
  erewrite run_bind_eval by exact Hr. norm_state. repeat mstep.
  erewrite run_bind_eval by exact He. norm_state. repeat mstep.
  erewrite run_bind_eval by exact Ha. norm_state.
  unfold run, setitem, embedded. norm_state. done.
Qed.

Lemma run_embedding_inv (self : t) (s s' : state) :
  run (forward KEY self) s = Ok ((), s') →
  ∃ lv v r emb attr,
    s.(dict) !! KEY.(EDGE_VEC) = Some lv ∧ s.(heap) !! lv = Some v ∧
    linalg_norm v = Ok r ∧ embedding_expr self r = Ok emb ∧
    self.(spherical) v = Ok attr ∧ s' = embedded KEY s r emb attr.
Proof.
  intros Hrun.
  destruct (dict s !! EDGE_VEC KEY) as [lv|] eqn:Hd.
  2: { unfold forward in Hrun. rewrite run_bind in Hrun.
       by rewrite run_getitem_missing in Hrun. }
  destruct (heap s !! lv) as [v|] eqn:Hh.
  2: { unfold forward in Hrun. revert Hrun.
       repeat mstep. rewrite run_bind. unfold run at 1, load.
       by rewrite Hh. }
  destruct (linalg_norm v) as [r|e] eqn:Hr.
  2: { unfold forward in Hrun. revert Hrun. repeat mstep.
       by rewrite (run_bind_Err _ _ _ e) by (by apply run_eval_Err). }
  destruct (embedding_expr self r) as [emb|e] eqn:He.
  2: { unfold forward in Hrun. revert Hrun. repeat mstep.
       erewrite run_bind_eval by exact Hr. norm_state. repeat mstep.
       by rewrite (run_bind_Err _ _ _ e) by (by apply run_eval_Err). }
  destruct (spherical self v) as [attr|e] eqn:Ha.
  2: { unfold forward in Hrun. revert Hrun. repeat mstep.
       erewrite run_bind_eval by exact Hr. norm_state. repeat mstep.
       erewrite run_bind_eval by exact He. norm_state. repeat mstep.
       by rewrite (run_bind_Err _ _ _ e) by (by apply run_eval_Err). }
  rewrite (run_embedding self s lv v r emb attr) in Hrun by done.
  injection Hrun as <-. by exists lv, v, r, emb, attr.
Qed.

Hypothesis Hkeys : keys_distinct KEY.

Lemma embedded_values (s : state) (lv : nat) (v r emb attr : tensor) :
  s.(dict) !! KEY.(EDGE_VEC) = Some lv → s.(heap) !! lv = Some v →
  let s' := embedded KEY s r emb attr in
  value_at s' KEY.(EDGE_VEC) = Some v ∧
  value_at s' KEY.(EDGE_LENGTH) = Some r ∧
  value_at s' KEY.(EDGE_EMBEDDING) = Some emb ∧
  value_at s' KEY.(EDGE_ATTR) = Some attr.
Proof using Hkeys.
  intros Hd Hh s'. unfold value_at, s', embedded. cbn [heap dict].
  split_and!.
  - rewrite lookup_insert_ne by (apply (key_ne KEY Hkeys 8 5); done || lia).
    rewrite lookup_insert_ne by (apply (key_ne KEY Hkeys 7 5); done || lia).
    rewrite lookup_insert_ne by (apply (key_ne KEY Hkeys 6 5); done || lia).
    rewrite Hd. cbn. by apply lookup_heap_old.
  - rewrite lookup_insert_ne by (apply (key_ne KEY Hkeys 8 6); done || lia).
    rewrite lookup_insert_ne by (apply (key_ne KEY Hkeys 7 6); done || lia).
    rewrite lookup_insert_eq. cbn. by rewrite lookup_heap_new0.
  - rewrite lookup_insert_ne by (apply (key_ne KEY Hkeys 8 7); done || lia).
    rewrite lookup_insert_eq. cbn. by rewrite lookup_heap_new.
  - rewrite lookup_insert_eq. cbn. by rewrite lookup_heap_new.
Qed.

(** Property X16.  A call of [EdgeEmbedding.forward] that returns makes
    exactly three new tensor objects and binds [EDGE_LENGTH],
    [EDGE_EMBEDDING] and [EDGE_ATTR] to them; every object that existed is
    unchanged, and so is every other entry of the dictionary, [EDGE_VEC]
    among them. *)
Theorem embedding_keeps_inputs (self : t) (s s' : state) :
  run (forward KEY self) s = Ok ((), s') →
  length s'.(heap) = (length s.(heap) + 3)%nat ∧
  (∀ l t, s.(heap) !! l = Some t → s'.(heap) !! l = Some t) ∧
  (∀ k, k ≠ KEY.(EDGE_LENGTH) → k ≠ KEY.(EDGE_EMBEDDING) →
        k ≠ KEY.(EDGE_ATTR) → s'.(dict) !! k = s.(dict) !! k) ∧
  s'.(dict) !! KEY.(EDGE_VEC) = s.(dict) !! KEY.(EDGE_VEC) ∧
  s'.(dict) !! KEY.(EDGE_LENGTH) = Some (length s.(heap)) ∧
  s'.(dict) !! KEY.(EDGE_EMBEDDING) = Some (length s.(heap) + 1)%nat ∧
  s'.(dict) !! KEY.(EDGE_ATTR) = Some (length s.(heap) + 2)%nat.
Proof using Hkeys.
  intros Hrun.
  destruct (run_embedding_inv self s s' Hrun)
    as (lv & v & r & emb & attr & Hd & Hh & Hr & He & Ha & ->).
  unfold embedded. cbn [heap dict]. split_and!.
  - rewrite length_app. cbn. lia.
  - intros l t Hl. by apply lookup_heap_old.
  - intros k H1 H2 H3. by rewrite !lookup_insert_ne by done.
  - rewrite lookup_insert_ne by (apply (key_ne KEY Hkeys 8 5); done || lia).
    rewrite lookup_insert_ne by (apply (key_ne KEY Hkeys 7 5); done || lia).
    by rewrite lookup_insert_ne by (apply (key_ne KEY Hkeys 6 5); done || lia).
  - rewrite lookup_insert_ne by (apply (key_ne KEY Hkeys 8 6); done || lia).
    rewrite lookup_insert_ne by (apply (key_ne KEY Hkeys 7 6); done || lia).
    apply lookup_insert_eq.
  - rewrite lookup_insert_ne by (apply (key_ne KEY Hkeys 8 7); done || lia).
    apply lookup_insert_eq.
  - apply lookup_insert_eq.
Qed.

(** Property X17.  After a call of [EdgeEmbedding.forward] that returns, a
    second call returns too and stores the same values again: new objects,
    equal contents, under [EDGE_LENGTH], [EDGE_EMBEDDING] and [EDGE_ATTR],
    and the edge vectors are as they were. *)
Theorem embedding_idempotent (self : t) (s s' : state) :
  run (forward KEY self) s = Ok ((), s') →
  ∃ s'',
    run (forward KEY self) s' = Ok ((), s'') ∧
    ∀ k, k ∈ [KEY.(EDGE_VEC); KEY.(EDGE_LENGTH); KEY.(EDGE_EMBEDDING);
              KEY.(EDGE_ATTR)] →
         value_at s'' k = value_at s' k ∧ is_Some (value_at s' k).
Proof using Hkeys.
  intros Hrun.
  destruct (run_embedding_inv self s s' Hrun)
    as (lv & v & r & emb & attr & Hd & Hh & Hr & He & Ha & ->).
  destruct (embedded_values s lv v r emb attr Hd Hh) as (V1 & V2 & V3 & V4).
  assert (∃ lv', (embedded KEY s r emb attr).(dict) !! KEY.(EDGE_VEC) = Some lv' ∧
                 (embedded KEY s r emb attr).(heap) !! lv' = Some v)
    as (lv' & Hd' & Hh').
  { unfold value_at in V1.
    destruct (dict (embedded KEY s r emb attr) !! EDGE_VEC KEY) as [l|];
      [|done].
    by exists l. }
  exists (embedded KEY (embedded KEY s r emb attr) r emb attr).
  split; [by apply (run_embedding self _ lv' v)|].
  destruct (embedded_values (embedded KEY s r emb attr) lv' v r emb attr Hd' Hh')
    as (W1 & W2 & W3 & W4).
  intros k Hk. rewrite !elem_of_cons in Hk.
  destruct Hk as [->|[->|[->|[->|Hk]]]];
    [| | | |by apply elem_of_nil in Hk].
  - by rewrite W1, V1.
  - by rewrite W2, V2.
  - by rewrite W3, V3.
  - by rewrite W4, V4.
Qed.

Lemma run_embedding_expr_error (self : t) (s : state) (lv : nat)
    (v r : tensor) (e : error) :
  s.(dict) !! KEY.(EDGE_VEC) = Some lv → s.(heap) !! lv = Some v →
  linalg_norm v = Ok r → embedding_expr self r = Err e →
  run (forward KEY self) s = Err e.
Proof.
  intros Hd Hh Hr He. unfold forward. repeat mstep.
  erewrite run_bind_eval by exact Hr. norm_state. repeat mstep.
  by apply run_bind_Err, run_eval_Err.
Qed.

Lemma t_mul_rows_mismatch gb gc vb (nb : nat) (basis : list (list R))
    (cut : list R) :
  as_2d vb = Some (nb, basis) →
  length basis ≠ length cut → length basis ≠ 1 → length cut ≠ 1 →
  (c ← t_unsqueeze_last (FloatT gc (S1 cut)); t_mul (FloatT gb vb) c)
  = Err RuntimeError.
Proof.
  intros Hvb Hne Hb Hc.
  cbn [t_unsqueeze_last lift_shape unsqueeze_last fmap result_fmap mbind
       result_bind].
  unfold t_mul. rewrite Hvb. cbn [as_2d]. rewrite length_fmap.
  assert (Hbc : bcast_dim (length basis) (length cut) = Err RuntimeError).
  { unfold bcast_dim. by rewrite !decide_False by done. }
  by rewrite Hbc.
Qed.

(** Property X18.  [EdgeEmbedding.forward] raises the [KeyError] of
    [EDGE_VEC] when there are no edge vectors, and otherwise the exception of
    the first stage that raises one: the radial basis; then the cutoff; then
    their product, which raises a [RuntimeError] when a basis of shape (n,k)
    meets a cutoff of shape (m,) with [n] and [m] different and neither of
    them [1]; and the angular encoding last. *)
Theorem embedding_errors (self : t) (s : state) :
  (s.(dict) !! KEY.(EDGE_VEC) = None →
   run (forward KEY self) s = Err (KeyError KEY.(EDGE_VEC))) ∧
  (∀ lv v r,
     s.(dict) !! KEY.(EDGE_VEC) = Some lv → s.(heap) !! lv = Some v →
     linalg_norm v = Ok r →
     (∀ e, e ≠ NotFinite → self.(basis_function) r = Err e →
           run (forward KEY self) s = Err e) ∧
     (∀ b e, e ≠ NotFinite → self.(basis_function) r = Ok b →
             self.(cutoff_function) r = Err e →
             run (forward KEY self) s = Err e) ∧
     (∀ gb vb nb basis gc cut,
        self.(basis_function) r = Ok (FloatT gb vb) →
        as_2d vb = Some (nb, basis) →
        self.(cutoff_function) r = Ok (FloatT gc (S1 cut)) →
        length basis ≠ length cut → length basis ≠ 1%nat →
        length cut ≠ 1%nat →
        run (forward KEY self) s = Err RuntimeError) ∧
     (∀ emb e, e ≠ NotFinite → embedding_expr self r = Ok emb →
               self.(spherical) v = Err e →
               run (forward KEY self) s = Err e)).
Proof.
  split.
  { intros Hd. unfold forward. apply run_bind_Err.
    by apply run_getitem_missing. }
  intros lv v r Hd Hh Hr.
  assert (Hemb : ∀ e, embedding_expr self r = Err e →
                      run (forward KEY self) s = Err e)
    by (intros e; by apply (run_embedding_expr_error self s lv v r e)).
  split_and!.
  - intros e _ Hb. apply Hemb. unfold embedding_expr. by rewrite Hb.
  - intros b e _ Hb Hc. apply Hemb. unfold embedding_expr. by rewrite Hb, Hc.
  - intros gb vb nb basis gc cut Hb Hvb Hc Hne Hb1 Hc1. apply Hemb.
    unfold embedding_expr. rewrite Hb, Hc. cbn [mbind result_bind].
    by apply (t_mul_rows_mismatch gb gc vb nb basis cut).
  - intros emb e _ He Ha. unfold forward. repeat mstep.
    erewrite run_bind_eval by exact Hr. norm_state. repeat mstep.
    erewrite run_bind_eval by exact He. norm_state. repeat mstep.
    by apply run_bind_Err, run_eval_Err.
Qed.

End embedding_runs.

(** * From the graph to the embedding *)

Section pipeline.
Local Open Scope R_scope.
Variable KEY : keys.
Hypothesis Hkeys : keys_distinct KEY.

Lemma mapM_to_vec3 {A} (rows : list (list A)) vs :
  mapM to_vec3 rows = Some vs → vec_list <$> vs = rows.
Proof.
  revert vs. induction rows as [|row rows IH]; intros vs H.
  - cbn in H. injection H as <-. reflexivity.
  - cbn in H. destruct (to_vec3 row) as [v|] eqn:Ev; [|done]. cbn in H.
    destruct (mapM to_vec3 rows) as [ws|]; [|done].
    cbn in H. injection H as <-. rewrite fmap_cons.
    rewrite (IH ws eq_refl).
    unfold to_vec3 in Ev. destruct row as [|x [|y [|z [|??]]]]; simplify_eq.
    done.
Qed.

Lemma as_2d_mk_2d {A} (c : nat) (rows : list (list A)) :
  as_2d (mk_2d c rows) = Some (c, rows).
Proof.
  unfold mk_2d. case_decide as Hc; [|done]. subst c.
  destruct (mapM to_vec3 rows) as [vs|] eqn:E; [|done].
  cbn. by rewrite (mapM_to_vec3 rows vs E).
Qed.

Lemma value_at_inv s k t :
  value_at s k = Some t → ∃ l, s.(dict) !! k = Some l ∧ s.(heap) !! l = Some t.
Proof.
  unfold value_at. destruct (dict s !! k) as [l|]; [|done]. by exists l.
Qed.

(** Property X19.  [EdgePreprocess.forward] without stress followed by
    [EdgeEmbedding.forward] with a [BesselBasis] and a [PolynomialCutoff] of
    one cutoff length: on data that follows the schema, with no edge of
    length zero, both calls return, and entry [n] of the embedding of an edge
    of length [r] is [(2/rc)·sin(n·π·r/rc)/r] times the envelope at [r]. *)
Theorem preprocess_then_embedding (batch_mode : bool) (s : state)
    (gp gs gc : bool) (pos shifts : list (vec3 R)) (cells : list (mat3 R))
    (batch src dst : list nat) (num_basis : Z) (rc : R) (trainable : bool)
    (k : nat) (bessel : BesselBasis.t) (cutoff : PolynomialCutoff.t)
    (sph : tensor → result tensor) (attr : tensor) :
  graph_input KEY batch_mode s gp gs gc pos shifts cells batch src dst →
  cells ≠ [] →
  BesselBasis.__init__ num_basis rc trainable = Ok bessel →
  PolynomialCutoff.__init__ (Z.of_nat (S k)) rc = Ok cutoff →
  let ev := edge_vectors pos cells shifts (owners batch_mode batch src) src dst in
  Forall (λ v, norm3 v ≠ 0) ev →
  sph (FloatT (gp || gs || gc) (S2 ev)) = Ok attr →
  let pre := {| EdgePreprocess.is_stress := false;
                EdgePreprocess._is_batch_data := batch_mode |} in
  let self := {| EdgeEmbedding.basis_function := BesselBasis.forward bessel;
                 EdgeEmbedding.cutoff_function := PolynomialCutoff.forward cutoff;
                 EdgeEmbedding.spherical := sph |} in
  ∃ s1 s2 g rows,
    run (EdgePreprocess.forward KEY pre) s = Ok ((), s1) ∧
    run (EdgeEmbedding.forward KEY self) s1 = Ok ((), s2) ∧
    value_at s2 KEY.(EDGE_ATTR) = Some attr ∧
    value_at s2 KEY.(EDGE_EMBEDDING)
    = Some (FloatT g (mk_2d (Z.to_nat num_basis) rows)) ∧
    length rows = length src ∧
    ∀ e v (n : Z),
      ev !! e = Some v → (1 ≤ n ≤ num_basis)%Z →
      ∃ row,
        rows !! e = Some row ∧ length row = Z.to_nat num_basis ∧
        row !! Z.to_nat (n - 1)
        = Some (2 / rc * sin (IZR n * PI / rc * norm3 v) / norm3 v
                * poly_env k rc (norm3 v)).
Proof using Hkeys.
  intros Hin _ Hb Hc ev Hpos Hattr pre self.
  destruct (forward_no_stress_values KEY batch_mode s gp gs gc pos shifts
              cells batch src dst Hkeys Hin) as (s1 & Hrun1 & Hv & _).
  fold ev in Hv. apply value_at_inv in Hv as (lv & Hd & Hh).
  destruct (bessel_init_inv _ _ _ _ Hb) as (Hrc & Hpre & Hco & Hfl).
  set (rs := norm3 <$> ev).
  set (basis := (λ r, (λ c, bessel.(BesselBasis.prefactor) * sin (c * r) / r)
                        <$> bessel.(BesselBasis.coeffs)) <$> rs).
  assert (Hnb : length bessel.(BesselBasis.coeffs) = Z.to_nat num_basis).
  { rewrite Hco, length_fmap, py_range_length. lia. }
  assert (Hemb : EdgeEmbedding.embedding_expr self
                   (FloatT (gp || gs || gc) (S1 rs))
                 = Ok (FloatT (gp || gs || gc || trainable || (gp || gs || gc))
                         (mk_2d (Z.to_nat num_basis)
                            (scale_rows basis (poly_env k rc <$> rs))))).
  { unfold EdgeEmbedding.embedding_expr, self.
    cbn [EdgeEmbedding.basis_function EdgeEmbedding.cutoff_function].
    rewrite bessel_forward_tensor
      by (subst rs; by apply Forall_fmap).
    cbn [mbind result_bind].
    rewrite (polynomial_forward_tensor k rc cutoff) by done.
    cbn [mbind result_bind t_unsqueeze_last lift_shape unsqueeze_last fmap
         result_fmap].
    rewrite Hfl, Hnb. apply t_mul_cutoff.
    - apply as_2d_mk_2d.
    - subst basis. by rewrite !length_fmap.
    - subst basis. apply Forall_fmap, Forall_true. intros r. cbn.
      by rewrite length_fmap. }
  eexists s1, _, _, _. split; [exact Hrun1|]. split.
  { apply (run_embedding KEY self s1 lv (FloatT (gp || gs || gc) (S2 ev)));
      [done|done|reflexivity|exact Hemb|exact Hattr]. }
  destruct (embedded_values KEY Hkeys s1 lv (FloatT (gp || gs || gc) (S2 ev))
              (FloatT (gp || gs || gc) (S1 rs))
              (FloatT (gp || gs || gc || trainable || (gp || gs || gc))
                 (mk_2d (Z.to_nat num_basis)
                    (scale_rows basis (poly_env k rc <$> rs))))
              attr Hd Hh) as (_ & _ & V3 & V4).
  split; [exact V4|]. split; [exact V3|].
  assert (Hlev : length ev = length src).
  { apply edge_vectors_length; [by destruct Hin..|apply owners_length]. }
  split.
  - unfold scale_rows. subst basis rs.
    rewrite length_zip_with, !length_fmap. lia.
  - intros e v n Hev Hn. eexists. split_and!.
    + unfold scale_rows. subst basis rs.
      rewrite lookup_zip_with, !list_lookup_fmap, Hev. cbn. reflexivity.
    + by rewrite !length_fmap.
    + rewrite !list_lookup_fmap, Hco, list_lookup_fmap,
        py_range_lookup by lia.
      cbn. rewrite Hpre.
      replace (1 + Z.of_nat (Z.to_nat (n - 1)))%Z with n by lia. done.
Qed.

(** Property X20.  An edge from an atom to itself with no cell shift has
    length zero, and then [EdgeEmbedding.forward] with a [BesselBasis] of at
    least one function has no finite result: nothing between the two modules
    guards the division by the length. *)
Theorem zero_length_edge_not_finite (batch_mode : bool) (s : state)
    (gp gs gc : bool) (pos shifts : list (vec3 R)) (cells : list (mat3 R))
    (batch src dst : list nat) (bessel : BesselBasis.t)
    (self : EdgeEmbedding.t) (e i : nat) :
  graph_input KEY batch_mode s gp gs gc pos shifts cells batch src dst →
  cells ≠ [] →
  src !! e = Some i → dst !! e = Some i → shifts !! e = Some (0, 0, 0) →
  self.(EdgeEmbedding.basis_function) = BesselBasis.forward bessel →
  bessel.(BesselBasis.coeffs) ≠ [] →
  let pre := {| EdgePreprocess.is_stress := false;
                EdgePreprocess._is_batch_data := batch_mode |} in
  ∃ s1 g rs,
    run (EdgePreprocess.forward KEY pre) s = Ok ((), s1) ∧
    value_at s1 KEY.(EDGE_LENGTH) = Some (FloatT g (S1 rs)) ∧
    rs !! e = Some 0 ∧
    run (EdgeEmbedding.forward KEY self) s1 = Err NotFinite.
Proof using Hkeys.
  intros Hin _ Hi Hj Hsh Hbasis Hco pre.
  destruct (forward_no_stress_values KEY batch_mode s gp gs gc pos shifts
              cells batch src dst Hkeys Hin) as (s1 & Hrun1 & Hv & Hl).
  pose proof (graph_input_mode _ _ _ _ _ _ _ _ _ _ _ _ Hin) as Hm.
  destruct (edge_vectors_per_edge batch_mode pos cells shifts batch src dst
              ltac:(by destruct Hin) ltac:(by destruct Hin) Hm e i i (0, 0, 0)
              Hi Hj Hsh) as (pi & pj & g & c & Hpi & Hpj & _ & _ & Hev).
  rewrite Hpi in Hpj. injection Hpj as <-.
  assert (Hzero : norm3 (vadd (vsub pi pi) (vecmat (0, 0, 0) c)) = 0).
  { destruct pi as [[x y] z], c as [[[[c1 c2] c3] [[c4 c5] c6]] [[c7 c8] c9]].
    cbn. transitivity (sqrt 0); [f_equal; ring|apply sqrt_0]. }
  set (ev := edge_vectors pos cells shifts (owners batch_mode batch src) src dst)
    in *.
  assert (Hrs : (norm3 <$> ev) !! e = Some 0).
  { rewrite list_lookup_fmap, Hev. cbn [fmap option_fmap option_map].
    by rewrite Hzero. }
  exists s1, (gp || gs || gc), (norm3 <$> ev).
  split; [exact Hrun1|]. split; [exact Hl|]. split; [exact Hrs|].
  apply value_at_inv in Hv as (lv & Hd & Hh).
  apply (run_embedding_expr_error KEY self s1 lv _ _ NotFinite Hd Hh eq_refl).
  unfold EdgeEmbedding.embedding_expr. rewrite Hbasis.
  rewrite bessel_forward_zero; [done| |done].
  by apply (list_elem_of_lookup_2 _ e).
Qed.

End pipeline.

(** * The slope of the switching window at its two ends *)

Section window_slope.
Local Open Scope R_scope.
Import XPLORCutoff.





End window_slope.

(** * The further properties at the sample inputs *)

Section sample_facts.
Local Open Scope R_scope.

Lemma sample_graph_input (cell : mat3 R) (sh : vec3 R) (pos : list (vec3 R))
    (i j : nat) :
  length pos = 2%nat → (i < 2)%nat → (j < 2)%nat →
  graph_input example_keys true
    (sample_graph cell [sh] pos [[Z.of_nat i]; [Z.of_nat j]])
    true false false pos [sh] [cell] [0; 0]%nat [i] [j].
Proof.
  intros Hl Hi Hj. destruct cell as [[r0 r1] r2].
  destruct r0 as [[a b] c], r1 as [[d e] f], r2 as [[g h] k]. split.
  - exists 0%nat, (FloatT false (S2 [(a, b, c); (d, e, f); (g, h, k)])).
    split_and!; reflexivity.
  - exists 1%nat. split; reflexivity.
  - exists 2%nat. split; reflexivity.
  - exists 3%nat. split; [reflexivity|]. intros _. reflexivity.
  - eexists 4%nat, _. split_and!; reflexivity.
  - reflexivity.
  - reflexivity.
  - repeat constructor. lia.
  - repeat constructor. lia.
  - intros _. split; [by rewrite Hl|]. repeat constructor.
Qed.

Lemma example_rotation_orthogonal :
  orthogonal ((0, 1, 0), (-1, 0, 0), (0, 0, 1)).
Proof.
  unfold orthogonal, scaled_identity. cbn.
  repeat (f_equal; try lra).
Qed.

Lemma example_embedding_runs :
  ∃ s', run (EdgeEmbedding.forward example_keys example_embedding) example_edges
        = Ok ((), s').
Proof.
  assert (Hne : Forall (λ r, r ≠ 0) [norm3 (1.5, 0, 0)]).
  { constructor; [|constructor]. pose proof example_norm_positive. lra. }
  assert (H2 : (2 : R) ≠ 0) by lra.
  eexists.
  eapply (run_embedding example_keys example_embedding example_edges 0%nat
            (FloatT true (S2 [(1.5, 0, 0)]))
            (FloatT true (S1 [norm3 (1.5, 0, 0)])) _ _ eq_refl eq_refl eq_refl).
  - unfold EdgeEmbedding.embedding_expr, example_embedding.
    cbn [EdgeEmbedding.basis_function EdgeEmbedding.cutoff_function].
    rewrite (bessel_forward_tensor example_bessel true _ Hne).
    cbn [mbind result_bind].
    rewrite (polynomial_forward_tensor 5 2 example_cutoff true _ eq_refl H2).
    cbn [mbind result_bind t_unsqueeze_last lift_shape unsqueeze_last fmap
         result_fmap].
    apply (t_mul_cutoff _ _ _ 2%nat); [apply as_2d_mk_2d|reflexivity|].
    constructor; [reflexivity|constructor].
  - reflexivity.
Qed.

End sample_facts.

Section more_witnesses.
Local Open Scope R_scope.

Lemma xplor_cutoff_degenerate_witness :
  XPLORCutoff.forward {| XPLORCutoff.r_on := 2; XPLORCutoff.r_cut := 2 |}
    (FloatT false (S1 [1; 2]))
  = Err NotFinite.
Proof.
  apply (proj1 (proj2 (xplor_cutoff_degenerate 2 _ false [1; 2] eq_refl))).
  apply Exists_cons_tl, Exists_cons_hd. lra.
Defined.


Lemma preprocess_translation_invariant_witness :
  ∃ s' s2' v r,
    run (EdgePreprocess.forward example_keys
           {| EdgePreprocess.is_stress := false;
              EdgePreprocess._is_batch_data := true |}) example_data
    = Ok ((), s') ∧
    run (EdgePreprocess.forward example_keys
           {| EdgePreprocess.is_stress := false;
              EdgePreprocess._is_batch_data := true |})
      (sample_graph example_cell example_shifts
         ((λ p, vadd p (1, 2, 3)) <$> example_pos) [[0]; [1]]%Z)
    = Ok ((), s2') ∧
    value_at s' "edge_vec" = Some v ∧ value_at s2' "edge_vec" = Some v ∧
    value_at s' "edge_length" = Some r ∧ value_at s2' "edge_length" = Some r.
Proof.
  exact (preprocess_translation_invariant example_keys true example_data _
           true false false (1, 2, 3) example_pos example_shifts
           [example_cell] [0; 0]%nat [0%nat] [1%nat]
           example_keys_distinct example_graph_input
           (sample_graph_input example_cell (0, 0, 0)
              ((λ p, vadd p (1, 2, 3)) <$> example_pos) 0 1
              eq_refl ltac:(lia) ltac:(lia))
           ltac:(discriminate)).
Defined.

Lemma preprocess_rotation_equivariant_witness :
  ∃ s' s2' g ev r,
    run (EdgePreprocess.forward example_keys
           {| EdgePreprocess.is_stress := false;
              EdgePreprocess._is_batch_data := true |}) example_data
    = Ok ((), s') ∧
    run (EdgePreprocess.forward example_keys
           {| EdgePreprocess.is_stress := false;
              EdgePreprocess._is_batch_data := true |})
      (sample_graph (matmul example_cell ((0, 1, 0), (-1, 0, 0), (0, 0, 1)))
         example_shifts
         ((λ p, vecmat p ((0, 1, 0), (-1, 0, 0), (0, 0, 1))) <$> example_pos)
         [[0]; [1]]%Z)
    = Ok ((), s2') ∧
    value_at s' "edge_vec" = Some (FloatT g (S2 ev)) ∧
    value_at s2' "edge_vec"
    = Some (FloatT g
              (S2 ((λ v, vecmat v ((0, 1, 0), (-1, 0, 0), (0, 0, 1))) <$> ev))) ∧
    value_at s' "edge_length" = Some r ∧ value_at s2' "edge_length" = Some r.
Proof.
  exact (preprocess_rotation_equivariant example_keys true example_data _
           true false false ((0, 1, 0), (-1, 0, 0), (0, 0, 1))
           example_pos example_shifts
           [example_cell] [0; 0]%nat [0%nat] [1%nat]
           example_keys_distinct example_rotation_orthogonal
           example_graph_input
           (sample_graph_input
              (matmul example_cell ((0, 1, 0), (-1, 0, 0), (0, 0, 1)))
              (0, 0, 0)
              ((λ p, vecmat p ((0, 1, 0), (-1, 0, 0), (0, 0, 1))) <$> example_pos)
              0 1 eq_refl ltac:(lia) ltac:(lia))
           ltac:(discriminate)).
Defined.

Lemma preprocess_reversed_edges_witness :
  ∃ s' s2' g ev r,
    run (EdgePreprocess.forward example_keys
           {| EdgePreprocess.is_stress := false;
              EdgePreprocess._is_batch_data := true |}) example_data
    = Ok ((), s') ∧
    run (EdgePreprocess.forward example_keys
           {| EdgePreprocess.is_stress := false;
              EdgePreprocess._is_batch_data := true |})
      (sample_graph example_cell (vneg <$> example_shifts) example_pos
         [[1]; [0]]%Z)
    = Ok ((), s2') ∧
    value_at s' "edge_vec" = Some (FloatT g (S2 ev)) ∧
    value_at s2' "edge_vec" = Some (FloatT g (S2 (vneg <$> ev))) ∧
    value_at s' "edge_length" = Some r ∧ value_at s2' "edge_length" = Some r.
Proof.
  exact (preprocess_reversed_edges example_keys true example_data _
           true false false example_pos example_shifts
           [example_cell] [0; 0]%nat [0%nat] [1%nat]
           example_keys_distinct example_graph_input
           (sample_graph_input example_cell (vneg (0, 0, 0)) example_pos 1 0
              eq_refl ltac:(lia) ltac:(lia))
           ltac:(discriminate) (λ _, eq_refl)).
Defined.

Lemma preprocess_cell_not_reshapable_witness :
  run (EdgePreprocess.forward example_keys (EdgePreprocess.__init__ false))
    (sample_state (FloatT false (S2 [(10, 0, 0); (0, 10, 0)]))
       (FloatT false (S2 example_shifts)) (FloatT true (S2 example_pos))
       (LongT (S1 [0; 0]%Z)) (LongT (SM 1 [[0]; [1]]%Z)))
  = Err RuntimeError.
Proof.
  eapply (preprocess_cell_not_reshapable example_keys);
    [reflexivity|reflexivity|cbn; lia].
Defined.

Lemma preprocess_stress_empty_batch_witness :
  run (EdgePreprocess.forward example_keys (EdgePreprocess.__init__ true))
    (sample_state (FloatT false (S2 (mat_rows example_cell)))
       (FloatT false (S2 [])) (FloatT true (S2 []))
       (LongT (S1 [])) (LongT (SM 0 [[]; []])))
  = Err RuntimeError.
Proof.
  eapply (preprocess_stress_empty_batch example_keys); reflexivity.
Defined.

Lemma preprocess_stress_integer_positions_witness :
  run (EdgePreprocess.forward example_keys (EdgePreprocess.__init__ true))
    (sample_state (FloatT false (S2 (mat_rows example_cell)))
       (FloatT false (S2 example_shifts))
       (LongT (S2 [(0, 0, 0); (1, 0, 0)]%Z))
       (LongT (S1 [0; 0]%Z)) (LongT (SM 1 [[0]; [1]]%Z)))
  = Err RuntimeError.
Proof.
  eapply (preprocess_stress_integer_positions example_keys);
    [reflexivity..|intros _; reflexivity].
Defined.

Lemma preprocess_index_out_of_range_witness :
  run (EdgePreprocess.forward example_keys (EdgePreprocess.__init__ false))
    (sample_graph example_cell example_shifts example_pos [[0]; [2]]%Z)
  = Err IndexError.
Proof.
  eapply (preprocess_index_out_of_range example_keys);
    [reflexivity|reflexivity|reflexivity|cbn; lia|reflexivity..|].
  apply Exists_cons_hd. unfold out_of_range. cbn. lia.
Defined.

Lemma strain_acts_on_edges_witness :
  ∃ s',
    run (after_strain example_keys
           {| EdgePreprocess.is_stress := true;
              EdgePreprocess._is_batch_data := true |}
           6%nat 2%nat 5%nat 1%nat 3%nat)
      (sample_strained ((0, 1, 0), (0, 0, 0), (0, 0, 0))) = Ok ((), s') ∧
    value_at s' "edge_vec"
    = Some (FloatT true
              (S2 (zip_with
                     (λ v g, vadd v
                               (vecmat v
                                  ((msym <$> [((0, 1, 0), (0, 0, 0), (0, 0, 0))])
                                   !!! g)))
                     (edge_vectors example_pos [example_cell] example_shifts
                        (owners true [0; 0]%nat [0%nat]) [0%nat] [1%nat])
                     (owners true [0; 0]%nat [0%nat])))).
Proof.
  apply (strain_acts_on_edges example_keys true
           (sample_strained ((0, 1, 0), (0, 0, 0), (0, 0, 0)))
           6%nat 2%nat 5%nat 1%nat 3%nat 4%nat (LongT (SM 1 [[0]; [1]]%Z))
           true false false example_pos example_shifts [example_cell]
           [((0, 1, 0), (0, 0, 0), (0, 0, 0))] [0; 0]%nat [0%nat] [1%nat]
           example_keys_distinct eq_refl eq_refl eq_refl eq_refl eq_refl
           eq_refl eq_refl eq_refl eq_refl eq_refl).
  - repeat constructor.
  - repeat constructor.
  - split_and!; try reflexivity. repeat constructor.
Defined.

Lemma embedding_keeps_inputs_witness :
  ∃ s',
    run (EdgeEmbedding.forward example_keys example_embedding) example_edges
    = Ok ((), s') ∧
    length s'.(heap) = 4%nat ∧
    s'.(heap) !! 0%nat = Some (FloatT true (S2 [(1.5, 0, 0)])) ∧
    s'.(dict) !! "edge_vec" = Some 0%nat.
Proof.
  destruct example_embedding_runs as [s' Hrun]. exists s'.
  destruct (embedding_keeps_inputs example_keys example_keys_distinct
              example_embedding example_edges s' Hrun)
    as (Hlen & Hold & _ & Hvec & _).
  exact (conj Hrun (conj Hlen (conj (Hold 0%nat _ eq_refl) Hvec))).
Defined.

Lemma embedding_idempotent_witness :
  ∃ s' s'',
    run (EdgeEmbedding.forward example_keys example_embedding) example_edges
    = Ok ((), s') ∧
    run (EdgeEmbedding.forward example_keys example_embedding) s'
    = Ok ((), s'') ∧
    value_at s'' "edge_embedding" = value_at s' "edge_embedding".
Proof.
  destruct example_embedding_runs as [s' Hrun]. exists s'.
  destruct (embedding_idempotent example_keys example_keys_distinct
              example_embedding example_edges s' Hrun) as (s'' & Hrun2 & Hsame).
  exists s''.
  refine (conj Hrun (conj Hrun2 (proj1 (Hsame "edge_embedding" _)))).
  cbn. rewrite !elem_of_cons. auto.
Defined.

Lemma preprocess_then_embedding_witness :
  ∃ s1 s2 g rows,
    run (EdgePreprocess.forward example_keys
           {| EdgePreprocess.is_stress := false;
              EdgePreprocess._is_batch_data := true |}) example_data
    = Ok ((), s1) ∧
    run (EdgeEmbedding.forward example_keys example_embedding) s1
    = Ok ((), s2) ∧
    value_at s2 "edge_embedding" = Some (FloatT g (mk_2d 2 rows)) ∧
    length rows = 1%nat.
Proof.
  assert (Hpos : Forall (λ v, norm3 v ≠ 0)
                   (edge_vectors example_pos [example_cell] example_shifts
                      (owners true [0; 0]%nat [0%nat]) [0%nat] [1%nat])).
  { constructor; [|constructor]. cbn. apply Rgt_not_eq, sqrt_lt_R0. lra. }
  destruct (preprocess_then_embedding example_keys example_keys_distinct
              true example_data true false false example_pos example_shifts
              [example_cell] [0; 0]%nat [0%nat] [1%nat] 2 2 true 5%nat
              example_bessel example_cutoff example_spherical _
              example_graph_input ltac:(discriminate) example_bessel_init
              eq_refl Hpos eq_refl)
    as (s1 & s2 & g & rows & H1 & H2 & _ & Hemb & Hlen & _).
  exists s1, s2, g, rows. exact (conj H1 (conj H2 (conj Hemb Hlen))).
Defined.

Lemma zero_length_edge_not_finite_witness :
  ∃ s1,
    run (EdgePreprocess.forward example_keys
           {| EdgePreprocess.is_stress := false;
              EdgePreprocess._is_batch_data := true |})
      (sample_graph example_cell [(0, 0, 0)] example_pos [[0]; [0]]%Z)
    = Ok ((), s1) ∧
    run (EdgeEmbedding.forward example_keys example_embedding) s1
    = Err NotFinite.
Proof.
  assert (Hco : BesselBasis.coeffs example_bessel ≠ []) by (cbn; discriminate).
  destruct (zero_length_edge_not_finite example_keys example_keys_distinct
              true _ true false false example_pos [(0, 0, 0)] [example_cell]
              [0; 0]%nat [0%nat] [0%nat] example_bessel example_embedding
              0%nat 0%nat
              (sample_graph_input example_cell (0, 0, 0) example_pos 0 0
                 eq_refl ltac:(lia) ltac:(lia))
              ltac:(discriminate) eq_refl eq_refl eq_refl eq_refl Hco)
    as (s1 & g & rs & H1 & _ & _ & H2).
  exists s1. exact (conj H1 H2).
Defined.

Lemma bessel_not_finite_at_zero_witness :
  BesselBasis.forward example_bessel (FloatT false (S1 [0])) = Err NotFinite.
Proof.
  apply (proj2 (bessel_not_finite_at_zero example_bessel false [0])).
  - constructor.
  - cbn. discriminate.
Defined.

Lemma preprocess_missing_key_witness :
  run (EdgePreprocess.forward example_keys
         {| EdgePreprocess.is_stress := false;
            EdgePreprocess._is_batch_data := true |})
    {| heap := example_data.(heap);
       dict := delete "edge_index" example_data.(dict) |}
  = Err (KeyError "edge_index").
Proof.
  pose proof (preprocess_missing_key example_keys
                {| EdgePreprocess.is_stress := false;
                   EdgePreprocess._is_batch_data := true |}
                {| heap := example_data.(heap);
                   dict := delete "edge_index" example_data.(dict) |})
    as [_ H].
  edestruct H as [_ H2]; [reflexivity|reflexivity|cbn; lia|reflexivity|].
  edestruct H2 as [_ H3]; [reflexivity|].
  eapply H3; reflexivity.
Defined.

Lemma embedding_errors_witness :
  run (EdgeEmbedding.forward example_keys example_embedding)
    {| heap := []; dict := ∅ |}
  = Err (KeyError "edge_vec").
Proof.
  apply (proj1 (embedding_errors example_keys example_embedding _)).
  reflexivity.
Defined.

Lemma preprocess_stress_cell_count_witness :
  run (EdgePreprocess.forward example_keys (EdgePreprocess.__init__ true))
    (sample_state (FloatT false (S3 [example_cell; example_cell]))
       (FloatT false (S2 example_shifts)) (FloatT true (S2 example_pos))
       (LongT (S1 [0; 0]%Z)) (LongT (SM 1 [[0]; [1]]%Z)))
  = Err RuntimeError.
Proof.
  apply (preprocess_stress_cell_count example_keys _ true false false
           example_pos example_shifts [example_cell; example_cell]
           [0; 0]%nat [0%nat] [1%nat]).
  - split.
    + eexists 0%nat, _. split_and!; reflexivity.
    + exists 1%nat. split; reflexivity.
    + exists 2%nat. split; reflexivity.
    + exists 3%nat. split; [reflexivity|]. intros _. reflexivity.
    + eexists 4%nat, _. split_and!; reflexivity.
    + reflexivity.
    + reflexivity.
    + repeat constructor.
    + repeat constructor.
    + intros _. split; [reflexivity|repeat constructor].
  - discriminate.
  - cbn. lia.
Defined.

End more_witnesses.
